(** * Readability across commits: the normalizer and the composite scorer

    A shallow embedding of [commit_readability_history.py]:
    [markdown_to_text], [readability_metrics], [normalize_score] and
    [calculate_readability].

    Conventions of the model.
    - A Python [str] is a [string]; a character is a code point below 256,
      so that a non-ASCII letter such as U+00E9 is a single character.
    - The regular expressions of the source are values of [Re.regex], run by
      a backtracking matcher with the priorities of Python's [re] module
      (ordered alternation, greedy and lazy repetition, capturing groups).
    - The third-party libraries the source calls ([markdown],
      [BeautifulSoup], [textstat]) are arguments of the pipeline.  The
      general results hold for every implementation of them; the results on
      concrete documents use the models of modules [Md] and [Html], which
      follow the libraries on the kind of document each one names.
    - The scorer is given twice.  Module [Scorer] is the formula the loop
      evaluates, in exact rational arithmetic ([Q]); module [FloatScorer]
      is the loop as Python computes it, in binary64 with every operation
      rounded (module [Float]).  Where the two differ, the program is the
      second: the callers of the scorer use it.  A raised exception is
      [None]. *)

From Stdlib Require Import String Ascii List Bool Arith Lia ZArith QArith Qround
  Qabs Qpower Qreduction Lqa Permutation.
Import ListNotations.
Set Warnings "-register-all".
Open Scope nat_scope.
Open Scope string_scope.

(** ** Characters *)

Module Chars.

Definition nl : ascii := "010"%char.
Definition cr : ascii := "013"%char.
Definition tab : ascii := "009"%char.
Definition dq : ascii := "034"%char.
Definition bt : ascii := "`"%char.

(** One-character strings for the characters a literal cannot hold. *)
Definition NL : string := String nl "".
Definition DQ : string := String dq "".

Definition between (lo hi : nat) (c : ascii) : bool :=
  let n := nat_of_ascii c in ((lo <=? n) && (n <=? hi))%nat.

(** [str.isspace()], and [\s] in a [str] pattern, below U+0100:
    TAB..CR, FS..US, SPACE, NEL and NBSP. *)
Definition is_space (c : ascii) : bool :=
  between 9 13 c || between 28 32 c
  || (nat_of_ascii c =? 133)%nat || (nat_of_ascii c =? 160)%nat.

(** The class [[a-zA-Z]]. *)
Definition is_ascii_alpha (c : ascii) : bool :=
  between 65 90 c || between 97 122 c.

Definition is_nl (c : ascii) : bool := Ascii.eqb c nl.

End Chars.

(** ** Python strings *)

Module Str.
Import Chars.

Fixpoint lstrip (s : string) : string :=
  match s with
  | String c s' => if is_space c then lstrip s' else s
  | EmptyString => s
  end.

(** [rstrip] keeps a character when it, or something after it, is not
    white space. *)
Fixpoint rstrip (s : string) : string :=
  match s with
  | String c s' =>
      match rstrip s' with
      | EmptyString => if is_space c then "" else String c ""
      | t => String c t
      end
  | EmptyString => ""
  end.

Definition strip (s : string) : string := rstrip (lstrip s).

Fixpoint all_chars (p : ascii -> bool) (s : string) : bool :=
  match s with
  | String c s' => p c && all_chars p s'
  | EmptyString => true
  end.

(** [''.join(xs)] *)
Definition join (xs : list string) : string := String.concat "" xs.

(** [pre in s] at the head of [s]. *)
Fixpoint starts_with (pre s : string) : bool :=
  match pre, s with
  | EmptyString, _ => true
  | String a p, String b t => Ascii.eqb a b && starts_with p t
  | String _ _, EmptyString => false
  end.

(** [sub in s] *)
Fixpoint contains (sub s : string) : bool :=
  starts_with sub s
  || match s with
     | String _ t => contains sub t
     | EmptyString => false
     end.

Fixpoint drop (n : nat) (s : string) : string :=
  match n, s with
  | S k, String _ t => drop k t
  | _, _ => s
  end.

Fixpoint take (n : nat) (s : string) : string :=
  match n, s with
  | S k, String c t => String c (take k t)
  | _, _ => ""
  end.

End Str.

(** ** Regular expressions, as Python's [re] runs them *)

Module Re.
Import Chars.

Inductive regex : Type :=
| Lit (c : ascii)               (* one literal character *)
| Cls (p : ascii -> bool)       (* a character class *)
| Bol                           (* [^] under [re.MULTILINE] *)
| Bos                           (* [^] without the flag *)
| Eos                           (* [$] without the flag *)
| NotAfter (p : ascii -> bool)  (* [(?<![...])], one character back *)
| Cat (r1 r2 : regex)
| Alt (r1 r2 : regex)           (* [r1|r2], left first *)
| Opt (r : regex)               (* [r?] *)
| Star (r : regex)              (* [r*], greedy *)
| LazyStar (r : regex)          (* [r*?] *)
| Grp (i : nat) (r : regex).    (* capturing group number [i] *)

(** [r+] *)
Definition Plus (r : regex) : regex := Cat r (Star r).

(** A literal run of characters. *)
Fixpoint lits (s : string) : regex :=
  match s with
  | String c EmptyString => Lit c
  | String c s' => Cat (Lit c) (lits s')
  | EmptyString => Opt (Cls (fun _ => false))
  end.

(** The matcher's state: the character before the current position
    ([None] at the start of the subject), the text still to read, and the
    groups captured so far. *)
Record mstate : Type := MState {
  prev : option ascii;
  rest : string;
  groups : list (nat * string)
}.

Definition start_at (p : option ascii) (s : string) : mstate := MState p s [].

Definition step (st : mstate) (c : ascii) (s' : string) : mstate :=
  MState (Some c) s' (groups st).

(** The text read between two states of one run. *)
Definition consumed (st st' : mstate) : string :=
  Str.take (String.length (rest st) - String.length (rest st'))%nat (rest st).

Definition set_group (i : nat) (v : string) (st : mstate) : mstate :=
  MState (prev st) (rest st) ((i, v) :: groups st).

Fixpoint group (i : nat) (gs : list (nat * string)) : string :=
  match gs with
  | (j, v) :: gs' => if (i =? j)%nat then v else group i gs'
  | [] => ""
  end.

Definition progress (st st' : mstate) : bool :=
  (String.length (rest st') <? String.length (rest st))%nat.

(** [exec r st k] runs [r] from [st] and hands every way of matching it, in
    priority order, to the continuation [k] until one succeeds.  An
    iteration of a repetition that reads nothing is not taken, so the loop
    runs at most once per remaining character. *)
Fixpoint exec {A : Type} (r : regex) (st : mstate)
         (k : mstate -> option A) {struct r} : option A :=
  match r with
  | Lit c =>
      match rest st with
      | String d s' => if Ascii.eqb c d then k (step st d s') else None
      | EmptyString => None
      end
  | Cls p =>
      match rest st with
      | String d s' => if p d then k (step st d s') else None
      | EmptyString => None
      end
  | Bol =>
      match prev st with
      | None => k st
      | Some c => if is_nl c then k st else None
      end
  | Bos =>
      match prev st with
      | None => k st
      | Some _ => None
      end
  | Eos =>
      match rest st with
      | EmptyString => k st
      | String c EmptyString => if is_nl c then k st else None
      | String _ (String _ _) => None
      end
  | NotAfter p =>
      match prev st with
      | None => k st
      | Some c => if p c then None else k st
      end
  | Cat r1 r2 => exec r1 st (fun st1 => exec r2 st1 k)
  | Alt r1 r2 =>
      match exec r1 st k with
      | Some x => Some x
      | None => exec r2 st k
      end
  | Opt r1 =>
      match exec r1 st k with
      | Some x => Some x
      | None => k st
      end
  | Star r1 =>
      (fix loop (n : nat) (st0 : mstate) : option A :=
         match n with
         | O => k st0
         | S n' =>
             match exec r1 st0
                     (fun st1 => if progress st0 st1 then loop n' st1 else None)
             with
             | Some x => Some x
             | None => k st0
             end
         end) (String.length (rest st)) st
  | LazyStar r1 =>
      (fix loop (n : nat) (st0 : mstate) : option A :=
         match n with
         | O => k st0
         | S n' =>
             match k st0 with
             | Some x => Some x
             | None =>
                 exec r1 st0
                   (fun st1 => if progress st0 st1 then loop n' st1 else None)
             end
         end) (String.length (rest st)) st
  | Grp i r1 => exec r1 st (fun st1 => k (set_group i (consumed st st1) st1))
  end.

(** [pattern.match] at one position: the final state of the first
    successful run. *)
Definition match_at (r : regex) (p : option ascii) (s : string) : option mstate :=
  exec r (start_at p s) (fun st => Some st).

(** A replacement template: literal text and group references. *)
Inductive piece : Type :=
| Text (s : string)
| Ref (i : nat).

Fixpoint expand (repl : list piece) (gs : list (nat * string)) : string :=
  match repl with
  | Text s :: t => s ++ expand t gs
  | Ref i :: t => group i gs ++ expand t gs
  | [] => ""
  end.

(** [re.sub]: the subject is scanned from left to right; at each position
    the pattern is tried, a match is replaced by the expanded template and
    the scan resumes after it; where nothing matches, one character is
    copied.  [skip] counts the characters of the current match that are
    still to be dropped; an empty match inserts the template and copies the
    next character. *)
Fixpoint sub_go (r : regex) (repl : list piece) (skip : nat)
         (p : option ascii) (s : string) {struct s} : string :=
  match skip with
  | S k =>
      match s with
      | String c s' => sub_go r repl k (Some c) s'
      | EmptyString => ""
      end
  | O =>
      match match_at r p s with
      | Some st =>
          expand repl (groups st) ++
          match s with
          | String c s' =>
              match (String.length s - String.length (rest st))%nat with
              | O => String c (sub_go r repl 0 (Some c) s')
              | S k => sub_go r repl k (Some c) s'
              end
          | EmptyString => ""
          end
      | None =>
          match s with
          | String c s' => String c (sub_go r repl 0 (Some c) s')
          | EmptyString => ""
          end
      end
  end.

Definition sub (r : regex) (repl : list piece) (s : string) : string :=
  sub_go r repl 0 None s.

(** [re.search]: the text before the leftmost match and the state at its
    end. *)
Fixpoint search_go (r : regex) (p : option ascii) (s : string)
         {struct s} : option (string * mstate) :=
  match match_at r p s with
  | Some st => Some ("", st)
  | None =>
      match s with
      | String c s' =>
          match search_go r (Some c) s' with
          | Some (before, st) => Some (String c before, st)
          | None => None
          end
      | EmptyString => None
      end
  end.

Definition search (r : regex) (s : string) : option (string * mstate) :=
  search_go r None s.

End Re.

(** ** The parse tree of BeautifulSoup *)

Module Soup.

Inductive node : Type :=
| Tag (name : string) (attrs : list (string * string)) (children : list node)
| NavigableString (s : string)
| Comment (s : string).

(** The children of the [BeautifulSoup] object, in document order. *)
Definition soup : Type := list node.

Definition name_in (n : string) (names : list string) : bool :=
  existsb (String.eqb n) names.

(** [for tag in soup.find_all(names): tag.decompose()]: every element with
    one of the names leaves the tree with all it contains. *)
Fixpoint decompose_node (names : list string) (n : node) : list node :=
  match n with
  | Tag nm a ch =>
      if name_in nm names then []
      else [Tag nm a (flat_map (decompose_node names) ch)]
  | NavigableString _ | Comment _ => [n]
  end.

Definition decompose_all (names : list string) (f : soup) : soup :=
  flat_map (decompose_node names) f.

(** The strings below a node that [get_text] and [stripped_strings] visit:
    text nodes, not comments.  The library also skips the text inside
    [script], [style] and [template] elements, which it files under string
    classes of its own; in a tree such text is a [Comment] node, which
    every function of this module treats the same way. *)
Fixpoint strings (n : node) : list string :=
  match n with
  | Tag _ _ ch => flat_map strings ch
  | NavigableString s => [s]
  | Comment _ => []
  end.

Definition get_text (n : node) : string := Str.join (strings n).

(** [for tag in soup.find_all("a"): tag.replace_with(tag.get_text())]: an
    [a] element becomes one text node holding its text.  A link inside a
    link is replaced in the detached outer element, not in the tree. *)
Fixpoint replace_links (n : node) : node :=
  match n with
  | Tag nm a ch =>
      if String.eqb nm "a" then NavigableString (get_text n)
      else Tag nm a (map replace_links ch)
  | NavigableString _ | Comment _ => n
  end.

Definition nonempty (s : string) : bool :=
  match s with
  | EmptyString => false
  | String _ _ => true
  end.

(** [soup.stripped_strings]: each text node stripped, the empty ones
    skipped. *)
Definition stripped_strings (f : soup) : list string :=
  filter nonempty (map Str.strip (flat_map strings f)).

End Soup.

(** ** A model of [BeautifulSoup(html, "html.parser")]

    The third-party parser, for the well-formed markup the renderer
    emits: start tags with quoted or bare attribute values, end tags,
    empty-element tags, comments, text, and the five predefined character
    entities written with their semicolon.  Declarations, processing
    instructions, other character references, the content of [script],
    [style] and [template] and the recovery from malformed tags are outside
    the model. *)

Module Html.
Import Chars Soup.

Inductive token : Type :=
| StartTag (name : string) (attrs : list (string * string)) (startend : bool)
| EndTag (name : string)
| Data (s : string)
| CommentTok (s : string).

Definition lower_char (c : ascii) : ascii :=
  if between 65 90 c then ascii_of_nat (nat_of_ascii c + 32) else c.

Fixpoint lower (s : string) : string :=
  match s with
  | String c s' => String (lower_char c) (lower s')
  | EmptyString => ""
  end.

(** The longest prefix whose characters satisfy [p], and what follows. *)
Fixpoint span (p : ascii -> bool) (s : string) : string * string :=
  match s with
  | String c s' =>
      if p c then let (a, b) := span p s' in (String c a, b) else ("", s)
  | EmptyString => ("", "")
  end.

(** The text before and after the first occurrence of [needle]. *)
Fixpoint find_sub (needle s : string) : option (string * string) :=
  if Str.starts_with needle s then Some ("", Str.drop (String.length needle) s)
  else match s with
       | String c s' =>
           match find_sub needle s' with
           | Some (a, b) => Some (String c a, b)
           | None => None
           end
       | EmptyString => None
       end.

Definition is_char (c : ascii) : ascii -> bool := Ascii.eqb c.

Definition name_char (c : ascii) : bool :=
  negb (is_space c || is_char "/" c || is_char ">" c || is_char "=" c).

Definition entities : list (string * ascii) :=
  [("amp;", "&"%char); ("lt;", "<"%char); ("gt;", ">"%char); ("quot;", dq);
   ("apos;", "'"%char)].

(** [s] starts with one of the entity names: the character and the rest. *)
Fixpoint entity_at (table : list (string * ascii)) (s : string)
  : option (ascii * string) :=
  match table with
  | (n, c) :: t =>
      if Str.starts_with n s then Some (c, Str.drop (String.length n) s)
      else entity_at t s
  | [] => None
  end.

Fixpoint unescape (s : string) : string :=
  match s with
  | String c s' =>
      if is_char "&" c then
        match entity_at entities s' with
        | Some (d, _) =>
            (* the entity name is dropped below, one character per step *)
            String d (unescape_skip s')
        | None => String c (unescape s')
        end
      else String c (unescape s')
  | EmptyString => ""
  end
with unescape_skip (s : string) : string :=
  match s with
  | String c s' => if is_char ";" c then unescape s' else unescape_skip s'
  | EmptyString => ""
  end.

(** The attributes of a start tag, up to its [>] or [/>]. *)
Fixpoint attrs_go (fuel : nat) (s : string)
  : option (list (string * string) * bool * string) :=
  match fuel with
  | O => None
  | S f =>
      let s := Str.lstrip s in
      match s with
      | EmptyString => None
      | String c s1 =>
          if is_char ">" c then Some ([], false, s1)
          else if is_char "/" c then
            match s1 with
            | String d s2 => if is_char ">" d then Some ([], true, s2) else attrs_go f s1
            | EmptyString => None
            end
          else
            let (an, s2) := span name_char s in
            match an with
            | EmptyString => attrs_go f s1
            | String _ _ =>
                let s3 := Str.lstrip s2 in
                let '(av, s4) :=
                  match s3 with
                  | String e s5 =>
                      if is_char "=" e then
                        match Str.lstrip s5 with
                        | String q s6 =>
                            if is_char dq q || is_char "'" q then
                              match find_sub (String q "") s6 with
                              | Some (v, after) => (unescape v, after)
                              | None => ("", "")
                              end
                            else
                              let (v, after) :=
                                span (fun x => negb (is_space x || is_char ">" x))
                                     (String q s6) in
                              (unescape v, after)
                        | EmptyString => ("", "")
                        end
                      else ("", s3)
                  | EmptyString => ("", "")
                  end in
                match attrs_go f s4 with
                | Some (rest, se, after) => Some ((lower an, av) :: rest, se, after)
                | None => None
                end
            end
      end
  end.

Fixpoint tokenize (fuel : nat) (s : string) : list token :=
  match fuel with
  | O => []
  | S f =>
      match s with
      | EmptyString => []
      | String c s1 =>
          if is_char "<" c then
            if Str.starts_with "!--" s1 then
              match find_sub "-->" (Str.drop 3 s1) with
              | Some (body, after) => CommentTok body :: tokenize f after
              | None => Data "<" :: tokenize f s1
              end
            else if Str.starts_with "/" s1 then
              let (n, s2) := span name_char (Str.drop 1 s1) in
              match n, Str.lstrip s2 with
              | String n0 _, String d after =>
                  if is_ascii_alpha n0 && is_char ">" d
                  then EndTag (lower n) :: tokenize f after
                  else Data "<" :: tokenize f s1
              | _, _ => Data "<" :: tokenize f s1
              end
            else
              let (n, s2) := span name_char s1 in
              match n with
              | String n0 _ =>
                  if is_ascii_alpha n0 then
                    match attrs_go (S (String.length s2)) s2 with
                    | Some (a, se, after) => StartTag (lower n) a se :: tokenize f after
                    | None => Data "<" :: tokenize f s1
                    end
                  else Data "<" :: tokenize f s1
              | EmptyString => Data "<" :: tokenize f s1
              end
          else if is_char "&" c then
            match entity_at entities s1 with
            | Some (d, after) => Data (String d "") :: tokenize f after
            | None => Data "&" :: tokenize f s1
            end
          else Data (String c "") :: tokenize f s1
      end
  end.

(** The builder's [empty_element_tags]. *)
Definition void_elements : list string :=
  ["area"; "base"; "br"; "col"; "embed"; "hr"; "img"; "input"; "keygen";
   "link"; "menuitem"; "meta"; "param"; "source"; "track"; "wbr";
   "basefont"; "bgsound"; "command"; "frame"; "image"; "isindex"; "nextid";
   "spacer"].

Definition preserve_whitespace_tags : list string := ["pre"; "textarea"].

(** An element still open: its name, attributes and the children read so
    far, latest first. *)
Record frame : Type := Frame {
  fname : string;
  fattrs : list (string * string);
  fkids : list node
}.

Record builder : Type := Builder {
  stack : list frame;             (* open elements, innermost first *)
  top : list node;                (* children of the root, latest first *)
  current_data : string;          (* text not yet made a node *)
  already_closed : list string    (* [already_closed_empty_element] *)
}.

Definition add_child (n : node) (st : list frame) (tp : list node)
  : list frame * list node :=
  match st with
  | Frame nm a k :: fs => (Frame nm a (n :: k) :: fs, tp)
  | [] => ([], n :: tp)
  end.

Definition ascii_space (c : ascii) : bool :=
  is_char " " c || is_char nl c || is_char tab c
  || is_char "012"%char c || is_char cr c.

(** [endData]: pending text becomes a text node; text made only of ASCII
    spaces shrinks to one newline or one space outside [pre]/[textarea]. *)
Definition end_data (b : builder) : builder :=
  match current_data b with
  | EmptyString => b
  | String _ _ =>
      let d := current_data b in
      let d :=
        if Str.all_chars ascii_space d
           && negb (existsb (fun f => name_in (fname f) preserve_whitespace_tags)
                            (stack b))
        then (if Str.contains NL d then NL else " ")
        else d in
      let (st, tp) := add_child (NavigableString d) (stack b) (top b) in
      Builder st tp "" (already_closed b)
  end.

Definition close (f : frame) : node := Tag (fname f) (fattrs f) (rev (fkids f)).

(** [_popToTag]: close open elements up to and including the innermost one
    called [name]; [carry] is the element just closed, on its way to its
    parent. *)
Fixpoint pop_until (name : string) (carry : option node) (st : list frame)
         (tp : list node) : list frame * list node :=
  match st with
  | Frame nm a k :: fs =>
      let k' := match carry with Some n => n :: k | None => k end in
      let n := close (Frame nm a k') in
      if String.eqb nm name then add_child n fs tp
      else pop_until name (Some n) fs tp
  | [] => ([], match carry with Some n => n :: tp | None => tp end)
  end.

(** Nothing is closed when no element called [name] is open. *)
Definition pop_to_tag (name : string) (b : builder) : builder :=
  if existsb (fun f => String.eqb (fname f) name) (stack b) then
    let (st, tp) := pop_until name None (stack b) (top b) in
    Builder st tp (current_data b) (already_closed b)
  else b.

Fixpoint remove_first (name : string) (l : list string) : list string :=
  match l with
  | x :: t => if String.eqb x name then t else x :: remove_first name t
  | [] => []
  end.

(** [handle_endtag] *)
Definition handle_endtag (name : string) (check_already_closed : bool)
           (b : builder) : builder :=
  if check_already_closed && name_in name (already_closed b) then
    Builder (stack b) (top b) (current_data b)
            (remove_first name (already_closed b))
  else pop_to_tag name (end_data b).

(** [handle_starttag] and [handle_startendtag] *)
Definition handle_starttag (name : string) (attrs : list (string * string))
           (startend : bool) (b : builder) : builder :=
  let b := end_data b in
  let b := Builder (Frame name attrs [] :: stack b) (top b) "" (already_closed b) in
  if startend then handle_endtag name true b
  else if name_in name void_elements then
    let b := handle_endtag name false b in
    Builder (stack b) (top b) (current_data b) (name :: already_closed b)
  else b.

Definition feed (b : builder) (t : token) : builder :=
  match t with
  | StartTag n a se => handle_starttag n a se b
  | EndTag n => handle_endtag n true b
  | Data d => Builder (stack b) (top b) (current_data b ++ d) (already_closed b)
  | CommentTok c =>
      let b := end_data b in
      let (st, tp) := add_child (Comment c) (stack b) (top b) in
      Builder st tp "" (already_closed b)
  end.

(** Every open element is closed, innermost first; [carry] as above. *)
Fixpoint close_all (carry : option node) (st : list frame) (tp : list node)
  : list node :=
  match st with
  | Frame nm a k :: fs =>
      let k' := match carry with Some n => n :: k | None => k end in
      close_all (Some (close (Frame nm a k'))) fs tp
  | [] => match carry with Some n => n :: tp | None => tp end
  end.

(** At the end of the input the pending text is flushed and every open
    element is closed. *)
Definition finish (b : builder) : soup :=
  let b := end_data b in
  rev (close_all None (stack b) (top b)).

(** [BeautifulSoup(html, "html.parser")], as the list of the children of
    the document. *)
Definition BeautifulSoup (html : string) : soup :=
  finish (fold_left feed (tokenize (S (String.length html)) html)
                    (Builder [] [] "" [])).

End Html.

(** ** A model of python-markdown's [markdown(text)]

    The third-party renderer, called as the source calls it: with no
    extension.  The model covers documents made of blank-line separated
    blocks that are ATX headings or paragraphs, with [**strong**] spans and
    inline links [[label](url)] whose destination holds no parenthesis,
    angle bracket or title (the destination is read up to the first closing
    parenthesis).  Tables and fenced code are extensions
    ([tables], [fenced_code]) which this call does not load, so their
    syntax is paragraph text, in the library as in the model.  The other
    core constructs (lists, block quotes, rules, setext headings, indented
    code, emphasis, code spans, references, raw HTML, backslash escapes,
    tabs) are outside the model. *)

Module Md.
Import Chars Re.

Inductive inline : Type :=
| IText (s : string)
| Strong (body : list inline)
| Link (href : string) (label : list inline).

Inductive block : Type :=
| Heading (level : nat) (text : string)
| Paragraph (text : string).

(** [NormalizeWhitespace]: line ends become [\n]. *)
Fixpoint unify_newlines (s : string) : string :=
  match s with
  | String c s' =>
      if Ascii.eqb c cr then
        match s' with
        | String d _ => if is_nl d then unify_newlines s'
                        else String nl (unify_newlines s')
        | EmptyString => String nl ""
        end
      else String c (unify_newlines s')
  | EmptyString => ""
  end.

Definition cons_head (c : ascii) (l : list string) : list string :=
  match l with
  | h :: t => String c h :: t
  | [] => [String c ""]
  end.

(** [s.split(sep)] for the separators [\n] and [\n\n]. *)
Fixpoint split_lines (s : string) : list string :=
  match s with
  | String c s' => if is_nl c then "" :: split_lines s'
                   else cons_head c (split_lines s')
  | EmptyString => [""]
  end.

Fixpoint split_blocks (s : string) : list string :=
  match s with
  | String c s' =>
      if is_nl c then
        match s' with
        | String d s'' => if is_nl d then "" :: split_blocks s''
                          else cons_head c (split_blocks s')
        | EmptyString => [String c ""]
        end
      else cons_head c (split_blocks s')
  | EmptyString => [""]
  end.

Fixpoint join_lines (l : list string) : string :=
  match l with
  | [] => ""
  | [x] => x
  | x :: t => x ++ NL ++ join_lines t
  end.

(** [NormalizeWhitespace]: a line of spaces only, between two newlines,
    is emptied. *)
Fixpoint blank_space_lines (l : list string) : list string :=
  match l with
  | x :: ((_ :: _) as t) =>
      (if Str.all_chars (Ascii.eqb " ") x then "" else x) :: blank_space_lines t
  | _ => l
  end.

Definition normalize_whitespace (source : string) : string :=
  match split_lines (unify_newlines source ++ NL ++ NL) with
  | first :: others => join_lines (first :: blank_space_lines others)
  | [] => ""
  end.

(** [HashHeaderProcessor.RE]:
    [(?:^|\n)(?P<level>#{1,6})(?P<header>(?:\\.|[^\\])*?)#*(?:\n|$)] *)
Definition hash : regex := Lit "#".
Definition backslash : ascii := "\"%char.

Definition hash_header_re : regex :=
  Cat (Alt Bos (Lit nl))
 (Cat (Grp 1 (Cat hash (Opt (Cat hash (Opt (Cat hash (Opt (Cat hash
                (Opt (Cat hash (Opt hash)))))))))))
 (Cat (Grp 2 (LazyStar (Alt (Cat (Lit backslash) (Cls (fun c => negb (is_nl c))))
                            (Cls (fun c => negb (Ascii.eqb c backslash))))))
 (Cat (Star hash)
      (Alt (Lit nl) Eos)))).

(** [BlockParser.parseBlocks] with the processors of the model, in the
    library's order: empty block, hash header, paragraph. *)
Fixpoint parse_blocks (fuel : nat) (blocks : list string) : list block :=
  match fuel with
  | O => []
  | S f =>
      match blocks with
      | [] => []
      | b :: bs =>
          if Str.starts_with NL b || negb (Soup.nonempty b) then
            match Str.drop 1 b with
            | EmptyString => parse_blocks f bs
            | the_rest => parse_blocks f (the_rest :: bs)
            end
          else
            match search hash_header_re b with
            | Some (before, st) =>
                (if Soup.nonempty before then parse_blocks f [before] else [])
                ++ Heading (String.length (group 1 (groups st)))
                           (Str.strip (group 2 (groups st)))
                :: parse_blocks f (if Soup.nonempty (rest st)
                                   then rest st :: bs else bs)
            | None =>
                (if Soup.nonempty (Str.strip b)
                 then [Paragraph (Str.lstrip b)] else [])
                ++ parse_blocks f bs
            end
      end
  end.

Definition cons_text (c : ascii) (l : list inline) : list inline :=
  match l with
  | IText t :: r => IText (String c t) :: r
  | _ => IText (String c "") :: l
  end.

(** The label of a link: the text up to the bracket that closes the one
    already read. *)
Fixpoint bracketed (depth : nat) (s : string) : option (string * string) :=
  match s with
  | String c s' =>
      if Ascii.eqb c "]" then
        match depth with
        | O => Some ("", s')
        | S d =>
            match bracketed d s' with
            | Some (a, b) => Some (String c a, b)
            | None => None
            end
        end
      else
        match bracketed (if Ascii.eqb c "[" then S depth else depth) s' with
        | Some (a, b) => Some (String c a, b)
        | None => None
        end
  | EmptyString => None
  end.

(** The inline patterns of the model, link before strong. *)
Fixpoint parse_inline (fuel : nat) (s : string) : list inline :=
  match fuel with
  | O => []
  | S f =>
      match s with
      | EmptyString => []
      | String c s' =>
          let plain := cons_text c (parse_inline f s') in
          if Ascii.eqb c "[" then
            match bracketed 0 s' with
            | Some (label, String p after) =>
                if Ascii.eqb p "(" then
                  match Html.find_sub ")" after with
                  | Some (dest, after') =>
                      Link (Str.strip dest) (parse_inline f label)
                      :: parse_inline f after'
                  | None => plain
                  end
                else plain
            | _ => plain
            end
          else if Str.starts_with "**" s then
            match Str.drop 1 s' with
            | String d s'' =>
                match Html.find_sub "**" s'' with
                | Some (body, after) =>
                    Strong (parse_inline f (String d body)) :: parse_inline f after
                | None => plain
                end
            | EmptyString => plain
            end
          else plain
      end
  end.

Definition alnum_lower (c : ascii) : bool := between 48 57 c || between 97 122 c.

(** The serializer's escaping: [&] unless it starts an entity, [<], [>],
    and the double quote in attribute values. *)
Fixpoint escape (attr : bool) (s : string) : string :=
  match s with
  | String c s' =>
      (if Ascii.eqb c "&" then
         match Html.span alnum_lower s' with
         | (String _ _, String e _) => if Ascii.eqb e ";" then "&" else "&amp;"
         | _ => "&amp;"
         end
       else if Ascii.eqb c "<" then "&lt;"
       else if Ascii.eqb c ">" then "&gt;"
       else if attr && Ascii.eqb c dq then "&quot;"
       else String c "") ++ escape attr s'
  | EmptyString => ""
  end.

Fixpoint to_html (i : inline) : string :=
  match i with
  | IText s => escape false s
  | Strong body => "<strong>" ++ Str.join (map to_html body) ++ "</strong>"
  | Link href label =>
      "<a href=" ++ DQ ++ escape true href ++ DQ ++ ">"
      ++ Str.join (map to_html label) ++ "</a>"
  end.

Definition digit (n : nat) : string := String (ascii_of_nat (48 + n)) "".

Definition render_inline (text : string) : string :=
  Str.join (map to_html (parse_inline (S (String.length text)) text)).

Definition block_html (b : block) : string :=
  match b with
  | Heading n text => "<h" ++ digit n ++ ">" ++ render_inline text
                      ++ "</h" ++ digit n ++ ">"
  | Paragraph text => "<p>" ++ render_inline text ++ "</p>"
  end.

(** [markdown(text)] *)
Definition markdown (source : string) : string :=
  match Str.strip source with
  | EmptyString => ""
  | String _ _ =>
      let text := normalize_whitespace source in
      let blocks := split_blocks text in
      let tree := parse_blocks (2 * String.length text + 2) blocks in
      Str.strip (join_lines (map block_html tree))
  end.

End Md.

(** ** The normalizer: [markdown_to_text] *)

Module Normalizer.
Import Chars Re Soup.

(** The pattern of the first [re.sub], compiled with [re.MULTILINE], part
    by part: group 1 is [(^|\n)]; then [\s*]; three backquotes; the rest
    of the line, [[^\n]*], in an optional non-capturing group; [\n]; the
    lazy [[\s\S]*?]; [\n]; [\s*]; three backquotes. *)
Definition fenced_code_re : regex :=
  Cat (Grp 1 (Alt Bol (Lit nl)))
 (Cat (Star (Cls is_space))
 (Cat (lits "```")
 (Cat (Opt (Star (Cls (fun c => negb (is_nl c)))))
 (Cat (Lit nl)
 (Cat (LazyStar (Cls (fun _ => true)))
 (Cat (Lit nl)
 (Cat (Star (Cls is_space))
      (lits "```")))))))).

(** [{%[\s\S]*?%}] *)
Definition template_tag_re : regex :=
  Cat (lits "{%") (Cat (LazyStar (Cls (fun _ => true))) (lits "%}")).

(** [\n+] *)
Definition newlines_re : regex := Plus (Lit nl).

(** [([a-zA-Z])\n] *)
Definition line_wrap_re : regex := Cat (Grp 1 (Cls is_ascii_alpha)) (Lit nl).

(** The names given to [soup.find_all] before [decompose]. *)
Definition unwanted : list string :=
  ["table"; "script"; "blockquote"; "hr"; "img"; "ul"; "ol"; "li";
   "h1"; "h2"; "h3"; "h4"; "h5"; "h6"].

(** The three substitutions on the extracted text. *)
Definition tidy (text : string) : string :=
  let text := sub template_tag_re [] text in
  let text := sub newlines_re [Text NL] text in
  let text := sub line_wrap_re [Ref 1; Text " "] text in
  text.

(** From the parse tree to the result: removal of the unwanted elements,
    replacement of the links, text extraction, substitutions. *)
Definition soup_to_text (soup : soup) : string :=
  let soup := decompose_all unwanted soup in
  let soup := map replace_links soup in
  let text := Str.join (stripped_strings soup) in
  tidy text.

Section Pipeline.

(** The two libraries the function calls. *)
Variable markdown : string -> string.
Variable BeautifulSoup : string -> soup.

Definition strip_fenced_code (markdown_string : string) : string :=
  sub fenced_code_re [Text NL] markdown_string.

Definition markdown_to_text (markdown_string : string) : string :=
  let markdown_string := strip_fenced_code markdown_string in
  let html := markdown markdown_string in
  let soup := BeautifulSoup html in
  soup_to_text soup.

End Pipeline.

(** A place in a parse tree: at the top level between two runs of
    siblings, or inside an element that stands between two such runs. *)
Inductive context : Type :=
| Here (before after : list node)
| Inside (before : list node) (name : string) (attrs : list (string * string))
         (inner : context) (after : list node).

Fixpoint plug (c : context) (filler : list node) : soup :=
  match c with
  | Here b a => b ++ filler ++ a
  | Inside b nm at_ c' a => b ++ Tag nm at_ (plug c' filler) :: a
  end%list.

(** The text of the source says: a newline that directly follows an ASCII
    letter becomes a space, every other character stays.  [p] is the
    character before [s]. *)
Fixpoint join_wrapped_lines (p : option ascii) (s : string) : string :=
  match s with
  | String c s' =>
      String (match p with
              | Some a => if is_ascii_alpha a && is_nl c then " "%char else c
              | None => c
              end)
             (join_wrapped_lines (Some c) s')
  | EmptyString => ""
  end.

(** Some newline of [s] directly follows an ASCII letter. *)
Fixpoint has_wrapped_line (s : string) : bool :=
  match s with
  | String c s' =>
      match s' with
      | String d _ => (is_ascii_alpha c && is_nl d) || has_wrapped_line s'
      | EmptyString => false
      end
  | EmptyString => false
  end.

(** The invariant of the scan of the last substitution: it never stands
    on a newline whose predecessor [p] is a letter, since the match tried
    one character earlier would have read that newline. *)
Definition scan_ok (p : option ascii) (s : string) : Prop :=
  match p, s with
  | Some a, String c _ => is_ascii_alpha a && is_nl c = false
  | _, _ => True
  end.

(** Empty or whitespace-only text. *)
Definition blank (s : string) : Prop := Str.all_chars is_space s = true.

End Normalizer.

(** ** The composite scorer: the formula, in exact arithmetic *)

Module Scorer.
Import Normalizer.
Local Open Scope Q_scope.

(** One entry of [readability_metrics]. *)
Record metric : Type := Metric {
  weight : Q;
  min_val : Q;
  max_val : Q
}.

(** The table, in the order [dict.items()] yields it. *)
Definition readability_metrics : list (string * metric) :=
  [("flesch_reading_ease", Metric 0.1653977378 0 100);
   ("gunning_fog", Metric 0.2228367277 19 6);
   ("coleman_liau_index", Metric 0.1831723411 19 6);
   ("automated_readability_index", Metric 0.2325290236 22 6);
   ("dale_chall_readability_score", Metric 0.1960641698 11 4.9)].

(** [(score - min_val) / (max_val - min_val)]; a zero divisor raises
    [ZeroDivisionError]. *)
Definition normalize_score (score min_val max_val : Q) : option Q :=
  if Qeq_bool (max_val - min_val) 0 then None
  else Some ((score - min_val) / (max_val - min_val)).

(** [d.get(key, default)] *)
Fixpoint get (key : string) (d : list (string * Q)) (default : Q) : Q :=
  match d with
  | (k, v) :: t => if String.eqb k key then v else get key t default
  | [] => default
  end.

(** The five functions of [textstat] the scorer calls; [None] when the
    call raises. *)
Record Textstat : Type := {
  flesch_reading_ease : string -> option Q;
  gunning_fog : string -> option Q;
  coleman_liau_index : string -> option Q;
  automated_readability_index : string -> option Q;
  dale_chall_readability_score : string -> option Q
}.

(** The [scores] dictionary. *)
Definition scores_dict (fre gf cli ari dc : Q) : list (string * Q) :=
  [("flesch_reading_ease", fre);
   ("gunning_fog", gf);
   ("coleman_liau_index", cli);
   ("automated_readability_index", ari);
   ("dale_chall_readability_score", dc)].

(** The loop over [readability_metrics.items()]: [acc] is
    [weighted_normalized_score_sum]. *)
Fixpoint weighted_sum (items : list (string * metric)) (scores : list (string * Q))
         (acc : Q) : option Q :=
  match items with
  | (name, values) :: t =>
      let score := get name scores 0 in
      match normalize_score score (min_val values) (max_val values) with
      | Some normalized_score =>
          weighted_sum t scores (acc + weight values * normalized_score)
      | None => None
      end
  | [] => Some acc
  end.

Definition composite_score (scores : list (string * Q)) : option Q :=
  match weighted_sum readability_metrics scores 0 with
  | Some weighted_normalized_score_sum => Some (weighted_normalized_score_sum * 100)
  | None => None
  end.

Section Calculate.

Variable markdown : string -> string.
Variable BeautifulSoup : string -> Soup.soup.
Variable textstat : Textstat.

Definition calculate_readability (content : string) : option Q :=
  let text := markdown_to_text markdown BeautifulSoup content in
  match flesch_reading_ease textstat text with
  | None => None
  | Some fre =>
  match gunning_fog textstat text with
  | None => None
  | Some gf =>
  match coleman_liau_index textstat text with
  | None => None
  | Some cli =>
  match automated_readability_index textstat text with
  | None => None
  | Some ari =>
  match dale_chall_readability_score textstat text with
  | None => None
  | Some dc => composite_score (scores_dict fre gf cli ari dc)
  end end end end end.

End Calculate.

(** The five metrics, to vary one raw value and hold the others. *)
Inductive metric_id : Type := FRE | GF | CLI | ARI | DC.

Definition raw_scores (raw : metric_id -> Q) : list (string * Q) :=
  scores_dict (raw FRE) (raw GF) (raw CLI) (raw ARI) (raw DC).

Definition metric_eqb (m m' : metric_id) : bool :=
  match m, m' with
  | FRE, FRE | GF, GF | CLI, CLI | ARI, ARI | DC, DC => true
  | _, _ => false
  end.

(** The raw values [raw] with the one of [m] set to [x]. *)
Definition with_raw (m : metric_id) (x : Q) (raw : metric_id -> Q)
  : metric_id -> Q :=
  fun m' => if metric_eqb m' m then x else raw m'.

(** The composite score as the text of the specification gives it: 100
    times the sum of [weight * (raw - min) / (max - min)] over the five
    rows of the table. *)
Definition composite_formula (fre gf cli ari dc : Q) : Q :=
  100 * (0.1653977378 * ((fre - 0) / (100 - 0))
         + 0.2228367277 * ((gf - 19) / (6 - 19))
         + 0.1831723411 * ((cli - 19) / (6 - 19))
         + 0.2325290236 * ((ari - 22) / (6 - 22))
         + 0.1960641698 * ((dc - 11) / (4.9 - 11))).

(** A [textstat] whose functions return fixed values on every text. *)
Definition constant_textstat (fre gf cli ari dc : Q) : Textstat :=
  {| flesch_reading_ease := fun _ => Some fre;
     gunning_fog := fun _ => Some gf;
     coleman_liau_index := fun _ => Some cli;
     automated_readability_index := fun _ => Some ari;
     dale_chall_readability_score := fun _ => Some dc |}.

End Scorer.

(** ** Python's [float]: IEEE 754 binary64

    Every operation returns the exact result rounded to the nearest
    number with 53 significant bits, a tie going to the even one; the
    numbers below [2^-1022] are [2^-1074] apart, a result that rounds to
    [2^1024] or more is an infinity, and the sign of a zero is kept. *)

Module Float.
Local Open Scope Z_scope.
Local Open Scope Q_scope.

(** A float is a signed zero, a nonzero finite value, an infinity or a
    NaN.  The finite values a computation reaches are the rationals
    [m * 2^c] with [|m| < 2^53] and [-1074 <= c]. *)
Inductive float : Type :=
| Zero (negative : bool)
| Finite (value : Q)
| Inf (negative : bool)
| NaN.

Definition pow2 (e : Z) : Q := 2 ^ e.

(** [floor (log2 x)] for a positive rational. *)
Definition ilog2 (x : Q) : Z :=
  let k := (Z.log2 (Qnum x) - Z.log2 (Zpos (Qden x)))%Z in
  if Qle_bool (pow2 k) x then k else (k - 1)%Z.

(** The nearest integer, a tie going to the even one. *)
Definition round_half_even (x : Q) : Z :=
  let f := Qfloor x in
  match Qcompare (x - inject_Z f) (1 # 2) with
  | Lt => f
  | Gt => (f + 1)%Z
  | Eq => if Z.even f then f else (f + 1)%Z
  end.

(** The exponent of the unit in the last place of [x]: 53 bits of
    precision, and the spacing [2^-1074] of the subnormal numbers below
    [2^-1022]. *)
Definition ulp_exponent (x : Q) : Z := Z.max (ilog2 (Qabs x) - 52) (-1074).

(** [x] rounded to the nearest number with 53 bits, the exponent unbounded
    above. *)
Definition round (x : Q) : Q :=
  let c := ulp_exponent x in
  Qred (inject_Z (round_half_even (x / pow2 c)) * pow2 c).

Definition negative_Q (x : Q) : bool := negb (Qle_bool 0 x).

(** The float of an exact result [x]; [zero_sign] is the sign an exact
    zero takes.  A result that rounds to [2^1024] or more overflows; one
    that rounds to zero keeps its sign. *)
Definition of_Q (zero_sign : bool) (x : Q) : float :=
  let r := round x in
  if Qeq_bool r 0 then Zero (if Qeq_bool x 0 then zero_sign else negative_Q x)
  else if Qle_bool (pow2 1024) (Qabs r) then Inf (negative_Q r)
  else Finite r.

Definition sign (a : float) : bool :=
  match a with
  | Zero s | Inf s => s
  | Finite q => negative_Q q
  | NaN => false
  end.

Definition is_zero (a : float) : bool :=
  match a with
  | Zero _ => true
  | Finite q => Qeq_bool q 0
  | _ => false
  end.

(** The value of a finite float. *)
Definition val (a : float) : Q :=
  match a with
  | Finite q => q
  | _ => 0
  end.

Definition neg (a : float) : float :=
  match a with
  | Zero s => Zero (negb s)
  | Finite q => Finite (- q)
  | Inf s => Inf (negb s)
  | NaN => NaN
  end.

Definition add (a b : float) : float :=
  match a, b with
  | NaN, _ | _, NaN => NaN
  | Inf s, Inf t => if Bool.eqb s t then Inf s else NaN
  | Inf s, _ => Inf s
  | _, Inf t => Inf t
  | _, _ => of_Q (sign a && sign b) (val a + val b)
  end.

Definition sub (a b : float) : float := add a (neg b).

Definition mul (a b : float) : float :=
  match a, b with
  | NaN, _ | _, NaN => NaN
  | Inf s, _ => if is_zero b then NaN else Inf (xorb s (sign b))
  | _, Inf t => if is_zero a then NaN else Inf (xorb (sign a) t)
  | _, _ => of_Q (xorb (sign a) (sign b)) (val a * val b)
  end.

(** [a / b]: [None] is [ZeroDivisionError], which Python raises for a zero
    divisor of either sign. *)
Definition div (a b : float) : option float :=
  if is_zero b then None
  else Some
    match a, b with
    | NaN, _ | _, NaN => NaN
    | Inf _, Inf _ => NaN
    | Inf s, _ => Inf (xorb s (sign b))
    | _, Inf t => Zero (xorb (sign a) t)
    | _, _ => of_Q (xorb (sign a) (sign b)) (val a / val b)
    end.

(** [a < b] and [a <= b]: false when either is a NaN. *)
Definition ltb (a b : float) : bool :=
  match a, b with
  | NaN, _ | _, NaN => false
  | Inf s, Inf t => s && negb t
  | Inf s, _ => s
  | _, Inf t => negb t
  | _, _ => negb (Qle_bool (val b) (val a))
  end.

Definition leb (a b : float) : bool :=
  match a, b with
  | NaN, _ | _, NaN => false
  | Inf s, Inf t => s || negb t
  | Inf s, _ => s
  | _, Inf t => negb t
  | _, _ => Qle_bool (val a) (val b)
  end.

(** The float a numeric literal denotes: the nearest to its decimal
    value; an [int] in an operation with a float is converted the same
    way. *)
Definition literal (x : Q) : float := of_Q false x.

End Float.

(** ** The composite scorer as it computes: in binary64

    The same source lines as module [Scorer], with every operation of the
    loop rounded as Python rounds it.  An [int] of the table meets a float
    in every operation but [max_val - min_val] of the first four rows,
    whose integer difference is the float difference. *)

Module FloatScorer.
Import Normalizer Float.
Local Open Scope Q_scope.

(** One entry of [readability_metrics]: the numbers as the floats the
    arithmetic of the loop takes them for. *)
Record metric : Type := Metric {
  weight : float;
  min_val : float;
  max_val : float
}.

Definition readability_metrics : list (string * metric) :=
  [("flesch_reading_ease",
    Metric (literal 0.1653977378) (literal 0) (literal 100));
   ("gunning_fog",
    Metric (literal 0.2228367277) (literal 19) (literal 6));
   ("coleman_liau_index",
    Metric (literal 0.1831723411) (literal 19) (literal 6));
   ("automated_readability_index",
    Metric (literal 0.2325290236) (literal 22) (literal 6));
   ("dale_chall_readability_score",
    Metric (literal 0.1960641698) (literal 11) (literal 4.9))].

(** [(score - min_val) / (max_val - min_val)], each operation rounded;
    [None] is [ZeroDivisionError]. *)
Definition normalize_score (score min_val max_val : float) : option float :=
  div (sub score min_val) (sub max_val min_val).

Fixpoint get (key : string) (d : list (string * float)) (default : float) : float :=
  match d with
  | (k, v) :: t => if String.eqb k key then v else get key t default
  | [] => default
  end.

Definition scores_dict (fre gf cli ari dc : float) : list (string * float) :=
  [("flesch_reading_ease", fre);
   ("gunning_fog", gf);
   ("coleman_liau_index", cli);
   ("automated_readability_index", ari);
   ("dale_chall_readability_score", dc)].

(** The loop over [readability_metrics.items()]. *)
Fixpoint weighted_sum (items : list (string * metric))
         (scores : list (string * float)) (acc : float) : option float :=
  match items with
  | (name, values) :: t =>
      let score := get name scores (literal 0) in
      match normalize_score score (min_val values) (max_val values) with
      | Some normalized_score =>
          weighted_sum t scores (add acc (mul (weight values) normalized_score))
      | None => None
      end
  | [] => Some acc
  end.

Definition composite_score (scores : list (string * float)) : option float :=
  match weighted_sum readability_metrics scores (literal 0) with
  | Some weighted_normalized_score_sum =>
      Some (mul weighted_normalized_score_sum (literal 100))
  | None => None
  end.

(** The five functions of [textstat] the scorer calls; [None] when the
    call raises. *)
Record Textstat : Type := {
  flesch_reading_ease : string -> option float;
  gunning_fog : string -> option float;
  coleman_liau_index : string -> option float;
  automated_readability_index : string -> option float;
  dale_chall_readability_score : string -> option float
}.

Section Calculate.

Variable markdown : string -> string.
Variable BeautifulSoup : string -> Soup.soup.
Variable textstat : Textstat.

Definition calculate_readability (content : string) : option float :=
  let text := markdown_to_text markdown BeautifulSoup content in
  match flesch_reading_ease textstat text with
  | None => None
  | Some fre =>
  match gunning_fog textstat text with
  | None => None
  | Some gf =>
  match coleman_liau_index textstat text with
  | None => None
  | Some cli =>
  match automated_readability_index textstat text with
  | None => None
  | Some ari =>
  match dale_chall_readability_score textstat text with
  | None => None
  | Some dc => composite_score (scores_dict fre gf cli ari dc)
  end end end end end.

End Calculate.

(** A [textstat] whose functions return fixed values on every text. *)
Definition constant_textstat (fre gf cli ari dc : float) : Textstat :=
  {| flesch_reading_ease := fun _ => Some fre;
     gunning_fog := fun _ => Some gf;
     coleman_liau_index := fun _ => Some cli;
     automated_readability_index := fun _ => Some ari;
     dale_chall_readability_score := fun _ => Some dc |}.

End FloatScorer.

(** ** What the binary64 scorer is compared with *)

Module FloatProps.
Import Float FloatScorer.
Local Open Scope Q_scope.

(** The largest finite double, [(2^53 - 1) * 2^971]. *)
Definition max_float : Q := inject_Z ((2 ^ 53 - 1) * 2 ^ 971).

(** A zero or a finite value of magnitude [B] at most. *)
Definition bounded (B : Q) (a : float) : Prop :=
  match a with
  | Zero _ => True
  | Finite q => Qabs q <= B
  | Inf _ | NaN => False
  end.

(** A finite double. *)
Definition finite (a : float) : Prop := bounded max_float a.

(** A float that is not a NaN, on the line of the rationals: an infinity
    stands at [2^1024], where the finite values end. *)
Definition position (a : float) : Q :=
  match a with
  | Zero _ | NaN => 0
  | Finite q => q
  | Inf s => if s then - pow2 1024 else pow2 1024
  end.

Definition ordered (a : float) : Prop :=
  match a with
  | Zero _ | Inf _ => True
  | Finite q => Qabs q < pow2 1024
  | NaN => False
  end.

(** What one row of the table adds to the sum for a raw value. *)
Definition contribution (values : metric) (score : float) : option float :=
  match normalize_score score (min_val values) (max_val values) with
  | Some normalized_score => Some (mul (weight values) normalized_score)
  | None => None
  end.

(** The divisor [max_val - min_val] of a row, and its sign. *)
Definition divisor (values : metric) : float :=
  sub (max_val values) (min_val values).

Definition divisor_positive (values : metric) : bool :=
  Qle_bool 0 (val (divisor values)).

(** A row the bounds below hold for: a weight between 0 and 1, a finite
    divisor of magnitude 1 or more, a minimum of magnitude 32 at most. *)
Definition row_in_range (values : metric) : bool :=
  match weight values, divisor values with
  | Finite w, Finite d =>
      Qle_bool 0 w && Qle_bool w 1 && Qle_bool 1 (Qabs d)
      && match min_val values with
         | Zero _ => true
         | Finite q => Qle_bool (Qabs q) 32
         | Inf _ | NaN => false
         end
  | _, _ => false
  end.

(** The row adds no more for the scores [s] than for the scores [s']. *)
Definition row_le (s s' : list (string * float)) (item : string * metric) : Prop :=
  exists c c',
    contribution (snd item) (get (fst item) s (literal 0)) = Some c
    /\ contribution (snd item) (get (fst item) s' (literal 0)) = Some c'
    /\ finite c /\ finite c' /\ val c <= val c'.

(** The [scores] dictionary of five raw values, and the raw values with
    the one of [m] set to [x]. *)
Definition raw_scores (raw : Scorer.metric_id -> float) : list (string * float) :=
  scores_dict (raw Scorer.FRE) (raw Scorer.GF) (raw Scorer.CLI) (raw Scorer.ARI)
              (raw Scorer.DC).

Definition with_raw (m : Scorer.metric_id) (x : float)
           (raw : Scorer.metric_id -> float) : Scorer.metric_id -> float :=
  fun m' => if Scorer.metric_eqb m' m then x else raw m'.

End FloatProps.

(** ** The program on the models of the libraries *)

Module Program.

Definition markdown_to_text : string -> string :=
  Normalizer.markdown_to_text Md.markdown Html.BeautifulSoup.

Definition calculate_readability : Scorer.Textstat -> string -> option Q :=
  Scorer.calculate_readability Md.markdown Html.BeautifulSoup.

End Program.

(** ** The standalone variant: [markdown_to_text] of [readability.py]

    The older pipeline of the repository.  It edits the HTML with regular
    expressions and joins every text node as it is, without stripping. *)

Module Standalone.
Import Chars Re Soup.

Definition any : regex := Cls (fun _ => true).
Definition dot : regex := Cls (fun c => negb (is_nl c)).
Definition space : regex := Cls is_space.
Definition non_space : regex := Cls (fun c => negb (is_space c)).
Definition not_backquote : regex := Cls (fun c => negb (Ascii.eqb c bt)).

(** [<table.*?>.*?</table>] with [re.DOTALL] *)
Definition table_re : regex :=
  Cat (lits "<table") (Cat (LazyStar any) (Cat (Lit ">")
 (Cat (LazyStar any) (lits "</table>")))).

(** [`[^`]*https?://\S+[^`]*`] *)
Definition backquoted_url_re : regex :=
  Cat (Lit bt) (Cat (Star not_backquote) (Cat (lits "http") (Cat (Opt (Lit "s"))
 (Cat (lits "://") (Cat (Plus non_space) (Cat (Star not_backquote) (Lit bt))))))).

(** [<blockquote>.*?</blockquote>] with [re.DOTALL] *)
Definition blockquote_re : regex :=
  Cat (lits "<blockquote>") (Cat (LazyStar any) (lits "</blockquote>")).

(** [<li>\s*[^\s]{1,2}\s*</li>] *)
Definition short_item_re : regex :=
  Cat (lits "<li>") (Cat (Star space) (Cat non_space (Cat (Opt non_space)
 (Cat (Star space) (lits "</li>"))))).

(** [(<li>.*?)(?<![.?!])\s*</li>] *)
Definition open_item_re : regex :=
  Cat (Grp 1 (Cat (lits "<li>") (LazyStar dot)))
 (Cat (NotAfter (fun c => Ascii.eqb c "." || Ascii.eqb c "?" || Ascii.eqb c "!"))
 (Cat (Star space) (lits "</li>"))).

(** [<script.*?>.*?</script>] with [re.DOTALL] *)
Definition script_re : regex :=
  Cat (lits "<script") (Cat (LazyStar any) (Cat (Lit ">")
 (Cat (LazyStar any) (lits "</script>")))).

(** [<hr.*?>] *)
Definition hr_re : regex := Cat (lits "<hr") (Cat (LazyStar dot) (Lit ">")).

(** [<img.*?alt=".*?".*?>] *)
Definition img_re : regex :=
  Cat (lits "<img") (Cat (LazyStar dot) (Cat (lits "alt=") (Cat (Lit dq)
 (Cat (LazyStar dot) (Cat (Lit dq) (Cat (LazyStar dot) (Lit ">"))))))).

(** [^---[\s\S]*?---] with [re.MULTILINE] *)
Definition frontmatter_re : regex :=
  Cat Bol (Cat (lits "---") (Cat (LazyStar any) (lits "---"))).

(** [html.replace(':', '.')] *)
Fixpoint colons_to_periods (s : string) : string :=
  match s with
  | String c s' => String (if Ascii.eqb c ":" then "."%char else c)
                          (colons_to_periods s')
  | EmptyString => ""
  end.

(** [soup.findAll(text=True)]: every string of the tree, comments too. *)
Fixpoint all_strings (n : node) : list string :=
  match n with
  | Tag _ _ ch => flat_map all_strings ch
  | NavigableString s => [s]
  | Comment s => [s]
  end.

Section Pipeline.

Variable markdown : string -> string.
Variable BeautifulSoup : string -> soup.

Definition markdown_to_text (markdown_string : string) : string :=
  let html := markdown markdown_string in
  let html := sub table_re [] html in
  let html := sub backquoted_url_re [] html in
  let html := sub blockquote_re [] html in
  let html := colons_to_periods html in
  let html := sub short_item_re [] html in
  let html := sub open_item_re [Ref 1; Text ".</li>"] html in
  let html := sub script_re [] html in
  let html := sub hr_re [] html in
  let html := sub img_re [] html in
  let html := sub frontmatter_re [] html in
  let soup := BeautifulSoup html in
  let text := Str.join (flat_map all_strings soup) in
  Normalizer.tidy text.

End Pipeline.

End Standalone.

(** ** The loops of the matcher, named

    The two repetition loops of [Re.exec] as functions of their own, and
    the functions the substitutions of the normalizer are compared with. *)

Module ReLoops.
Import Chars Re.

Section Loops.

Context {A : Type}.
Variable r : regex.
Variable k : mstate -> option A.

(** The loop of [Star r]: [n] iterations at most. *)
Fixpoint star_loop (n : nat) (st0 : mstate) : option A :=
  match n with
  | O => k st0
  | S n' =>
      match exec r st0
              (fun st1 => if progress st0 st1 then star_loop n' st1 else None)
      with
      | Some x => Some x
      | None => k st0
      end
  end.

(** The loop of [LazyStar r]. *)
Fixpoint lazy_loop (n : nat) (st0 : mstate) : option A :=
  match n with
  | O => k st0
  | S n' =>
      match k st0 with
      | Some x => Some x
      | None =>
          exec r st0
            (fun st1 => if progress st0 st1 then lazy_loop n' st1 else None)
      end
  end.

End Loops.

(** The character before the position reached by reading [w] from a
    position whose predecessor is [p]. *)
Fixpoint prev_after (p : option ascii) (w : string) : option ascii :=
  match w with
  | String c w' => prev_after (Some c) w'
  | EmptyString => p
  end.

Definition not_backquote (c : ascii) : bool := negb (Ascii.eqb c bt).
Definition not_newline (c : ascii) : bool := negb (is_nl c).
Definition not_brace (c : ascii) : bool := negb (Ascii.eqb c "{").

(** A run of newlines keeps its last newline only: what [\n+] replaced by
    one newline leaves. *)
Fixpoint squeeze_newlines (s : string) : string :=
  match s with
  | String c s' =>
      if is_nl c then
        match s' with
        | String d _ => if is_nl d then squeeze_newlines s'
                        else String c (squeeze_newlines s')
        | EmptyString => String c ""
        end
      else String c (squeeze_newlines s')
  | EmptyString => ""
  end.

(** Two newlines in a row somewhere in [s]. *)
Fixpoint has_blank_line (s : string) : bool :=
  match s with
  | String c s' =>
      match s' with
      | String d _ => (is_nl c && is_nl d) || has_blank_line s'
      | EmptyString => false
      end
  | EmptyString => false
  end.

(** The characters a pattern can read: every literal and every member of
    a class is [allowed]. *)
Fixpoint reads_only (allowed : ascii -> bool) (r : regex) : Prop :=
  match r with
  | Lit c => allowed c = true
  | Cls p => forall d, p d = true -> allowed d = true
  | Bol | Bos | Eos | NotAfter _ => True
  | Cat r1 r2 | Alt r1 r2 => reads_only allowed r1 /\ reads_only allowed r2
  | Opt r1 | Star r1 | LazyStar r1 | Grp _ r1 => reads_only allowed r1
  end.

(** The end of [fenced_code_re]: [\n\s*] and the closing fence. *)
Definition fence_close_re : regex :=
  Cat (Lit nl) (Cat (Star (Cls is_space)) (lits "```")).

(** What follows the opening fence in [fenced_code_re]. *)
Definition fence_tail_re : regex :=
  Cat (Opt (Star (Cls (fun c => negb (is_nl c)))))
 (Cat (Lit nl)
 (Cat (LazyStar (Cls (fun _ => true)))
      fence_close_re)).

(** A fenced code block: the opening fence with its info string, the
    lines of the body, the closing fence. *)
Definition fenced_block (info body : string) : string :=
  "```" ++ info ++ NL ++ body ++ NL ++ "```".

End ReLoops.

(** ** Properties of parse trees and of fragments *)

Module SoupProps.
Import Chars Soup.

(** An element called by one of [names] stands somewhere in the node. *)
Fixpoint has_tag (names : list string) (n : node) : bool :=
  match n with
  | Tag nm _ ch => name_in nm names || existsb (has_tag names) ch
  | NavigableString _ | Comment _ => false
  end.

(** The node without the comments it holds. *)
Fixpoint drop_comments (n : node) : list node :=
  match n with
  | Tag nm a ch => [Tag nm a (flat_map drop_comments ch)]
  | NavigableString _ => [n]
  | Comment _ => []
  end.

Definition starts_with_space (s : string) : bool :=
  match s with
  | String c _ => is_space c
  | EmptyString => false
  end.

Definition ends_with_space (s : string) : bool :=
  match ReLoops.prev_after None s with
  | Some c => is_space c
  | None => false
  end.

End SoupProps.

(** ** More of Python's [str] *)

Module Py.
Import Chars.

(** [s.split(sep)] for a one-character separator. *)
Fixpoint split_char (sep : ascii) (s : string) : list string :=
  match s with
  | String c s' =>
      if Ascii.eqb c sep then "" :: split_char sep s'
      else Md.cons_head c (split_char sep s')
  | EmptyString => [""]
  end.

(** The line boundaries of [str.splitlines] below U+0100: LF, VT, FF, CR,
    FS, GS, RS and NEL. *)
Definition is_line_break (c : ascii) : bool :=
  between 10 13 c || between 28 30 c || (nat_of_ascii c =? 133)%nat.

(** [s.splitlines()]: CR LF is one boundary; no empty last line. *)
Fixpoint splitlines (s : string) : list string :=
  match s with
  | String c s' =>
      if is_line_break c then
        match s' with
        | String d s'' =>
            if Ascii.eqb c cr && Ascii.eqb d nl then "" :: splitlines s''
            else "" :: splitlines s'
        | EmptyString => [""]
        end
      else Md.cons_head c (splitlines s')
  | EmptyString => []
  end.

(** [s.endswith(suffix)] *)
Definition endswith (s suffix : string) : bool :=
  (String.length suffix <=? String.length s)%nat
  && String.eqb (Str.drop (String.length s - String.length suffix) s) suffix.

(** [sep.join(xs)] *)
Definition join (sep : string) (xs : list string) : string :=
  String.concat sep xs.

(** Truth of an [Optional[str]]: [None] and the empty string are false. *)
Definition truthy (o : option string) : bool :=
  match o with
  | Some (String _ _) => true
  | _ => false
  end.

End Py.

(** ** The process: what it prints, how it ends *)

Module Sys.

Inductive stream : Type := Stdout | Stderr.

(** One result row: the dictionary with the keys [file], [commit], [date]
    and [score]. *)
Record row : Type := Row {
  file : string;
  commit : string;
  date : string;
  score : Float.float
}.

(** What the process does to the outside, in order: a [print] call, or a
    file written by [pandas]. *)
Inductive event : Type :=
| Print (to : stream) (text : string)
| ToExcel (path : string) (rows : list row)
| ToCsv (path : string) (rows : list row).

Inductive exn : Type :=
| SystemExit (code : nat)
| CalledProcessError
| FileNotFoundError
| ValueError
| MetricError.        (* whatever a function of [textstat] raises *)

Inductive result (A : Type) : Type :=
| Ok (a : A)
| Raise (e : exn).
Arguments Ok {A} a.
Arguments Raise {A} e.

(** A computation: the events so far, then a value or an exception. *)
Definition M (A : Type) : Type := list event * result A.

Definition ret {A : Type} (a : A) : M A := ([], Ok a).

Definition bind {A B : Type} (m : M A) (f : A -> M B) : M B :=
  match m with
  | (o, Ok a) => let (o', r) := f a in ((o ++ o')%list, r)
  | (o, Raise e) => (o, Raise e)
  end.

Definition print (to : stream) (text : string) : M unit := ([Print to text], Ok tt).

Definition raise {A : Type} (e : exn) : M A := ([], Raise e).

(** [try: m except E: handler], for the exceptions [handles] accepts. *)
Definition try_except {A : Type} (m : M A) (handles : exn -> bool)
           (handler : M A) : M A :=
  match m with
  | (o, Raise e) =>
      if handles e then let (o', r) := handler in ((o ++ o')%list, r) else m
  | (_, Ok _) => m
  end.

Definition is_called_process_error (e : exn) : bool :=
  match e with CalledProcessError => true | _ => false end.

(** The status the process ends with: 0 when the script runs to its end,
    the code of [sys.exit], 1 for an uncaught exception. *)
Definition exit_status {A : Type} (r : result A) : nat :=
  match r with
  | Ok _ => 0
  | Raise (SystemExit code) => code
  | Raise _ => 1
  end.

Declare Scope sys_scope.
Notation "x <- m ;; k" := (bind m (fun x => k))
  (at level 61, m at next level, right associativity) : sys_scope.
Notation "m ;;; k" := (bind m (fun _ => k))
  (at level 61, right associativity) : sys_scope.

End Sys.

(** ** The callers: [commit_readability_history.py] *)

Module History.
Import Chars Sys.
Local Open Scope sys_scope.

Section Env.

(** The outside world: [git] is [subprocess.run] on a command ([None] when
    it raises [CalledProcessError]); [read_file] opens and reads a file
    ([None] for [FileNotFoundError]); [parse_date] is
    [dateutil.parser.parse(...).astimezone().isoformat()] ([None] for
    [ValueError]); [now] is [datetime.now().astimezone().isoformat()];
    [format2f] formats a score with [.2f]. *)
Variable git : list string -> option string.
Variable read_file : string -> option string.
Variable parse_date : string -> option string.
Variable now : string.
Variable format2f : Float.float -> string.
Variable markdown : string -> string.
Variable BeautifulSoup : string -> Soup.soup.
Variable textstat : FloatScorer.Textstat.

Definition run_git_command (command : list string) : M string :=
  match git command with
  | Some stdout => ret stdout
  | None =>
      print Stderr ("Error: Unable to run git command: " ++ Py.join " " command) ;;;
      raise (SystemExit 1)
  end.

Definition get_commit_history (file_path : option string) : M (list string) :=
  let command := ["git"; "log"; "--format=%H|%cd"; "--date=iso-local"] in
  let command :=
    match file_path with
    | Some p => if Py.truthy file_path then (command ++ [p])%list else command
    | None => command
    end in
  out <- run_git_command command ;;
  ret (Py.splitlines out).

Definition get_file_content_at_commit (commit_hash file_path : string) : M string :=
  try_except
    (run_git_command ["git"; "show"; commit_hash ++ ":" ++ file_path])
    is_called_process_error
    (print Stderr ("Warning: Unable to retrieve content for " ++ file_path
                   ++ " at commit " ++ commit_hash) ;;;
     ret "").

(** [calculate_readability] as a computation: an exception of [textstat]
    goes up. *)
Definition calculate_readability (content : string) : M Float.float :=
  match FloatScorer.calculate_readability markdown BeautifulSoup textstat content with
  | Some composite_score => ret composite_score
  | None => raise MetricError
  end.

Definition get_all_markdown_files : M (list string) :=
  files <- run_git_command ["git"; "ls-files"; "*.md"] ;;
  ret (Py.splitlines files).

(** The loop of [analyze_readability] over the entries of the log. *)
Fixpoint analyze_commits (file_path : string) (commits : list string)
         (results : list row) : M (list row) :=
  match commits with
  | [] => ret results
  | entry :: commits' =>
      match Py.split_char "|" entry with
      | [commit_hash; commit_date] =>
          match parse_date commit_date with
          | None =>
              print Stderr ("Warning: Invalid date format for commit " ++ commit_hash) ;;;
              analyze_commits file_path commits' results
          | Some commit_date =>
              content <- get_file_content_at_commit commit_hash file_path ;;
              if Soup.nonempty content then
                score <- calculate_readability content ;;
                analyze_commits file_path commits'
                  (results ++ [Row file_path commit_hash commit_date score])%list
              else analyze_commits file_path commits' results
          end
      | _ => raise ValueError      (* the unpacking of the split fails *)
      end
  end.

Definition is_file_not_found (e : exn) : bool :=
  match e with FileNotFoundError => true | _ => false end.

Definition analyze_readability (file_path : string) : M (list row) :=
  commits <- get_commit_history (Some file_path) ;;
  results <- analyze_commits file_path commits [] ;;
  try_except
    (staged_content <- match read_file file_path with
                       | Some c => ret c
                       | None => raise FileNotFoundError
                       end ;;
     staged_score <- calculate_readability staged_content ;;
     ret (results ++ [Row file_path "STAGED" now staged_score])%list)
    is_file_not_found
    (ret results).

(** [grouped_results.setdefault(result["file"], []).append(result)] *)
Fixpoint setdefault_append (r : row) (grouped : list (string * list row))
  : list (string * list row) :=
  match grouped with
  | (k, entries) :: t =>
      if String.eqb k (file r) then (k, (entries ++ [r])%list) :: t
      else (k, entries) :: setdefault_append r t
  | [] => [(file r, [r])]
  end.

Definition group_by_file (results : list row) : list (string * list row) :=
  fold_left (fun grouped r => setdefault_append r grouped) results [].

Definition entry_line (entry : row) : string :=
  "| " ++ commit entry ++ " | " ++ date entry ++ " | "
  ++ format2f (score entry) ++ " |".

Definition group_lines (g : string * list row) : list string :=
  (NL ++ "## Readability history for file: " ++ fst g)
  :: "| Commit | Date | Score |"
  :: "|--------|------|-------|"
  :: map entry_line (snd g).

(** The lines [display_results] prints, one per [print] call. *)
Definition display_lines (results : list row) : list string :=
  flat_map group_lines (group_by_file results).

Definition display_results (results : list row) : M unit :=
  (map (Print Stdout) (display_lines results), Ok tt).

Definition output_results (results : list row) (output_file : string) : M unit :=
  (if Py.endswith output_file ".xlsx" then ([ToExcel output_file results], Ok tt)
   else if Py.endswith output_file ".csv" then ([ToCsv output_file results], Ok tt)
   else ret tt) ;;;
  print Stdout ("Results written to " ++ output_file).

(** The loop of [analyze_all_files]. *)
Fixpoint analyze_files (all_files : list string) (all_results : list row)
  : M (list row) :=
  match all_files with
  | [] => ret all_results
  | file_path :: t =>
      print Stdout ("Analyzing " ++ file_path ++ " across commits...") ;;;
      results <- analyze_readability file_path ;;
      analyze_files t (all_results ++ results)%list
  end.

Definition analyze_all_files (output_file : option string) : M unit :=
  all_files <- get_all_markdown_files ;;
  match all_files with
  | [] => print Stdout "No Markdown files found in the repository."
  | _ :: _ =>
      all_results <- analyze_files all_files [] ;;
      match output_file with
      | Some (String c f) => output_results all_results (String c f)
      | _ => display_results all_results
      end
  end.

(** The parsed command line: [-f], [-a], [-o]. *)
Record args : Type := Args {
  arg_file : option string;
  arg_all : bool;
  arg_output : option string
}.

Definition main (a : args) : M unit :=
  if negb (Py.truthy (arg_file a)) && negb (arg_all a) then
    print Stderr
      "Error: You must specify either a file with -f or use -a to analyze all Markdown files." ;;;
    raise (SystemExit 1)
  else if arg_all a then analyze_all_files (arg_output a)
  else
    match arg_file a with
    | Some (String c f) =>
        results <- analyze_readability (String c f) ;;
        match arg_output a with
        | Some (String d o) => output_results results (String d o)
        | _ => display_results results
        end
    | _ => ret tt
    end.

End Env.

End History.

(** ** The pre-commit hook: [check_readability.py] *)

Module PreCommit.
Import Chars Sys.
Local Open Scope sys_scope.
Local Open Scope Q_scope.

Definition THRESHOLD : Float.float := Float.literal 50.0.

Section Env.

Variable git : list string -> option string.
Variable read_file : string -> option string.
Variable format2f : Float.float -> string.
Variable markdown : string -> string.
Variable BeautifulSoup : string -> Soup.soup.
Variable textstat : FloatScorer.Textstat.

Definition get_staged_files (extension : string) : M (list string) :=
  match git ["git"; "diff"; "--cached"; "--name-only"; "--diff-filter=ACM"] with
  | Some stdout =>
      let files := Py.splitlines stdout in
      ret (filter (fun f => Py.endswith f extension) files)
  | None =>
      print Stderr "Error: Unable to get staged files." ;;;
      raise (SystemExit 1)
  end.

(** The loop of [main]: [failed] is the flag. *)
Fixpoint check_files (markdown_files : list string) (failed : bool) : M bool :=
  match markdown_files with
  | [] => ret failed
  | file_path :: t =>
      print Stdout ("Checking readability for: " ++ file_path) ;;;
      match read_file file_path with
      | Some content =>
          readability_score <-
            History.calculate_readability markdown BeautifulSoup textstat content ;;
          print Stdout ("  Readability Score: " ++ format2f readability_score) ;;;
          if Float.ltb readability_score THRESHOLD then
            print Stdout ("  [ERROR] Readability score below threshold ("
                          ++ "50.0" ++ "): " ++ format2f readability_score) ;;;
            check_files t true
          else check_files t failed
      | None =>
          print Stdout ("  [ERROR] File " ++ file_path ++ " not found.") ;;;
          raise (SystemExit 1)
      end
  end.

Definition main : M unit :=
  markdown_files <- get_staged_files ".md" ;;
  match markdown_files with
  | [] =>
      print Stdout "No staged Markdown files to check." ;;;
      raise (SystemExit 0)
  | _ :: _ =>
      failed <- check_files markdown_files false ;;
      if failed then
        print Stdout "Pre-commit check failed. Fix the issues and try again." ;;;
        raise (SystemExit 1)
      else
        print Stdout "Readability check passed!" ;;;
        raise (SystemExit 0)
  end.

End Env.

End PreCommit.

(** ** What the callers are compared with *)

Module CallerProps.
Import Chars Sys.

Definition not_bar (c : ascii) : bool := negb (Ascii.eqb c "|").
Definition not_line_break (c : ascii) : bool := negb (Py.is_line_break c).

(** The entry [git log] prints for a commit: [%H|%cd]. *)
Definition log_entry (c : string * string) : string := fst c ++ "|" ++ snd c.

(** The output of a command that prints one line per item. *)
Fixpoint unlines (l : list string) : string :=
  match l with
  | x :: t => x ++ NL ++ unlines t
  | [] => ""
  end.

(** The members of [l], each once, in the order of their first
    occurrence. *)
Fixpoint distinct (l : list string) : list string :=
  match l with
  | x :: t => x :: filter (fun y => negb (String.eqb y x)) (distinct t)
  | [] => []
  end.

(** The number of rows held by the groups. *)
Definition total_entries (g : list (string * list row)) : nat :=
  list_sum (map (fun p => List.length (snd p)) g).

(** The results whose file is [f]. *)
Definition rows_of (f : string) (results : list row) : list row :=
  filter (fun r => String.eqb (file r) f) results.

Section Expected.

Variable parse_date : string -> option string.
Variable content : string -> string.     (* the file at a commit *)
Variable score : string -> Float.float.  (* the score of a content *)
Variable file_path : string.

(** The row a commit of the log gives: none for a date that does not
    parse, none for an empty content. *)
Definition commit_rows (c : string * string) : list row :=
  match parse_date (snd c) with
  | Some d =>
      if Soup.nonempty (content (fst c))
      then [Row file_path (fst c) d (score (content (fst c)))]
      else []
  | None => []
  end.

Definition commit_warnings (c : string * string) : list event :=
  match parse_date (snd c) with
  | Some _ => []
  | None => [Print Stderr ("Warning: Invalid date format for commit " ++ fst c)]
  end.

End Expected.

(** A commit of the log as the loop of [analyze_readability] needs it: no
    bar in the hash or in the date, and [git show] gives the content. *)
Definition readable_commit (git : list string -> option string)
           (content : string -> string) (file_path : string)
           (c : string * string) : Prop :=
  Str.all_chars not_bar (fst c) = true
  /\ Str.all_chars not_bar (snd c) = true
  /\ git ["git"; "show"; fst c ++ ":" ++ file_path] = Some (content (fst c)).

(** [l'] is [l] without its members that do not satisfy [P]: the others
    stay, each as often as it occurs and in the same order. *)
Inductive kept (P : string -> Prop) : list string -> list string -> Prop :=
| kept_nil : kept P [] []
| kept_take x l l' : P x -> kept P l l' -> kept P (x :: l) (x :: l')
| kept_drop x l l' : ~ P x -> kept P l l' -> kept P (x :: l) l'.

(** [s] ends with [suffix]. *)
Definition has_suffix (suffix s : string) : Prop := exists p, s = p ++ suffix.

(** Some score of the list is below the threshold. *)
Definition some_below (score : string -> Float.float) (contents : list string)
  : bool :=
  existsb (fun c => Float.ltb (score c) PreCommit.THRESHOLD) contents.

End CallerProps.

(** ** A small outside world, to run the callers in *)

Module Sample.
Import Chars Sys.

Definition document : string := "# Title" ++ NL ++ NL ++ "Some text.".

(** A repository with three commits of [README.md]: the date of the
    second does not parse, the content of the third is empty. *)
Definition git (command : list string) : option string :=
  if String.eqb (nth 1 command "") "log" then
    Some ("a1|2024-05-01" ++ NL ++ "b2|someday" ++ NL ++ "c3|2024-05-03" ++ NL)
  else if String.eqb (nth 1 command "") "diff" then
    Some ("README.md" ++ NL ++ "notes.txt" ++ NL ++ "docs/guide.md" ++ NL)
  else if String.eqb (nth 2 command "") "c3:README.md" then Some ""
  else Some document.

Definition commits : list (string * string) :=
  [("a1", "2024-05-01"); ("b2", "someday"); ("c3", "2024-05-03")].

Definition content (commit_hash : string) : string :=
  if String.eqb commit_hash "c3" then "" else document.

Definition parse_date (d : string) : option string :=
  if String.eqb d "someday" then None else Some (d ++ "T00:00:00+00:00").

Definition read_file (path : string) : option string :=
  if String.eqb path "README.md" then Some document
  else if String.eqb path "docs/guide.md" then Some "Guide."
  else None.

(** Metrics in the middle of their ranges: the formula gives 50, the
    loop computes the double just below it, 49.99999999999999. *)
Definition textstat : FloatScorer.Textstat :=
  FloatScorer.constant_textstat
    (Float.literal 50) (Float.literal 12.5) (Float.literal 12.5)
    (Float.literal 14) (Float.literal 7.95).

Definition score (text : string) : Float.float :=
  match FloatScorer.composite_score
          (FloatScorer.scores_dict
             (Float.literal 50) (Float.literal 12.5) (Float.literal 12.5)
             (Float.literal 14) (Float.literal 7.95)) with
  | Some v => v
  | None => Float.NaN
  end.

(** [.2f] of the one score of this world. *)
Definition format2f (x : Float.float) : string := "50.00".

End Sample.

(** * Results *)

(** ** The matcher *)

Module ReFacts.
Import Chars Re.

Section Blocked.

(** A property of the remaining text that reading characters preserves. *)
Variable Q : string -> Prop.
Hypothesis Q_tail : forall c s, Q (String c s) -> Q s.

(** When the continuation fails on every state that satisfies [Q], so does
    the whole run: the matcher only ever hands suffixes to it. *)
Lemma exec_blocked :
  forall (A : Type) (r : regex) (k : mstate -> option A),
    (forall st, Q (rest st) -> k st = None) ->
    forall st, Q (rest st) -> exec r st k = None.
Proof.
  intros A r; induction r; intros k Hk st Hst; simpl.
  - destruct (rest st) as [|d s'] eqn:E; [reflexivity|].
    destruct (Ascii.eqb c d); [|reflexivity].
    apply Hk; simpl; eauto.
  - destruct (rest st) as [|d s'] eqn:E; [reflexivity|].
    destruct (p d); [|reflexivity].
    apply Hk; simpl; eauto.
  - destruct (prev st) as [c|]; [destruct (is_nl c)|]; auto.
  - destruct (prev st); auto.
  - destruct (rest st) as [|c [|d s']] eqn:E; auto.
    + rewrite Hk; [reflexivity | now rewrite E].
    + destruct (is_nl c); auto. apply Hk; now rewrite E.
  - destruct (prev st) as [c|]; [destruct (p c)|]; auto.
  - apply IHr1; [|assumption]. intros st1 H1. now apply IHr2.
  - rewrite IHr1 by assumption. now apply IHr2.
  - rewrite IHr by assumption. now apply Hk.
  - generalize (String.length (rest st)) as n.
    intros n; revert st Hst; induction n as [|n IHn]; intros st Hst.
    + now apply Hk.
    + rewrite IHr; [now apply Hk | | assumption].
      intros st1 H1. destruct (progress st st1); auto.
  - generalize (String.length (rest st)) as n.
    intros n; revert st Hst; induction n as [|n IHn]; intros st Hst.
    + now apply Hk.
    + rewrite Hk by assumption. apply IHr; [|assumption].
      intros st1 H1. destruct (progress st st1); auto.
  - apply IHr; [|assumption]. intros st1 H1. now apply Hk.
Qed.

(** Where the pattern matches at no position of a text satisfying [Q],
    [re.sub] returns the text. *)
Lemma sub_go_no_match :
  forall (r : regex) (repl : list piece),
    (forall p s, Q s -> match_at r p s = None) ->
    forall s p, Q s -> sub_go r repl 0 p s = s.
Proof.
  intros r repl Hno s; induction s as [|c s IH]; intros p Hs; simpl.
  - now rewrite Hno.
  - rewrite Hno by assumption. f_equal. apply IH. eauto.
Qed.

End Blocked.

End ReFacts.

(** ** The normalizer *)

Module NormalizerFacts.
Import Chars Re Soup Normalizer.

Lemma alpha_not_nl : forall c, is_ascii_alpha c = true -> is_nl c = false.
Proof.
  intros c H. unfold is_nl. destruct (Ascii.eqb c nl) eqn:E; [|reflexivity].
  apply Ascii.eqb_eq in E. subst c. discriminate H.
Qed.

Lemma sub_succ_same : forall n, S n - n = 1.
Proof. intros; lia. Qed.

Lemma sub_succ_succ_same : forall n, S (S n) - n = 2.
Proof. intros; lia. Qed.

(** [line_wrap_re] matches exactly at an ASCII letter followed by a
    newline; it reads both and captures the letter. *)
Lemma match_line_wrap :
  forall p s,
    match_at line_wrap_re p s =
    match s with
    | String c (String d s'') =>
        if is_ascii_alpha c && is_nl d
        then Some (MState (Some d) s'' [(1, String c "")])
        else None
    | _ => None
    end.
Proof.
  intros p s. unfold match_at, line_wrap_re.
  destruct s as [|c [|d s'']]; cbn [exec rest start_at step].
  - reflexivity.
  - destruct (is_ascii_alpha c); reflexivity.
  - destruct (is_ascii_alpha c); cbn [andb]; [|reflexivity].
    cbn [set_group rest step start_at].
    unfold is_nl. rewrite (Ascii.eqb_sym nl d).
    destruct (Ascii.eqb d nl); [|reflexivity].
    unfold consumed, set_group, step, start_at.
    cbn [rest prev groups String.length].
    rewrite sub_succ_same. reflexivity.
Qed.

Lemma sub_line_wrap_go :
  forall n s p,
    String.length s <= n -> scan_ok p s ->
    sub_go line_wrap_re [Ref 1; Text " "] 0 p s = join_wrapped_lines p s.
Proof.
  induction n as [|n IH]; intros s p Hlen Hok.
  - destruct s; [|simpl in Hlen; lia].
    cbn [sub_go]. now rewrite match_line_wrap.
  - destruct s as [|c s']; [cbn [sub_go]; now rewrite match_line_wrap|].
    assert (Hc : match p with
                 | Some a => if is_ascii_alpha a && is_nl c then " "%char else c
                 | None => c
                 end = c).
    { destruct p as [a|]; [|reflexivity]. simpl in Hok. now rewrite Hok. }
    cbn [sub_go]. rewrite match_line_wrap.
    destruct s' as [|d s''].
    + cbn [join_wrapped_lines]. rewrite Hc.
      cbn [sub_go]. now rewrite match_line_wrap.
    + destruct (is_ascii_alpha c && is_nl d) eqn:E.
      * cbn [rest groups expand group Nat.eqb String.length].
        rewrite sub_succ_succ_same. cbn [sub_go join_wrapped_lines].
        rewrite Hc, E. cbn [append]. do 2 f_equal.
        apply IH; [simpl in Hlen; lia|].
        apply andb_true_iff in E. destruct E as [_ E].
        unfold is_nl in E. apply Ascii.eqb_eq in E. subst d.
        destruct s''; simpl; trivial.
      * cbn [join_wrapped_lines]. rewrite Hc. f_equal.
        rewrite IH; [reflexivity | simpl in Hlen |- *; lia | exact E].
Qed.

Lemma sub_line_wrap :
  forall text,
    sub line_wrap_re [Ref 1; Text " "] text = join_wrapped_lines None text.
Proof.
  intros text. unfold sub.
  apply (sub_line_wrap_go (String.length text)); [lia|exact I].
Qed.

Lemma has_wrapped_line_cons :
  forall c d s,
    has_wrapped_line (String c (String d s)) =
    (is_ascii_alpha c && is_nl d) || has_wrapped_line (String d s).
Proof. reflexivity. Qed.

(** After the last substitution no newline follows an ASCII letter. *)
Lemma join_wrapped_lines_clean :
  forall s p, has_wrapped_line (join_wrapped_lines p s) = false.
Proof.
  induction s as [|c s IH]; intros p; [reflexivity|].
  cbn [join_wrapped_lines].
  specialize (IH (Some c)).
  destruct s as [|d s']; [reflexivity|].
  cbn [join_wrapped_lines] in *.
  rewrite has_wrapped_line_cons, IH, orb_false_r.
  destruct (is_ascii_alpha c) eqn:Ec; cbn [andb].
  - destruct (is_nl d) eqn:Ed.
    + apply andb_false_r.
    + rewrite Ed. apply andb_false_r.
  - destruct p as [a|].
    + destruct (is_ascii_alpha a && is_nl c); [reflexivity|].
      now rewrite Ec.
    + now rewrite Ec.
Qed.

Lemma tidy_clean : forall text, has_wrapped_line (tidy text) = false.
Proof.
  intros text. unfold tidy. rewrite sub_line_wrap.
  apply join_wrapped_lines_clean.
Qed.

(** *** Blank input *)

Lemma blank_tail : forall c s, blank (String c s) -> blank s.
Proof.
  unfold blank; simpl; intros c s H.
  apply andb_true_iff in H. tauto.
Qed.

Lemma blank_strip : forall s, blank s -> Str.strip s = "".
Proof.
  unfold Str.strip, blank. induction s as [|c s IH]; simpl; intros H.
  - reflexivity.
  - apply andb_true_iff in H. destruct H as [Hc Hs].
    rewrite Hc. now apply IH.
Qed.

(** No fence opens in a text without a backquote. *)
Lemma fenced_code_no_match_blank :
  forall p s, blank s -> match_at fenced_code_re p s = None.
Proof.
  intros p s Hs. unfold match_at, fenced_code_re.
  change (exec (Cat ?a (Cat ?b ?c)) ?st ?k)
    with (exec a st (fun st1 => exec b st1 (fun st2 => exec c st2 k))).
  apply (ReFacts.exec_blocked blank blank_tail); [|exact Hs].
  intros st1 H1.
  apply (ReFacts.exec_blocked blank blank_tail); [|exact H1].
  intros st2 H2. cbn [exec lits].
  destruct (rest st2) as [|d s'] eqn:E; [reflexivity|].
  unfold blank in H2. cbn [Str.all_chars] in H2. apply andb_true_iff in H2.
  destruct H2 as [Hd _].
  destruct (Ascii.eqb "`" d) eqn:Ed; [|reflexivity].
  apply Ascii.eqb_eq in Ed. subst d. discriminate Hd.
Qed.

Lemma strip_fenced_code_blank :
  forall s, blank s -> strip_fenced_code s = s.
Proof.
  intros s Hs. unfold strip_fenced_code, sub.
  apply (ReFacts.sub_go_no_match blank blank_tail); [|exact Hs].
  intros p t Ht. now apply fenced_code_no_match_blank.
Qed.

(** Blank input normalizes to the empty text. *)
Lemma markdown_to_text_blank :
  forall s, blank s -> Program.markdown_to_text s = "".
Proof.
  intros s Hs. unfold Program.markdown_to_text, markdown_to_text.
  rewrite strip_fenced_code_blank by assumption.
  unfold Md.markdown. rewrite blank_strip by assumption.
  reflexivity.
Qed.

(** *** Elements removed before the links are read *)

Lemma decompose_all_app :
  forall names (f g : soup),
    decompose_all names (f ++ g)%list
    = (decompose_all names f ++ decompose_all names g)%list.
Proof. intros. unfold decompose_all. apply flat_map_app. Qed.

Lemma decompose_all_cons :
  forall names n (f : soup),
    decompose_all names (n :: f)
    = (decompose_node names n ++ decompose_all names f)%list.
Proof. reflexivity. Qed.

Lemma decompose_node_tag :
  forall names nm at_ ch,
    decompose_node names (Tag nm at_ ch)
    = if name_in nm names then [] else [Tag nm at_ (decompose_all names ch)].
Proof. reflexivity. Qed.

(** An element with an unwanted name leaves no trace, wherever it stands
    and whatever it holds. *)
Lemma decompose_all_plug :
  forall names c t attrs kids,
    name_in t names = true ->
    decompose_all names (plug c [Tag t attrs kids]) = decompose_all names (plug c []).
Proof.
  intros names c t attrs kids Ht.
  induction c as [b a|b nm at_ c' IH a]; cbn [plug].
  - rewrite !decompose_all_app, decompose_all_cons, decompose_node_tag, Ht.
    reflexivity.
  - rewrite !decompose_all_app, !decompose_all_cons, !decompose_node_tag, IH.
    reflexivity.
Qed.

(** *** The normalizer on sample documents *)

(** A fenced block with a body is removed at the start, in the middle and
    at the end of a document, with and without a language tag; the
    paragraphs around it are then glued, like all text fragments. *)
Lemma fenced_code_samples :
  Program.markdown_to_text
    ("```python" ++ NL ++ "x = 1" ++ NL ++ "```" ++ NL ++ "After.") = "After."
  /\ Program.markdown_to_text
       ("Before." ++ NL ++ NL ++ "```" ++ NL ++ "x = 1" ++ NL ++ "```"
        ++ NL ++ NL ++ "After.") = "Before.After."
  /\ Program.markdown_to_text
       ("Before." ++ NL ++ NL ++ "```js" ++ NL ++ "x = 1" ++ NL ++ NL ++ "y"
        ++ NL ++ "```") = "Before."
  /\ strip_fenced_code
       ("Before." ++ NL ++ "```" ++ NL ++ "x = 1" ++ NL ++ "```" ++ NL ++ "After.")
     = "Before." ++ NL ++ NL ++ "After.".
Proof. repeat split; vm_compute; reflexivity. Qed.

(** The three substitutions in their order: the template tag goes with
    its newline, the run of newlines shrinks to one, and only the newlines
    after a letter become spaces. *)
Lemma tidy_sample :
  tidy ("a{% x" ++ NL ++ " %}b" ++ NL ++ NL ++ NL ++ "c1" ++ NL ++ "d" ++ NL)
  = "ab c1" ++ NL ++ "d ".
Proof. vm_compute. reflexivity. Qed.

(** The variant of [readability.py] joins the text nodes unstripped: on
    the same document the words around a bold span keep their spaces (and
    the heading stays). *)
Lemma standalone_keeps_word_spacing :
  Standalone.markdown_to_text Md.markdown Html.BeautifulSoup
    ("# Heading" ++ NL ++ NL ++ "Some **bold** text.")
  = "Heading Some bold text."
  /\ Standalone.markdown_to_text Md.markdown Html.BeautifulSoup
       ("intro" ++ NL ++ NL ++ "outro") = "intro outro"
  /\ Program.markdown_to_text ("intro" ++ NL ++ NL ++ "outro") = "introoutro".
Proof. repeat split; vm_compute; reflexivity. Qed.

End NormalizerFacts.

(** ** The scorer *)

Module ScorerFacts.
Import Normalizer Scorer.
Local Open Scope Q_scope.

Lemma div_by_constant : forall x y, x / y == x * Qred (/ y).
Proof. intros. unfold Qdiv. now rewrite Qred_correct. Qed.

(** Division by a literal becomes multiplication by its reduced inverse,
    which linear arithmetic reads. *)
Ltac fold_divisions :=
  rewrite !div_by_constant;
  repeat match goal with
         | |- context [Qred ?c] =>
             let v := eval vm_compute in (Qred c) in change (Qred c) with v
         end.

(** The loop on the five scores, unrolled: every key is found, no divisor
    is zero. *)
Lemma composite_score_unrolled :
  forall fre gf cli ari dc,
    composite_score (scores_dict fre gf cli ari dc) =
    Some ((0 + 0.1653977378 * ((fre - 0) / (100 - 0))
             + 0.2228367277 * ((gf - 19) / (6 - 19))
             + 0.1831723411 * ((cli - 19) / (6 - 19))
             + 0.2325290236 * ((ari - 22) / (6 - 22))
             + 0.1960641698 * ((dc - 11) / (4.9 - 11))) * 100).
Proof. reflexivity. Qed.

Lemma composite_score_formula :
  forall fre gf cli ari dc,
    exists v, composite_score (scores_dict fre gf cli ari dc) = Some v
              /\ v == composite_formula fre gf cli ari dc.
Proof.
  intros. rewrite composite_score_unrolled. eexists; split; [reflexivity|].
  unfold composite_formula. ring.
Qed.

(** The loop raises on no dictionary of scores: a missing key reads as 0
    and no divisor of the table is zero. *)
Lemma composite_score_total :
  forall scores, exists v, composite_score scores = Some v.
Proof. intros scores. eexists. reflexivity. Qed.

(** Once the five metrics have returned, so does the scorer. *)
Lemma calculate_readability_returns :
  forall markdown BeautifulSoup textstat content fre gf cli ari dc,
    let text := markdown_to_text markdown BeautifulSoup content in
    flesch_reading_ease textstat text = Some fre ->
    gunning_fog textstat text = Some gf ->
    coleman_liau_index textstat text = Some cli ->
    automated_readability_index textstat text = Some ari ->
    dale_chall_readability_score textstat text = Some dc ->
    exists v,
      calculate_readability markdown BeautifulSoup textstat content = Some v
      /\ v == composite_formula fre gf cli ari dc.
Proof.
  intros md bs ts content fre gf cli ari dc text H1 H2 H3 H4 H5.
  unfold calculate_readability. fold text.
  rewrite H1, H2, H3, H4, H5. apply composite_score_formula.
Qed.

(** The formula is strictly increasing in the first raw value and strictly
    decreasing in each of the other four. *)
Lemma composite_formula_fre :
  forall x y gf cli ari dc,
    x < y -> composite_formula x gf cli ari dc < composite_formula y gf cli ari dc.
Proof. intros. unfold composite_formula. fold_divisions. lra. Qed.

Lemma composite_formula_gf :
  forall x y fre cli ari dc,
    x < y -> composite_formula fre y cli ari dc < composite_formula fre x cli ari dc.
Proof. intros. unfold composite_formula. fold_divisions. lra. Qed.

Lemma composite_formula_cli :
  forall x y fre gf ari dc,
    x < y -> composite_formula fre gf y ari dc < composite_formula fre gf x ari dc.
Proof. intros. unfold composite_formula. fold_divisions. lra. Qed.

Lemma composite_formula_ari :
  forall x y fre gf cli dc,
    x < y -> composite_formula fre gf cli y dc < composite_formula fre gf cli x dc.
Proof. intros. unfold composite_formula. fold_divisions. lra. Qed.

Lemma composite_formula_dc :
  forall x y fre gf cli ari,
    x < y -> composite_formula fre gf cli ari y < composite_formula fre gf cli ari x.
Proof. intros. unfold composite_formula. fold_divisions. lra. Qed.

(** Raw values inside their calibration ranges give a score between 0 and
    100: the weights are those of a convex combination. *)
Lemma composite_formula_range :
  forall fre gf cli ari dc,
    0 <= fre <= 100 -> 6 <= gf <= 19 -> 6 <= cli <= 19 ->
    6 <= ari <= 22 -> 4.9 <= dc <= 11 ->
    0 <= composite_formula fre gf cli ari dc <= 100.
Proof. intros. unfold composite_formula. fold_divisions. lra. Qed.

(** Outside the ranges nothing is clamped: the value [textstat] gives the
    first metric on an empty text, alone, pushes the score above 100. *)
Lemma composite_formula_unclamped :
  100 < composite_formula 206.835 6 6 6 4.9.
Proof. reflexivity. Qed.

End ScorerFacts.

(** ** Rounding *)

Module RoundFacts.
Import Float.
Local Open Scope Q_scope.

Lemma floor_unique :
  forall x z, inject_Z z <= x -> x < inject_Z (z + 1) -> Qfloor x = z.
Proof.
  intros x z H1 H2.
  pose proof (Qfloor_le x) as F1. pose proof (Qlt_floor x) as F2.
  assert (A : (Qfloor x < z + 1)%Z).
  { rewrite Zlt_Qlt. eapply Qle_lt_trans; eassumption. }
  assert (B : (z < Qfloor x + 1)%Z).
  { rewrite Zlt_Qlt. eapply Qle_lt_trans; eassumption. }
  lia.
Qed.

Lemma rhe_cases :
  forall x,
    let f := Qfloor x in
    (round_half_even x = f /\ x - inject_Z f <= 1 # 2
     /\ (x - inject_Z f == 1 # 2 -> Z.even f = true))
    \/ (round_half_even x = (f + 1)%Z /\ 1 # 2 <= x - inject_Z f
        /\ (x - inject_Z f == 1 # 2 -> Z.even f = false)).
Proof.
  intros x f. unfold round_half_even. fold f.
  destruct (Qcompare_spec (x - inject_Z f) (1 # 2)) as [E|L|G].
  - destruct (Z.even f) eqn:Ev; [left|right]; repeat split; auto; rewrite E; apply Qle_refl.
  - left. repeat split; [now apply Qlt_le_weak|].
    intros E. rewrite E in L. now apply Qlt_irrefl in L.
  - right. repeat split; [now apply Qlt_le_weak|].
    intros E. rewrite E in G. now apply Qlt_irrefl in G.
Qed.

Lemma rhe_mono :
  forall x y, x <= y -> (round_half_even x <= round_half_even y)%Z.
Proof.
  intros x y H.
  pose proof (Qfloor_resp_le x y H) as Hf.
  destruct (rhe_cases x) as [[Ex [Hx Tx]]|[Ex [Hx Tx]]];
    destruct (rhe_cases y) as [[Ey [Hy Ty]]|[Ey [Hy Ty]]];
    rewrite Ex, Ey; try lia.
  destruct (Z.eq_dec (Qfloor x) (Qfloor y)) as [E|N]; [|lia].
  exfalso. rewrite E in *.
  assert (Hx' : x - inject_Z (Qfloor y) == 1 # 2) by lra.
  assert (Hy' : y - inject_Z (Qfloor y) == 1 # 2) by lra.
  specialize (Tx Hx'). specialize (Ty Hy'). congruence.
Qed.

Lemma rhe_comp : forall x y, x == y -> round_half_even x = round_half_even y.
Proof.
  intros x y E. apply Z.le_antisymm; apply rhe_mono; rewrite E; apply Qle_refl.
Qed.

Lemma rhe_Z : forall z, round_half_even (inject_Z z) = z.
Proof.
  intros z. unfold round_half_even. rewrite Qfloor_Z.
  destruct (Qcompare_spec (inject_Z z - inject_Z z) (1 # 2)) as [E|L|G]; [| reflexivity |].
  - exfalso. assert (H : inject_Z z - inject_Z z == 0) by ring. rewrite H in E. discriminate.
  - exfalso. assert (H : inject_Z z - inject_Z z == 0) by ring. rewrite H in G. discriminate.
Qed.

Lemma rhe_opp : forall x, round_half_even (- x) = (- round_half_even x)%Z.
Proof.
  intros x.
  pose proof (Qfloor_le x) as F1. pose proof (Qlt_floor x) as F2.
  set (f := Qfloor x) in *.
  destruct (Qeq_dec x (inject_Z f)) as [E|N].
  - rewrite (rhe_comp x _ E), rhe_Z.
    assert (E' : - x == inject_Z (- f)) by (rewrite inject_Z_opp, E; reflexivity).
    now rewrite (rhe_comp _ _ E'), rhe_Z.
  - assert (L : inject_Z f < x).
    { apply Qle_lteq in F1. destruct F1 as [L|E]; [exact L|]. symmetry in E. contradiction. }
    assert (Fn : Qfloor (- x) = (- f - 1)%Z).
    { apply floor_unique.
      - unfold Z.sub. rewrite inject_Z_plus, inject_Z_opp. rewrite inject_Z_plus in F2.
        replace (inject_Z (- (1))) with (- (1)) by reflexivity.
        replace (inject_Z 1) with 1 in F2 by reflexivity. lra.
      - replace (- f - 1 + 1)%Z with (- f)%Z by lia. rewrite inject_Z_opp. lra. }
    destruct (rhe_cases x) as [[Ex [Hx Tx]]|[Ex [Hx Tx]]];
      destruct (rhe_cases (- x)) as [[Ey [Hy Ty]]|[Ey [Hy Ty]]];
      fold f in Ex, Hx, Tx; rewrite Fn in Ey, Hy, Ty; rewrite Ex, Ey; try lia.
    + exfalso.
      unfold Z.sub in Hy, Ty. rewrite inject_Z_plus, inject_Z_opp in Hy, Ty.
      replace (inject_Z (- (1))) with (- (1)) in Hy, Ty by reflexivity.
      assert (Hx' : x - inject_Z f == 1 # 2) by lra.
      assert (Hy' : - x - (- inject_Z f + - (1)) == 1 # 2) by lra.
      specialize (Tx Hx'). specialize (Ty Hy').
      rewrite Z.even_add, Z.even_opp, Tx in Ty. discriminate.
    + exfalso.
      unfold Z.sub in Hy, Ty. rewrite inject_Z_plus, inject_Z_opp in Hy, Ty.
      replace (inject_Z (- (1))) with (- (1)) in Hy, Ty by reflexivity.
      assert (Hx' : x - inject_Z f == 1 # 2) by lra.
      assert (Hy' : - x - (- inject_Z f + - (1)) == 1 # 2) by lra.
      specialize (Tx Hx'). specialize (Ty Hy').
      rewrite Z.even_add, Z.even_opp, Tx in Ty. discriminate.
Qed.

Lemma two_neq_0 : ~ 2 == 0.
Proof. discriminate. Qed.

Lemma pow2_pos : forall e, 0 < pow2 e.
Proof. intros. apply Qpower_0_lt. reflexivity. Qed.

Lemma pow2_add : forall a b, pow2 (a + b) == pow2 a * pow2 b.
Proof. intros. apply Qpower_plus, two_neq_0. Qed.

Lemma pow2_sub : forall a b, pow2 (a - b) == pow2 a / pow2 b.
Proof.
  intros. unfold Z.sub. rewrite pow2_add. unfold pow2 at 2.
  rewrite Qpower_opp. reflexivity.
Qed.

Lemma pow2_le : forall a b, (a <= b)%Z -> pow2 a <= pow2 b.
Proof. intros. apply Qpower_le_compat_l; [assumption|discriminate]. Qed.

Lemma pow2_lt : forall a b, (a < b)%Z -> pow2 a < pow2 b.
Proof. intros. apply Qpower_lt_compat_l; [assumption|reflexivity]. Qed.

Lemma pow2_lt_inv : forall a b, pow2 a < pow2 b -> (a < b)%Z.
Proof. intros. eapply Qpower_lt_compat_l_inv; [eassumption|reflexivity]. Qed.

Lemma pow2_Z : forall k, (0 <= k)%Z -> pow2 k == inject_Z (2 ^ k).
Proof. intros. unfold pow2. now rewrite Zpower_Qpower. Qed.

(** [ilog2] is the floor of the logarithm. *)
Lemma ilog2_spec :
  forall x, 0 < x -> pow2 (ilog2 x) <= x /\ x < pow2 (ilog2 x + 1).
Proof.
  intros [n d] Hx.
  assert (Hn : (0 < n)%Z).
  { unfold Qlt in Hx. cbn in Hx. lia. }
  unfold ilog2. cbn [Qnum Qden].
  set (a := Z.log2 n). set (b := Z.log2 (Zpos d)).
  pose proof (Z.log2_spec n Hn) as [A1 A2]. fold a in A1, A2.
  pose proof (Z.log2_spec (Zpos d) eq_refl) as [B1 B2]. fold b in B1, B2.
  pose proof (Z.log2_nonneg n) as A0. fold a in A0.
  pose proof (Z.log2_nonneg (Zpos d)) as B0. fold b in B0.
  rewrite Zle_Qle in A1, B1. rewrite Zlt_Qlt in A2, B2.
  rewrite <- pow2_Z in A1, A2, B1, B2 by lia.
  assert (Ex : n # d == inject_Z n / inject_Z (Zpos d)) by apply Qmake_Qdiv.
  assert (Dpos : 0 < inject_Z (Zpos d)) by reflexivity.
  set (N := inject_Z n) in *. set (D := inject_Z (Zpos d)) in *.
  pose proof (pow2_pos b) as Pb.
  destruct (Qle_bool (pow2 (a - b)) (n # d)) eqn:E.
  - apply Qle_bool_iff in E. split; [exact E|].
    rewrite Ex. apply Qlt_shift_div_r; [exact Dpos|].
    replace (a - b + 1)%Z with (Z.succ a - b)%Z by lia.
    rewrite pow2_sub.
    apply Qlt_le_trans with (pow2 (Z.succ a)); [exact A2|].
    setoid_replace (pow2 (Z.succ a) / pow2 b * D)
      with (pow2 (Z.succ a) * (D / pow2 b)) by (field; apply Qnot_eq_sym, Qlt_not_eq, Pb).
    rewrite <- (Qmult_1_r (pow2 (Z.succ a))) at 1.
    apply Qmult_le_l; [apply pow2_pos|].
    apply Qle_shift_div_l; [exact Pb|]. now rewrite Qmult_1_l.
  - assert (E' : n # d < pow2 (a - b)).
    { apply Qnot_le_lt. intros H. apply Qle_bool_iff in H. congruence. }
    replace (a - b - 1 + 1)%Z with (a - b)%Z by lia. split; [|exact E'].
    rewrite Ex. apply Qle_shift_div_l; [exact Dpos|].
    replace (a - b - 1)%Z with (a - Z.succ b)%Z by lia.
    rewrite pow2_sub.
    apply Qle_trans with (pow2 a); [|exact A1].
    pose proof (pow2_pos (Z.succ b)) as Psb.
    setoid_replace (pow2 a / pow2 (Z.succ b) * D)
      with (pow2 a * (D / pow2 (Z.succ b))) by (field; apply Qnot_eq_sym, Qlt_not_eq, Psb).
    rewrite <- (Qmult_1_r (pow2 a)) at 2.
    apply Qmult_le_l; [apply pow2_pos|].
    apply Qle_shift_div_r; [exact Psb|]. rewrite Qmult_1_l. now apply Qlt_le_weak.
Qed.

Lemma ilog2_unique :
  forall x e, pow2 e <= x -> x < pow2 (e + 1) -> ilog2 x = e.
Proof.
  intros x e H1 H2.
  assert (Hx : 0 < x) by (eapply Qlt_le_trans; [apply pow2_pos|exact H1]).
  destruct (ilog2_spec x Hx) as [S1 S2].
  assert (A : (ilog2 x < e + 1)%Z).
  { apply pow2_lt_inv. eapply Qle_lt_trans; eassumption. }
  assert (B : (e < ilog2 x + 1)%Z).
  { apply pow2_lt_inv. eapply Qle_lt_trans; eassumption. }
  lia.
Qed.

Lemma ilog2_mono : forall x y, 0 < x -> x <= y -> (ilog2 x <= ilog2 y)%Z.
Proof.
  intros x y Hx H.
  destruct (ilog2_spec x Hx) as [S1 _].
  destruct (ilog2_spec y (Qlt_le_trans _ _ _ Hx H)) as [_ T2].
  assert (A : (ilog2 x < ilog2 y + 1)%Z).
  { apply pow2_lt_inv. eapply Qle_lt_trans; [exact S1|].
    eapply Qle_lt_trans; eassumption. }
  lia.
Qed.

Lemma ilog2_comp : forall x y, 0 < x -> x == y -> ilog2 x = ilog2 y.
Proof.
  intros x y Hx E. destruct (ilog2_spec x Hx) as [S1 S2].
  symmetry. apply ilog2_unique; rewrite <- E; assumption.
Qed.

Lemma round_eq :
  forall x,
    round x == inject_Z (round_half_even (x / pow2 (ulp_exponent x)))
               * pow2 (ulp_exponent x).
Proof. intros. unfold round. apply Qred_correct. Qed.

Lemma div_pow2_le :
  forall x y c, x <= y -> x / pow2 c <= y / pow2 c.
Proof.
  intros x y c H. apply Qle_shift_div_l; [apply pow2_pos|].
  setoid_replace (x / pow2 c * pow2 c) with x; [exact H|].
  field. apply Qnot_eq_sym, Qlt_not_eq, pow2_pos.
Qed.

Lemma round_le_multiple :
  forall x m,
    x <= inject_Z m * pow2 (ulp_exponent x) ->
    round x <= inject_Z m * pow2 (ulp_exponent x).
Proof.
  intros x m H. rewrite round_eq. set (c := ulp_exponent x) in *.
  apply Qmult_le_compat_r; [|apply Qlt_le_weak, pow2_pos].
  rewrite <- Zle_Qle. rewrite <- (rhe_Z m) at 1. apply rhe_mono.
  apply Qle_shift_div_r; [apply pow2_pos|exact H].
Qed.

Lemma round_ge_multiple :
  forall x m,
    inject_Z m * pow2 (ulp_exponent x) <= x ->
    inject_Z m * pow2 (ulp_exponent x) <= round x.
Proof.
  intros x m H. rewrite round_eq. set (c := ulp_exponent x) in *.
  apply Qmult_le_compat_r; [|apply Qlt_le_weak, pow2_pos].
  rewrite <- Zle_Qle. rewrite <- (rhe_Z m) at 1. apply rhe_mono.
  apply Qle_shift_div_l; [apply pow2_pos|exact H].
Qed.

(** A power of two at or above the unit in the last place is a multiple of
    it. *)
Lemma pow2_multiple :
  forall k c, (c <= k)%Z -> pow2 k == inject_Z (2 ^ (k - c)) * pow2 c.
Proof.
  intros k c H. rewrite <- pow2_Z by lia. rewrite <- pow2_add.
  now replace (k - c + c)%Z with k by lia.
Qed.

Lemma ulp_exponent_pos :
  forall x, 0 < x -> ulp_exponent x = Z.max (ilog2 x - 52) (-1074).
Proof.
  intros x Hx. unfold ulp_exponent. f_equal. f_equal.
  apply ilog2_comp.
  - rewrite Qabs_pos; [exact Hx|now apply Qlt_le_weak].
  - apply Qabs_pos. now apply Qlt_le_weak.
Qed.

Lemma round_mono_pos : forall x y, 0 < x -> x <= y -> round x <= round y.
Proof.
  intros x y Hx H.
  assert (Hy : 0 < y) by (eapply Qlt_le_trans; eassumption).
  pose proof (ilog2_mono x y Hx H) as He.
  destruct (ilog2_spec x Hx) as [_ X2]. destruct (ilog2_spec y Hy) as [Y1 _].
  pose proof (ulp_exponent_pos x Hx) as Cx. pose proof (ulp_exponent_pos y Hy) as Cy.
  destruct (Z.eq_dec (ulp_exponent x) (ulp_exponent y)) as [E|N].
  - rewrite !round_eq, E.
    apply Qmult_le_compat_r; [|apply Qlt_le_weak, pow2_pos].
    rewrite <- Zle_Qle. apply rhe_mono. now apply div_pow2_le.
  - set (k := Z.max (ilog2 x + 1) (ulp_exponent x)).
    apply Qle_trans with (pow2 k).
    + rewrite (pow2_multiple k (ulp_exponent x)) by lia.
      apply round_le_multiple.
      rewrite <- pow2_multiple by lia.
      apply Qlt_le_weak. eapply Qlt_le_trans; [exact X2|]. apply pow2_le. lia.
    + apply Qle_trans with (pow2 (ilog2 y)); [apply pow2_le; lia|].
      rewrite (pow2_multiple (ilog2 y) (ulp_exponent y)) by lia.
      apply round_ge_multiple.
      rewrite <- pow2_multiple by lia. exact Y1.
Qed.

Lemma ulp_exponent_opp : forall x, ulp_exponent (- x) = ulp_exponent x.
Proof.
  intros [n d]. unfold ulp_exponent, Qabs, Qopp. cbn [Qnum Qden].
  now rewrite Z.abs_opp.
Qed.

Lemma round_opp : forall x, round (- x) == - round x.
Proof.
  intros x. rewrite !round_eq, ulp_exponent_opp.
  set (c := ulp_exponent x).
  assert (E : - x / pow2 c == - (x / pow2 c)).
  { field. apply Qnot_eq_sym, Qlt_not_eq, pow2_pos. }
  rewrite (rhe_comp _ _ E), rhe_opp, inject_Z_opp. ring.
Qed.

Lemma round_nonneg : forall x, 0 <= x -> 0 <= round x.
Proof.
  intros x H.
  assert (Z0 : inject_Z 0 * pow2 (ulp_exponent x) == 0) by ring.
  apply Qle_trans with (inject_Z 0 * pow2 (ulp_exponent x)).
  - rewrite Z0. apply Qle_refl.
  - apply round_ge_multiple. rewrite Z0. exact H.
Qed.

Lemma round_nonpos : forall x, x <= 0 -> round x <= 0.
Proof.
  intros x H.
  assert (Z0 : inject_Z 0 * pow2 (ulp_exponent x) == 0) by ring.
  apply Qle_trans with (inject_Z 0 * pow2 (ulp_exponent x)).
  - apply round_le_multiple. rewrite Z0. exact H.
  - rewrite Z0. apply Qle_refl.
Qed.

(** Rounding keeps the order. *)
Theorem round_mono : forall x y, x <= y -> round x <= round y.
Proof.
  intros x y H.
  destruct (Qlt_le_dec 0 x) as [Hx|Hx]; [now apply round_mono_pos|].
  destruct (Qlt_le_dec y 0) as [Hy|Hy].
  - assert (A : round (- y) <= round (- x)).
    { apply round_mono_pos; lra. }
    rewrite !round_opp in A. lra.
  - apply Qle_trans with 0; [now apply round_nonpos|now apply round_nonneg].
Qed.

Lemma round_comp : forall x y, x == y -> round x == round y.
Proof.
  intros x y E. apply Qle_antisym; apply round_mono; rewrite E; apply Qle_refl.
Qed.

Lemma round_pow2 : forall k, (-1074 <= k)%Z -> round (pow2 k) == pow2 k.
Proof.
  intros k Hk.
  assert (C : (ulp_exponent (pow2 k) <= k)%Z).
  { rewrite ulp_exponent_pos by apply pow2_pos.
    rewrite (ilog2_unique (pow2 k) k); [lia|apply Qle_refl|apply pow2_lt; lia]. }
  apply Qle_antisym.
  - rewrite (pow2_multiple k _ C) at 2. apply round_le_multiple.
    rewrite <- pow2_multiple by exact C. apply Qle_refl.
  - rewrite (pow2_multiple k _ C) at 1. apply round_ge_multiple.
    rewrite <- pow2_multiple by exact C. apply Qle_refl.
Qed.

(** Rounding does not leave an interval whose ends are powers of two. *)
Lemma round_bound :
  forall x k, (-1074 <= k)%Z -> Qabs x <= pow2 k -> Qabs (round x) <= pow2 k.
Proof.
  intros x k Hk H. apply Qabs_Qle_condition in H. destruct H as [H1 H2].
  apply Qabs_Qle_condition. split.
  - rewrite <- (round_pow2 k Hk), <- round_opp. now apply round_mono.
  - rewrite <- (round_pow2 k Hk). now apply round_mono.
Qed.

End RoundFacts.

(** ** The binary64 scorer *)

Module FloatFacts.
Import Float FloatScorer FloatProps RoundFacts.
Local Open Scope Q_scope.

(** *** Below the overflow threshold *)

Lemma max_float_fixed : round max_float == max_float.
Proof. vm_compute. reflexivity. Qed.

Lemma max_float_absorbs : round (max_float + 32) == max_float.
Proof. vm_compute. reflexivity. Qed.

Lemma max_float_lt : max_float < pow2 1024.
Proof. vm_compute. reflexivity. Qed.

Lemma bounded_val : forall B a, 0 <= B -> bounded B a -> Qabs (val a) <= B.
Proof.
  intros B [s|q|s|] HB H; cbn [bounded val] in *; try contradiction; auto.
Qed.

(** A result whose magnitude before rounding is [B'] at most, where [B']
    rounds to a [B] below [2^1024], is finite: [of_Q] is rounding. *)
Lemma of_Q_bounded :
  forall B B' s x,
    round B' == B -> B < pow2 1024 -> Qabs x <= B' ->
    bounded B (of_Q s x) /\ val (of_Q s x) == round x.
Proof.
  intros B B' s x HB Hlt H.
  assert (R : Qabs (round x) <= B).
  { apply Qabs_Qle_condition in H. destruct H as [H1 H2].
    apply Qabs_Qle_condition. split.
    - rewrite <- HB, <- round_opp. now apply round_mono.
    - rewrite <- HB. now apply round_mono. }
  unfold of_Q. destruct (Qeq_bool (round x) 0) eqn:E0.
  - apply Qeq_bool_iff in E0. split; [exact I|]. cbn [val]. now symmetry.
  - destruct (Qle_bool (pow2 1024) (Qabs (round x))) eqn:E1.
    + exfalso. apply Qle_bool_iff in E1.
      apply (Qlt_irrefl B).
      eapply Qlt_le_trans; [exact Hlt|]. eapply Qle_trans; eassumption.
    + split; [exact R|reflexivity].
Qed.

Lemma finite_val : forall a, finite a -> Qabs (val a) <= max_float.
Proof. intros a H. apply bounded_val; [|exact H]. vm_compute. discriminate. Qed.

Lemma neg_bounded : forall B a, bounded B a -> bounded B (neg a).
Proof.
  intros B [s|q|s|] H; cbn [bounded neg] in *; auto. now rewrite Qabs_opp.
Qed.

Lemma val_neg : forall a, val (neg a) == - val a.
Proof. intros [s|q|s|]; cbn; reflexivity. Qed.

(** [v - min] for a finite [v] and a small [min]. *)
Lemma sub_finite :
  forall a b,
    finite a -> bounded 32 b ->
    finite (sub a b) /\ val (sub a b) == round (val a - val b).
Proof.
  intros a b Ha Hb.
  assert (H : Qabs (val a + val (neg b)) <= max_float + 32).
  { eapply Qle_trans; [apply Qabs_triangle|].
    pose proof (finite_val a Ha) as Va.
    pose proof (bounded_val 32 (neg b) ltac:(discriminate) (neg_bounded _ _ Hb)) as Vb.
    apply Qplus_le_compat; assumption. }
  assert (G : finite (sub a b) /\ val (sub a b) == round (val a + val (neg b))).
  { pose proof (neg_bounded _ _ Hb) as Hn. unfold sub.
    destruct a as [s|q|s|], (neg b) as [t|r|t|]; cbn [finite bounded] in Ha, Hn;
      try contradiction; unfold add, finite;
      apply (of_Q_bounded max_float (max_float + 32));
      auto using max_float_absorbs, max_float_lt. }
  destruct G as [G1 G2]. split; [exact G1|]. rewrite G2.
  apply round_comp. rewrite val_neg. reflexivity.
Qed.

(** Division by a finite divisor of magnitude 1 or more. *)
Lemma div_finite :
  forall a d,
    finite a -> 1 <= Qabs d ->
    exists c, div a (Finite d) = Some c
              /\ finite c /\ val c == round (val a / d).
Proof.
  intros a d Ha Hd.
  assert (Hz : Qeq_bool d 0 = false).
  { destruct (Qeq_bool d 0) eqn:E; [|reflexivity].
    apply Qeq_bool_iff in E. rewrite E in Hd. destruct (Hd eq_refl). }
  assert (H : Qabs (val a / d) <= max_float).
  { unfold Qdiv. rewrite Qabs_Qmult, Qabs_Qinv.
    pose proof (finite_val a Ha) as Hv.
    apply Qle_shift_div_r; [lra|].
    eapply Qle_trans; [exact Hv|].
    rewrite <- (Qmult_1_r max_float) at 1.
    apply Qmult_le_compat_nonneg; split;
      [vm_compute; discriminate|apply Qle_refl|discriminate|exact Hd]. }
  unfold div. cbn [is_zero]. rewrite Hz.
  destruct a as [s|q|s|]; cbn [finite bounded] in Ha; try contradiction;
    eexists; (split; [reflexivity|]); unfold finite;
    apply (of_Q_bounded max_float max_float);
    auto using max_float_fixed, max_float_lt.
Qed.

(** Multiplication by a weight between 0 and 1. *)
Lemma mul_weight_finite :
  forall w b,
    0 <= w <= 1 -> finite b ->
    finite (mul (Finite w) b) /\ val (mul (Finite w) b) == round (w * val b).
Proof.
  intros w b Hw Hb.
  assert (H : Qabs (w * val b) <= max_float).
  { rewrite Qabs_Qmult. pose proof (finite_val b Hb) as Hv.
    rewrite <- (Qmult_1_l max_float).
    apply Qmult_le_compat_nonneg; split; auto using Qabs_nonneg.
    rewrite Qabs_pos; tauto. }
  destruct b as [t|r|t|]; cbn [finite bounded] in Hb; try contradiction;
    unfold mul, finite; apply (of_Q_bounded max_float max_float);
    auto using max_float_fixed, max_float_lt.
Qed.

Lemma ltb_finite :
  forall a b, finite a -> finite b -> ltb a b = true -> val a <= val b.
Proof.
  intros [s|q|s|] [t|r|t|] Ha Hb; cbn [finite bounded] in *; try contradiction;
    unfold ltb, val; intros H; apply negb_true_iff in H;
    apply Qlt_le_weak, Qnot_le_lt; intros L; apply Qle_bool_iff in L; congruence.
Qed.

Lemma weighted_sum_cons :
  forall name values t s acc,
    weighted_sum ((name, values) :: t) s acc
    = match contribution values (get name s (literal 0)) with
      | Some c => weighted_sum t s (add acc c)
      | None => None
      end.
Proof.
  intros. cbn [weighted_sum]. unfold contribution.
  destruct (normalize_score _ _ _); reflexivity.
Qed.

(** *** One row *)

(** The contribution of a row follows the raw value when the divisor
    [max - min] is positive and goes against it when it is negative; it
    is finite for every finite raw value. *)
Lemma contribution_mono :
  forall values w d v v',
    weight values = Finite w ->
    divisor values = Finite d ->
    0 <= w <= 1 -> 1 <= Qabs d ->
    bounded 32 (min_val values) ->
    finite v -> finite v' ->
    (if Qle_bool 0 d then val v <= val v' else val v' <= val v) ->
    exists c c',
      contribution values v = Some c /\ contribution values v' = Some c'
      /\ finite c /\ finite c' /\ val c <= val c'.
Proof.
  intros values w d v v' Hw Hd Hw1 Hd1 Hmin Hv Hv' Hle.
  unfold contribution, normalize_score. fold (divisor values). rewrite Hd, Hw.
  destruct (sub_finite v (min_val values) Hv Hmin) as [B1 V1].
  destruct (sub_finite v' (min_val values) Hv' Hmin) as [B1' V1'].
  destruct (div_finite _ d B1 Hd1) as [n [En [B2 V2]]].
  destruct (div_finite _ d B1' Hd1) as [n' [En' [B2' V2']]].
  rewrite En, En'.
  destruct (mul_weight_finite w n Hw1 B2) as [B3 V3].
  destruct (mul_weight_finite w n' Hw1 B2') as [B3' V3'].
  do 2 eexists. repeat split; try reflexivity; try assumption.
  rewrite V3, V3'. apply round_mono.
  rewrite !(Qmult_comm w). apply Qmult_le_compat_r; [|exact (proj1 Hw1)].
  rewrite V2, V2'. apply round_mono.
  assert (Hn : ~ d == 0).
  { intros E. rewrite E in Hd1. destruct (Hd1 eq_refl). }
  destruct (Qle_bool 0 d) eqn:Es.
  - apply Qle_bool_iff in Es.
    assert (Hp : 0 < d).
    { apply Qle_lteq in Es. destruct Es as [L|E]; [exact L|]. symmetry in E. contradiction. }
    apply Qle_shift_div_l; [exact Hp|].
    setoid_replace (val (sub v (min_val values)) / d * d)
      with (val (sub v (min_val values))) by (field; exact Hn).
    rewrite V1, V1'. apply round_mono. lra.
  - assert (Hp : 0 < - d).
    { assert (L : d < 0).
      { apply Qnot_le_lt. intros L. apply Qle_bool_iff in L. congruence. }
      lra. }
    setoid_replace (val (sub v (min_val values)) / d)
      with (- val (sub v (min_val values)) / - d) by (field; exact Hn).
    setoid_replace (val (sub v' (min_val values)) / d)
      with (- val (sub v' (min_val values)) / - d) by (field; exact Hn).
    apply Qle_shift_div_l; [exact Hp|].
    setoid_replace (- val (sub v (min_val values)) / - d * - d)
      with (- val (sub v (min_val values))) by (field; exact Hn).
    apply Qopp_le_compat.
    rewrite V1, V1'. apply round_mono. lra.
Qed.

Lemma contribution_follows :
  forall values (b : bool) v v',
    row_in_range values = true -> divisor_positive values = b ->
    finite v -> finite v' ->
    (if b then val v <= val v' else val v' <= val v) ->
    exists c c',
      contribution values v = Some c /\ contribution values v' = Some c'
      /\ finite c /\ finite c' /\ val c <= val c'.
Proof.
  intros values b v v' Hr Hb Hv Hv' Hle.
  unfold row_in_range in Hr. unfold divisor_positive in Hb.
  destruct (weight values) as [|w| |] eqn:Ew; try discriminate.
  destruct (divisor values) as [|d| |] eqn:Ed; try discriminate.
  apply andb_true_iff in Hr. destruct Hr as [Hr Hm].
  apply andb_true_iff in Hr. destruct Hr as [Hr Hd].
  apply andb_true_iff in Hr. destruct Hr as [Hw0 Hw1].
  apply Qle_bool_iff in Hw0, Hw1, Hd.
  apply (contribution_mono values w d); auto.
  - destruct (min_val values); try discriminate; [exact I|].
    cbn [bounded]. now apply Qle_bool_iff.
  - cbn [val] in Hb. now rewrite Hb.
Qed.

(** *** The sum, which can overflow *)

Lemma position_bounds :
  forall a, ordered a -> - pow2 1024 <= position a <= pow2 1024.
Proof.
  intros [s|q|s|] H; cbn [ordered position] in *; try contradiction.
  - pose proof (pow2_pos 1024). lra.
  - apply Qabs_Qle_condition. now apply Qlt_le_weak.
  - pose proof (pow2_pos 1024). destruct s; lra.
Qed.

Lemma finite_ordered : forall a, finite a -> ordered a.
Proof.
  intros [s|q|s|] H; cbn [finite bounded ordered] in *; auto.
  eapply Qle_lt_trans; [exact H|apply max_float_lt].
Qed.

Lemma finite_position : forall a, finite a -> position a = val a.
Proof. intros [s|q|s|] H; cbn [finite bounded] in H; try contradiction; reflexivity. Qed.

(** What [of_Q] gives, by the place of the rounded value. *)
Lemma of_Q_position :
  forall s x,
    ordered (of_Q s x)
    /\ ((position (of_Q s x) == round x /\ Qabs (round x) < pow2 1024)
        \/ (position (of_Q s x) == pow2 1024 /\ pow2 1024 <= round x)
        \/ (position (of_Q s x) == - pow2 1024 /\ round x <= - pow2 1024)).
Proof.
  intros s x. unfold of_Q. pose proof (pow2_pos 1024) as Pp.
  destruct (Qeq_bool (round x) 0) eqn:E0.
  - apply Qeq_bool_iff in E0. split; [exact I|]. left. cbn [position].
    split; [now symmetry|]. rewrite E0. exact Pp.
  - destruct (Qle_bool (pow2 1024) (Qabs (round x))) eqn:E1.
    + apply Qle_bool_iff in E1. split; [exact I|]. right.
      unfold negative_Q. destruct (Qle_bool 0 (round x)) eqn:E2; cbn [negb position].
      * apply Qle_bool_iff in E2. left. split; [reflexivity|].
        now rewrite Qabs_pos in E1.
      * assert (L : round x < 0).
        { apply Qnot_le_lt. intros L. apply Qle_bool_iff in L. congruence. }
        right. split; [reflexivity|].
        rewrite Qabs_neg in E1 by now apply Qlt_le_weak. lra.
    + assert (L : Qabs (round x) < pow2 1024).
      { apply Qnot_le_lt. intros L. apply Qle_bool_iff in L. congruence. }
      split; [exact L|]. left. split; [reflexivity|exact L].
Qed.

Lemma of_Q_mono :
  forall s t x y, x <= y -> position (of_Q s x) <= position (of_Q t y).
Proof.
  intros s t x y H. pose proof (round_mono x y H) as R.
  pose proof (pow2_pos 1024) as Pp.
  destruct (of_Q_position s x) as [_ [[Ex Bx]|[[Ex Bx]|[Ex Bx]]]];
    destruct (of_Q_position t y) as [_ [[Ey By]|[[Ey By]|[Ey By]]]];
    rewrite Ex, Ey;
    try (apply Qabs_Qlt_condition in Bx); try (apply Qabs_Qlt_condition in By);
    lra.
Qed.

(** Adding finite terms keeps the order of the sums, overflow or not. *)
Lemma add_mono :
  forall a a' c c',
    ordered a -> ordered a' -> finite c -> finite c' ->
    position a <= position a' -> val c <= val c' ->
    ordered (add a c) /\ ordered (add a' c')
    /\ position (add a c) <= position (add a' c').
Proof.
  intros a a' c c' Ha Ha' Hc Hc' Hp Hv.
  pose proof (pow2_pos 1024) as Pp.
  assert (Oc : forall b s, ordered (of_Q s b)) by (intros; apply of_Q_position).
  destruct c as [sc|qc|sc|]; cbn [finite bounded] in Hc; try contradiction;
    destruct c' as [sc'|qc'|sc'|]; cbn [finite bounded] in Hc'; try contradiction;
    destruct a as [sa|qa|sa|]; cbn [ordered] in Ha; try contradiction;
    destruct a' as [sa'|qa'|sa'|]; cbn [ordered] in Ha'; try contradiction;
    cbn [add]; cbn [position val] in Hp, Hv;
    try (split; [apply Oc|split; [apply Oc|apply of_Q_mono; cbn [val]; lra]]);
    try (apply Qabs_Qlt_condition in Ha); try (apply Qabs_Qlt_condition in Ha');
    try (destruct sa); try (destruct sa');
    repeat split; try exact I; try apply Oc; cbn [position];
    try (match goal with
         | |- _ <= position (of_Q ?s ?x) =>
             pose proof (position_bounds (of_Q s x) (Oc x s)); lra
         | |- position (of_Q ?s ?x) <= _ =>
             pose proof (position_bounds (of_Q s x) (Oc x s)); lra
         end);
    lra.
Qed.

(** The loop keeps the order of the sums. *)
Lemma weighted_sum_mono :
  forall items s s' acc acc',
    Forall (row_le s s') items ->
    ordered acc -> ordered acc' -> position acc <= position acc' ->
    exists r r',
      weighted_sum items s acc = Some r /\ weighted_sum items s' acc' = Some r'
      /\ ordered r /\ ordered r' /\ position r <= position r'.
Proof.
  intros items s s' acc acc' H. revert acc acc'.
  induction H as [|[name values] items [c [c' [Ec [Ec' [Bc [Bc' Hc]]]]]] _ IH];
    intros acc acc' Ha Ha' Hp.
  - exists acc, acc'. cbn [weighted_sum]. auto.
  - cbn [fst snd] in Ec, Ec'. rewrite !weighted_sum_cons, Ec, Ec'.
    destruct (add_mono acc acc' c c' Ha Ha' Bc Bc' Hp Hc) as [O [O' L]].
    exact (IH _ _ O O' L).
Qed.

(** The last multiplication, by 100. *)
Lemma times_mono :
  forall h r r',
    0 < h -> ordered r -> ordered r' -> position r <= position r' ->
    ordered (mul r (Finite h)) /\ ordered (mul r' (Finite h))
    /\ position (mul r (Finite h)) <= position (mul r' (Finite h)).
Proof.
  intros h r r' Hh Hr Hr' Hp.
  pose proof (pow2_pos 1024) as Pp.
  assert (Oc : forall b s, ordered (of_Q s b)) by (intros; apply of_Q_position).
  assert (Hz : Qeq_bool h 0 = false).
  { destruct (Qeq_bool h 0) eqn:E; [|reflexivity].
    apply Qeq_bool_iff in E. rewrite E in Hh. discriminate Hh. }
  assert (Hs : negative_Q h = false).
  { unfold negative_Q. apply negb_false_iff, Qle_bool_iff. now apply Qlt_le_weak. }
  assert (M : forall x y, x <= y -> x * h <= y * h).
  { intros x y L. apply Qmult_le_compat_r; [exact L|now apply Qlt_le_weak]. }
  destruct r as [sa|qa|sa|]; cbn [ordered] in Hr; try contradiction;
    destruct r' as [sa'|qa'|sa'|]; cbn [ordered] in Hr'; try contradiction;
    cbn [mul is_zero sign]; rewrite ?Hz, ?Hs, ?xorb_false_r;
    cbn [position val] in Hp;
    try (split; [apply Oc|split; [apply Oc|apply of_Q_mono; cbn [val]; now apply M]]);
    try (apply Qabs_Qlt_condition in Hr); try (apply Qabs_Qlt_condition in Hr');
    try (destruct sa); try (destruct sa');
    repeat split; try exact I; try apply Oc; cbn [position];
    try (match goal with
         | |- _ <= position (of_Q ?s ?x) =>
             pose proof (position_bounds (of_Q s x) (Oc x s)); lra
         | |- position (of_Q ?s ?x) <= _ =>
             pose proof (position_bounds (of_Q s x) (Oc x s)); lra
         end);
    lra.
Qed.

(** The order of the positions is Python's [<=]. *)
Lemma leb_position :
  forall a b, ordered a -> ordered b -> position a <= position b -> leb a b = true.
Proof.
  intros a b Ha Hb Hp. pose proof (pow2_pos 1024) as Pp.
  destruct a as [sa|qa|sa|]; cbn [ordered] in Ha; try contradiction;
    destruct b as [sb|qb|sb|]; cbn [ordered] in Hb; try contradiction;
    cbn [leb val]; cbn [position] in Hp;
    try (now apply Qle_bool_iff);
    try (apply Qabs_Qlt_condition in Ha); try (apply Qabs_Qlt_condition in Hb);
    try (destruct sa); try (destruct sb); try reflexivity; exfalso; lra.
Qed.

Lemma composite_score_mono :
  forall s s',
    Forall (row_le s s') readability_metrics ->
    exists v v',
      composite_score s = Some v /\ composite_score s' = Some v'
      /\ leb v v' = true.
Proof.
  intros s s' H.
  destruct (weighted_sum_mono readability_metrics s s' (literal 0) (literal 0) H
              I I (Qle_refl _))
    as [r [r' [Er [Er' [Or [Or' Hr]]]]]].
  unfold composite_score. rewrite Er, Er'.
  change (literal 100) with (Finite 100).
  destruct (times_mono 100 r r' eq_refl Or Or' Hr) as [O [O' L]].
  do 2 eexists. repeat split; try reflexivity.
  now apply leb_position.
Qed.

Ltac row_follows :=
  first [ eapply (contribution_follows _ true); [vm_compute; reflexivity
                                                 |vm_compute; reflexivity| | |]
        | eapply (contribution_follows _ false); [vm_compute; reflexivity
                                                  |vm_compute; reflexivity| | |] ].

(** The rows of the table, when one raw value goes up and the others
    stay: the row of [flesch_reading_ease] follows it, each other row
    goes against it. *)
Lemma rows_follow :
  forall (raw : Scorer.metric_id -> float) (m : Scorer.metric_id) (x y : float),
    (forall m', finite (raw m')) -> finite x -> finite y ->
    val x <= val y ->
    if Scorer.metric_eqb m Scorer.FRE
    then Forall (row_le (raw_scores (with_raw m x raw)) (raw_scores (with_raw m y raw)))
                readability_metrics
    else Forall (row_le (raw_scores (with_raw m y raw)) (raw_scores (with_raw m x raw)))
                readability_metrics.
Proof.
  intros raw m x y Hraw Hx Hy Hxy.
  destruct m; cbn [Scorer.metric_eqb]; unfold readability_metrics;
    repeat (apply Forall_cons; [|]); try apply Forall_nil;
    unfold row_le, raw_scores, scores_dict, with_raw;
    cbn [fst snd get String.eqb Ascii.eqb Bool.eqb Scorer.metric_eqb];
    row_follows; first [apply Hraw|assumption|apply Qle_refl].
Qed.

(** *** A NaN among the raw values *)

Lemma add_nan : forall a, add a NaN = NaN.
Proof. intros [s|q|s|]; reflexivity. Qed.

Lemma mul_nan : forall a, mul a NaN = NaN.
Proof. intros [s|q|s|]; reflexivity. Qed.

Lemma contribution_nan :
  forall values,
    is_zero (divisor values) = false -> contribution values NaN = Some NaN.
Proof.
  intros values H. unfold contribution, normalize_score, div.
  fold (divisor values). rewrite H. cbn [sub add neg].
  now rewrite mul_nan.
Qed.

Lemma contribution_returns :
  forall values v,
    is_zero (divisor values) = false -> exists c, contribution values v = Some c.
Proof.
  intros values v H. unfold contribution, normalize_score, div.
  fold (divisor values). rewrite H. eexists. reflexivity.
Qed.

Lemma weighted_sum_nan_acc :
  forall items s,
    Forall (fun item => is_zero (divisor (snd item)) = false) items ->
    weighted_sum items s NaN = Some NaN.
Proof.
  intros items s H. induction H as [|[name values] items Hd _ IH]; [reflexivity|].
  rewrite weighted_sum_cons.
  destruct (contribution_returns values (get name s (literal 0)) Hd) as [c ->].
  exact IH.
Qed.

Lemma weighted_sum_nan :
  forall items s,
    Forall (fun item => is_zero (divisor (snd item)) = false) items ->
    Exists (fun item => get (fst item) s (literal 0) = NaN) items ->
    forall acc, weighted_sum items s acc = Some NaN.
Proof.
  intros items s H E. induction E as [[name values] items Hn|[name values] items _ IH];
    intros acc; inversion H as [|? ? Hd Ht]; subst; rewrite weighted_sum_cons.
  - cbn [fst] in Hn. rewrite Hn, (contribution_nan values Hd), add_nan.
    now apply weighted_sum_nan_acc.
  - destruct (contribution_returns values (get name s (literal 0)) Hd) as [c ->].
    now apply IH.
Qed.

Lemma divisors_nonzero :
  Forall (fun item => is_zero (divisor (snd item)) = false) readability_metrics.
Proof. repeat constructor. Qed.

End FloatFacts.

(** ** The claims of the specification *)

Import Chars Soup Normalizer Scorer.



(** C2.  The claim fails on the code.  An empty fenced block is not
    matched, because the pattern asks for two newlines between the fences;
    its closing fence then pairs with the opening fence of the next block,
    so the prose between the two blocks is removed and the code of the
    second block reaches the output. *)
Theorem fenced_code_after_empty_block_survives :
  strip_fenced_code ("```" ++ NL ++ "```") = "```" ++ NL ++ "```"
  /\ strip_fenced_code
       ("```" ++ NL ++ "```" ++ NL ++ "text" ++ NL
        ++ "```" ++ NL ++ "code" ++ NL ++ "```")
     = NL ++ NL ++ "code" ++ NL ++ "```"
  /\ Program.markdown_to_text
       ("```" ++ NL ++ "```" ++ NL ++ "text" ++ NL
        ++ "```" ++ NL ++ "code" ++ NL ++ "```")
     = "code ```".
Proof. repeat split; vm_compute; reflexivity. Qed.

(** C3.  The claim fails on the code.  Each text fragment is stripped and
    the fragments are joined with nothing between them, so the words
    around the bold span are glued together; the heading is removed. *)
Theorem heading_and_bold_text :
  Program.markdown_to_text ("# Heading" ++ NL ++ NL ++ "Some **bold** text.")
  = "Someboldtext."
  /\ Str.contains "Some bold text."
       (Program.markdown_to_text
          ("# Heading" ++ NL ++ NL ++ "Some **bold** text.")) = false
  /\ Str.contains "Heading"
       (Program.markdown_to_text
          ("# Heading" ++ NL ++ NL ++ "Some **bold** text.")) = false.
Proof. repeat split; vm_compute; reflexivity. Qed.

(** C4.  The claim fails on the code.  [markdown] is called without the
    [tables] extension: a pipe table is an ordinary paragraph, no [table]
    element exists to be removed, and the text of the table is the
    output. *)
Theorem pipe_table_is_kept :
  Program.markdown_to_text
    ("| a | b |" ++ NL ++ "|---|---|" ++ NL ++ "| 1 | 2 |")
  = "| a | b |" ++ NL ++ "|---|---|" ++ NL ++ "| 1 | 2 |"
  /\ Str.all_chars is_space
       (Program.markdown_to_text
          ("| a | b |" ++ NL ++ "|---|---|" ++ NL ++ "| 1 | 2 |")) = false.
Proof. split; vm_compute; reflexivity. Qed.

(** C5.  For the input [[label](http://example.com)] the output is exactly
    [label]: the link is replaced by its text. *)
Theorem link_label_is_kept :
  Program.markdown_to_text "[label](http://example.com)" = "label".
Proof. vm_compute. reflexivity. Qed.

(** The formula in exact arithmetic.  With the other four raw values held
    fixed, a strictly larger raw value of [flesch_reading_ease] gives a
    strictly larger value of the formula, and a strictly larger raw value
    of any of the other four metrics a strictly smaller one.  The doubles
    the program computes keep the direction, not the strictness: see the
    two results that follow. *)
Theorem composite_score_strictly_monotone :
  forall (raw : metric_id -> Q) (m : metric_id) (x : Q),
    (raw m < x)%Q ->
    exists v v',
      composite_score (raw_scores raw) = Some v
      /\ composite_score (raw_scores (with_raw m x raw)) = Some v'
      /\ match m with
         | FRE => (v < v')%Q
         | GF | CLI | ARI | DC => (v' < v)%Q
         end.
Proof.
  intros raw m x Hx. unfold raw_scores.
  destruct (ScorerFacts.composite_score_formula
              (raw FRE) (raw GF) (raw CLI) (raw ARI) (raw DC))
    as [v [Hv Ev]].
  destruct (ScorerFacts.composite_score_formula
              (with_raw m x raw FRE) (with_raw m x raw GF)
              (with_raw m x raw CLI) (with_raw m x raw ARI)
              (with_raw m x raw DC))
    as [v' [Hv' Ev']].
  exists v, v'. split; [exact Hv|]. split; [exact Hv'|].
  destruct m; rewrite Ev, Ev';
    unfold with_raw; cbn [metric_eqb].
  - now apply ScorerFacts.composite_formula_fre.
  - now apply ScorerFacts.composite_formula_gf.
  - now apply ScorerFacts.composite_formula_cli.
  - now apply ScorerFacts.composite_formula_ari.
  - now apply ScorerFacts.composite_formula_dc.
Qed.

Lemma composite_score_strictly_monotone_witness :
  ((fun _ : metric_id => 10) GF < 12)%Q
  /\ exists v v',
      composite_score (raw_scores (fun _ => 10%Q)) = Some v
      /\ composite_score
           (raw_scores (with_raw GF 12 (fun _ => 10%Q))) = Some v'
      /\ (v' < v)%Q.
Proof.
  split; [reflexivity|].
  apply (composite_score_strictly_monotone (fun _ => 10%Q) GF 12%Q).
  reflexivity.
Defined.

(** C6, as the program computes.  With the other four raw values held
    fixed, and all five finite, a strictly larger raw value of
    [flesch_reading_ease] never gives a smaller composite score, and a
    strictly larger raw value of any of the other four metrics never
    gives a larger one.  The score is returned, an infinity when the sum
    overflows: no division of the loop is by zero. *)
Theorem composite_score_monotone :
  forall (raw : metric_id -> Float.float) (m : metric_id) (x y : Float.float),
    (forall m', FloatProps.finite (raw m')) ->
    FloatProps.finite x -> FloatProps.finite y ->
    Float.ltb x y = true ->
    exists v v',
      FloatScorer.composite_score (FloatProps.raw_scores (FloatProps.with_raw m x raw))
      = Some v
      /\ FloatScorer.composite_score
           (FloatProps.raw_scores (FloatProps.with_raw m y raw))
         = Some v'
      /\ (if metric_eqb m FRE then Float.leb v v' else Float.leb v' v) = true.
Proof.
  intros raw m x y Hraw Hx Hy Hlt.
  pose proof (FloatFacts.ltb_finite x y Hx Hy Hlt) as Hxy.
  pose proof (FloatFacts.rows_follow raw m x y Hraw Hx Hy Hxy) as H.
  destruct (metric_eqb m FRE).
  - exact (FloatFacts.composite_score_mono _ _ H).
  - destruct (FloatFacts.composite_score_mono _ _ H) as [v' [v [E' [E L]]]].
    exists v, v'. auto.
Qed.

Lemma composite_score_monotone_witness :
  Float.ltb (Float.literal 10) (Float.literal 12) = true
  /\ exists v v',
      FloatScorer.composite_score
        (FloatScorer.scores_dict (Float.literal 60) (Float.literal 10)
           (Float.literal 10) (Float.literal 10) (Float.literal 8))
      = Some v
      /\ FloatScorer.composite_score
           (FloatScorer.scores_dict (Float.literal 60) (Float.literal 12)
              (Float.literal 10) (Float.literal 10) (Float.literal 8))
         = Some v'
      /\ Float.leb v' v = true.
Proof.
  split; [vm_compute; reflexivity|].
  apply (composite_score_monotone
           (fun m => match m with
                     | FRE => Float.literal 60
                     | DC => Float.literal 8
                     | _ => Float.literal 10
                     end)
           GF (Float.literal 10) (Float.literal 12)).
  - intros []; vm_compute; discriminate.
  - vm_compute; discriminate.
  - vm_compute; discriminate.
  - vm_compute; reflexivity.
Defined.

(** C6, the claim as stated, fails on the program.  60 and the next double
    above it, [60 + 2^-47], are two raw values of [flesch_reading_ease]
    with the same composite score, 65.114361339790676, the other raw
    values being 10, 10, 10 and 8; and 10 and the next double above it,
    [10 + 2^-49], are two raw values of [gunning_fog] with that same
    score: the larger raw value gives a score that is neither larger nor
    smaller. *)
Lemma composite_score_not_strictly_monotone :
  Float.ltb (Float.Finite 60)
            (Float.Finite (8444249301319681 # 140737488355328)) = true
  /\ FloatScorer.composite_score
       (FloatScorer.scores_dict (Float.Finite 60) (Float.Finite 10)
          (Float.Finite 10) (Float.Finite 10) (Float.Finite 8))
     = Some (Float.Finite (4582015835411705 # 70368744177664))
  /\ FloatScorer.composite_score
       (FloatScorer.scores_dict
          (Float.Finite (8444249301319681 # 140737488355328)) (Float.Finite 10)
          (Float.Finite 10) (Float.Finite 10) (Float.Finite 8))
     = Some (Float.Finite (4582015835411705 # 70368744177664))
  /\ Float.ltb (Float.Finite 10)
               (Float.Finite (5629499534213121 # 562949953421312)) = true
  /\ FloatScorer.composite_score
       (FloatScorer.scores_dict (Float.Finite 60)
          (Float.Finite (5629499534213121 # 562949953421312))
          (Float.Finite 10) (Float.Finite 10) (Float.Finite 8))
     = Some (Float.Finite (4582015835411705 # 70368744177664)).
Proof. vm_compute. repeat split; reflexivity. Qed.

(** Blank input, the part of the repository.  For empty or
    whitespace-only input the normalized text is empty, and once each
    metric has returned its value on the empty text the formula of
    [calculate_readability] has a value: no divisor of the table is
    zero.  What the five functions of [textstat] do on the empty text is
    not decided by the source. *)
Theorem calculate_readability_blank_input :
  forall textstat content fre gf cli ari dc,
    Str.all_chars is_space content = true ->
    flesch_reading_ease textstat "" = Some fre ->
    gunning_fog textstat "" = Some gf ->
    coleman_liau_index textstat "" = Some cli ->
    automated_readability_index textstat "" = Some ari ->
    dale_chall_readability_score textstat "" = Some dc ->
    Program.markdown_to_text content = ""
    /\ exists v,
         Program.calculate_readability textstat content = Some v
         /\ (v == composite_formula fre gf cli ari dc)%Q.
Proof.
  intros ts content fre gf cli ari dc Hb H1 H2 H3 H4 H5.
  pose proof (NormalizerFacts.markdown_to_text_blank content Hb) as Ht.
  split; [exact Ht|].
  unfold Program.markdown_to_text in Ht.
  apply ScorerFacts.calculate_readability_returns; rewrite Ht; assumption.
Qed.

Lemma calculate_readability_blank_input_witness :
  Str.all_chars is_space ("  " ++ NL ++ " ") = true
  /\ Program.markdown_to_text ("  " ++ NL ++ " ") = ""
  /\ exists v,
       Program.calculate_readability
         (constant_textstat 206.835 0 (-15.8) 0 0) ("  " ++ NL ++ " ") = Some v
       /\ (v == composite_formula 206.835 0 (-15.8) 0 0)%Q.
Proof.
  split; [reflexivity|].
  apply (calculate_readability_blank_input
           (constant_textstat 206.835 0 (-15.8) 0 0) ("  " ++ NL ++ " ")
           206.835 0 (-15.8) 0 0)%Q; reflexivity.
Defined.

(** C8.  The five weights of the table sum to 1 exactly, and each is
    positive: the composite score is 100 times a convex combination of the
    normalized values. *)
Theorem weights_sum_to_one :
  (fold_right Qplus 0 (map (fun row => weight (snd row)) readability_metrics)
   == 1)%Q
  /\ Forall (fun row => (0 < weight (snd row))%Q) readability_metrics
  /\ List.length readability_metrics = 5%nat.
Proof.
  split; [reflexivity|]. split; [|reflexivity].
  repeat constructor.
Qed.

(** C9.  A hyperlink that stands, at any depth, inside an element removed
    by name gives no text to the output: for every input whose parse tree
    holds such an element, the output is that of the tree without the
    element. *)
Theorem link_in_removed_element_gives_no_text :
  forall markdown BeautifulSoup input c t attrs inner href label,
    name_in t unwanted = true ->
    BeautifulSoup (markdown (strip_fenced_code input))
    = plug c [Tag t attrs (plug inner [Tag "a" href label])] ->
    markdown_to_text markdown BeautifulSoup input = soup_to_text (plug c []).
Proof.
  intros md bs input c t attrs inner href label Ht Hparse.
  unfold markdown_to_text. fold (strip_fenced_code input).
  rewrite Hparse. unfold soup_to_text.
  now rewrite (NormalizerFacts.decompose_all_plug unwanted c t attrs _ Ht).
Qed.

Lemma link_in_removed_element_gives_no_text_witness :
  name_in "h2" unwanted = true
  /\ Html.BeautifulSoup
       (Md.markdown
          (strip_fenced_code
             ("## See **[label](http://example.com)**" ++ NL ++ NL ++ "Prose.")))
     = plug (Here [] [NavigableString NL; Tag "p" [] [NavigableString "Prose."]])
            [Tag "h2" []
               (plug (Inside [NavigableString "See "] "strong" [] (Here [] []) [])
                     [Tag "a" [("href", "http://example.com")]
                          [NavigableString "label"]])]
  /\ Program.markdown_to_text
       ("## See **[label](http://example.com)**" ++ NL ++ NL ++ "Prose.")
     = "Prose.".
Proof.
  split; [reflexivity|]. split; [vm_compute; reflexivity|].
  apply (link_in_removed_element_gives_no_text
           Md.markdown Html.BeautifulSoup
           ("## See **[label](http://example.com)**" ++ NL ++ NL ++ "Prose.")
           (Here [] [NavigableString NL; Tag "p" [] [NavigableString "Prose."]])
           "h2" []
           (Inside [NavigableString "See "] "strong" [] (Here [] []) [])
           [("href", "http://example.com")] [NavigableString "label"]).
  - reflexivity.
  - vm_compute. reflexivity.
Defined.

(** C10.  Whatever the two libraries return, in the result of
    [markdown_to_text] no newline directly follows an ASCII letter.  The
    last substitution changes nothing else: a newline after a digit, after
    punctuation or after a non-ASCII letter stays, and reaches the
    output. *)
Theorem no_newline_after_ascii_letter :
  (forall markdown BeautifulSoup input,
      has_wrapped_line (markdown_to_text markdown BeautifulSoup input) = false)
  /\ (forall text,
         Re.sub line_wrap_re [Re.Ref 1; Re.Text " "] text
         = join_wrapped_lines None text)
  /\ Program.markdown_to_text ("line 1" ++ NL ++ "line 2")
     = "line 1" ++ NL ++ "line 2"
  /\ Program.markdown_to_text ("Done." ++ NL ++ "Next")
     = "Done." ++ NL ++ "Next"
  /\ Program.markdown_to_text ("caf" ++ String "233"%char NL ++ "noir")
     = "caf" ++ String "233"%char NL ++ "noir".
Proof.
  split.
  { intros md bs input. unfold markdown_to_text, soup_to_text.
    apply NormalizerFacts.tidy_clean. }
  split; [exact NormalizerFacts.sub_line_wrap|].
  repeat split; vm_compute; reflexivity.
Qed.

(** * Further properties of the code *)

(** ** The matcher on runs of characters *)

Module LoopFacts.
Import Chars Re ReLoops.

Lemma exec_star : forall A r st (k : mstate -> option A),
    exec (Star r) st k = star_loop r k (String.length (rest st)) st.
Proof. reflexivity. Qed.

Lemma exec_lazy_star : forall A r st (k : mstate -> option A),
    exec (LazyStar r) st k = lazy_loop r k (String.length (rest st)) st.
Proof. reflexivity. Qed.

Lemma exec_cat : forall A r1 r2 st (k : mstate -> option A),
    exec (Cat r1 r2) st k = exec r1 st (fun st1 => exec r2 st1 k).
Proof. reflexivity. Qed.

Lemma exec_cls : forall A p pv c s g (k : mstate -> option A),
    exec (Cls p) (MState pv (String c s) g) k
    = if p c then k (MState (Some c) s g) else None.
Proof. reflexivity. Qed.

Lemma exec_lit : forall A a pv c s g (k : mstate -> option A),
    exec (Lit a) (MState pv (String c s) g) k
    = if Ascii.eqb a c then k (MState (Some c) s g) else None.
Proof. reflexivity. Qed.

Lemma exec_opt : forall A r st (k : mstate -> option A),
    exec (Opt r) st k
    = match exec r st k with Some x => Some x | None => k st end.
Proof. reflexivity. Qed.

Lemma exec_alt : forall A r1 r2 st (k : mstate -> option A),
    exec (Alt r1 r2) st k
    = match exec r1 st k with Some x => Some x | None => exec r2 st k end.
Proof. reflexivity. Qed.

Lemma exec_grp : forall A i r st (k : mstate -> option A),
    exec (Grp i r) st k
    = exec r st (fun st1 => k (set_group i (consumed st st1) st1)).
Proof. reflexivity. Qed.

Lemma exec_bol : forall A st (k : mstate -> option A),
    exec Bol st k
    = match prev st with
      | None => k st
      | Some c => if is_nl c then k st else None
      end.
Proof. reflexivity. Qed.

Lemma progress_cons : forall pv pv' c s g g',
    progress (MState pv (String c s) g) (MState pv' s g') = true.
Proof.
  intros. unfold progress. cbn [rest String.length].
  apply Nat.ltb_lt. lia.
Qed.

(** A greedy run over a class reads the whole run when the rest of the
    pattern then succeeds. *)
Lemma star_cls_full :
  forall A p (k : mstate -> option A) x w r g n pv,
    Str.all_chars p w = true ->
    match r with String d _ => p d = false | EmptyString => True end ->
    String.length w <= n ->
    k (MState (prev_after pv w) r g) = Some x ->
    star_loop (Cls p) k n (MState pv (w ++ r) g) = Some x.
Proof.
  intros A p k x w r g. induction w as [|c w IH]; intros n pv Hw Hr Hn Hk.
  - cbn [append prev_after] in *. destruct n as [|n]; [exact Hk|].
    cbn [star_loop]. destruct r as [|d r']; cbn [exec rest].
    + exact Hk.
    + rewrite Hr. exact Hk.
  - cbn [Str.all_chars] in Hw. apply andb_true_iff in Hw. destruct Hw as [Hc Hw].
    cbn [String.length] in Hn. destruct n as [|n]; [lia|].
    cbn [append star_loop]. rewrite exec_cls, Hc, progress_cons.
    rewrite (IH n (Some c)); [reflexivity|assumption|assumption|lia|exact Hk].
Qed.

(** Whatever holds of every outcome of the rest of the pattern, at the
    positions a run over a class can reach, holds of the outcome of the
    run. *)
Lemma star_cls_outcome :
  forall A p (k : mstate -> option A) (Q : string -> Prop)
         (O : option A -> Prop) g,
    (forall c s, p c = true -> Q (String c s) -> Q s) ->
    (forall pv s, Q s -> O (k (MState pv s g))) ->
    forall n pv s, Q s -> O (star_loop (Cls p) k n (MState pv s g)).
Proof.
  intros A p k Q O g HQ Hk. induction n as [|n IH]; intros pv s Hs.
  - now apply Hk.
  - cbn [star_loop]. destruct s as [|c s].
    + cbn [exec rest]. now apply Hk.
    + rewrite exec_cls. destruct (p c) eqn:Hc.
      * rewrite progress_cons.
        destruct (star_loop (Cls p) k n (MState (Some c) s g)) eqn:E.
        -- rewrite <- E. apply IH. eauto.
        -- now apply Hk.
      * now apply Hk.
Qed.

(** A lazy run over any character stops at the first position where the
    rest of the pattern succeeds. *)
Lemma lazy_any_first :
  forall A (k : mstate -> option A) x r g body n pv,
    String.length body <= n ->
    (forall b1 c b2,
        body = b1 ++ String c b2 ->
        let o := k (MState (prev_after pv b1) (String c b2 ++ r) g) in
        o = None \/ o = Some x) ->
    k (MState (prev_after pv body) r g) = Some x ->
    lazy_loop (Cls (fun _ => true)) k n (MState pv (body ++ r) g) = Some x.
Proof.
  intros A k x r g. induction body as [|c body IH]; intros n pv Hn Hin Hk.
  - cbn [append prev_after] in *. destruct n; cbn [lazy_loop]; now rewrite Hk.
  - cbn [String.length] in Hn. destruct n as [|n]; [lia|].
    cbn [append lazy_loop].
    destruct (Hin "" c body eq_refl) as [E|E]; cbn [prev_after append] in E;
      rewrite E; [|reflexivity].
    rewrite exec_cls, progress_cons.
    apply IH; [lia| |exact Hk].
    intros b1 c' b2 Hb. apply (Hin (String c b1) c' b2). now rewrite Hb.
Qed.

End LoopFacts.

(** ** Substitution, in general *)

Module SubFacts.
Import Chars Re ReLoops.

Lemma length_app : forall a b,
    String.length (a ++ b) = String.length a + String.length b.
Proof. induction a as [|c a IH]; intros b; cbn; [reflexivity|now rewrite IH]. Qed.

Lemma app_assoc : forall a b c : string, (a ++ b) ++ c = a ++ b ++ c.
Proof. induction a as [|x a IH]; intros b c; cbn; [reflexivity|now rewrite IH]. Qed.

Lemma app_empty_r : forall a : string, a ++ "" = a.
Proof. induction a as [|x a IH]; cbn; [reflexivity|now rewrite IH]. Qed.

Lemma all_chars_app : forall p a b,
    Str.all_chars p (a ++ b) = Str.all_chars p a && Str.all_chars p b.
Proof.
  induction a as [|x a IH]; intros b; cbn; [reflexivity|].
  now rewrite IH, andb_assoc.
Qed.

Lemma prev_after_app : forall a b p,
    prev_after p (a ++ b) = prev_after (prev_after p a) b.
Proof. induction a as [|x a IH]; intros b p; cbn; [reflexivity|apply IH]. Qed.

Section Blocked.

Variable allowed : ascii -> bool.
Variable Q : string -> Prop.
Hypothesis Q_tail : forall c s, allowed c = true -> Q (String c s) -> Q s.

(** [ReFacts.exec_blocked] for a pattern that reads [allowed] characters
    only: the property needs to survive the reading of those alone. *)
Lemma exec_blocked_reads :
  forall (A : Type) (r : regex) (k : mstate -> option A),
    reads_only allowed r ->
    (forall st, Q (rest st) -> k st = None) ->
    forall st, Q (rest st) -> exec r st k = None.
Proof.
  intros A r; induction r; intros k Hr Hk st Hst; cbn [exec reads_only] in *.
  - destruct (rest st) as [|d s'] eqn:E; [reflexivity|].
    destruct (Ascii.eqb c d) eqn:Ec; [|reflexivity].
    apply Ascii.eqb_eq in Ec. subst d. apply Hk; cbn; eauto.
  - destruct (rest st) as [|d s'] eqn:E; [reflexivity|].
    destruct (p d) eqn:Ep; [|reflexivity].
    apply Hk; cbn; eauto.
  - destruct (prev st) as [c|]; [destruct (is_nl c)|]; auto.
  - destruct (prev st); auto.
  - destruct (rest st) as [|c [|d s']] eqn:E; auto.
    + rewrite Hk; [reflexivity | now rewrite E].
    + destruct (is_nl c); auto. apply Hk; now rewrite E.
  - destruct (prev st) as [c|]; [destruct (p c)|]; auto.
  - destruct Hr as [H1 H2]. apply IHr1; [assumption| |assumption].
    intros st1 Hq. now apply IHr2.
  - destruct Hr as [H1 H2]. rewrite IHr1 by assumption. now apply IHr2.
  - rewrite IHr by assumption. now apply Hk.
  - generalize (String.length (rest st)) as n.
    intros n; revert st Hst; induction n as [|n IHn]; intros st Hst.
    + now apply Hk.
    + rewrite IHr; [now apply Hk | assumption | | assumption].
      intros st1 H1. destruct (progress st st1); auto.
  - generalize (String.length (rest st)) as n.
    intros n; revert st Hst; induction n as [|n IHn]; intros st Hst.
    + now apply Hk.
    + rewrite Hk by assumption. apply IHr; [assumption| |assumption].
      intros st1 H1. destruct (progress st st1); auto.
  - apply IHr; [assumption| |assumption]. intros st1 H1. now apply Hk.
Qed.

End Blocked.

Section Scan.

Variable r : regex.
Variable repl : list piece.

(** The characters of a match still to drop are dropped. *)
Lemma sub_go_skip :
  forall w post p,
    sub_go r repl (String.length w) p (w ++ post)
    = sub_go r repl 0 (prev_after p w) post.
Proof.
  induction w as [|c w IH]; intros post p; [reflexivity|].
  cbn [String.length append sub_go prev_after]. apply IH.
Qed.

(** Where the pattern matches the non-empty text [m], the template takes
    its place and the scan goes on after it. *)
Lemma sub_go_match :
  forall p c m post st,
    match_at r p (String c m ++ post) = Some st ->
    rest st = post ->
    sub_go r repl 0 p (String c m ++ post)
    = expand repl (groups st) ++ sub_go r repl 0 (prev_after p (String c m)) post.
Proof.
  intros p c m post st Hm Hrest.
  cbn [append sub_go]. cbn [append] in Hm. rewrite Hm, Hrest.
  cbn [String.length]. rewrite length_app.
  replace (S (String.length m + String.length post) - String.length post)
    with (S (String.length m)) by lia.
  cbn [prev_after]. f_equal. apply (sub_go_skip m post (Some c)).
Qed.

(** Where the pattern matches at no position of [w], [w] is copied. *)
Lemma sub_go_copy :
  forall w tail p,
    (forall b1 d b2,
        w = b1 ++ String d b2 ->
        match_at r (prev_after p b1) (String d b2 ++ tail) = None) ->
    sub_go r repl 0 p (w ++ tail) = w ++ sub_go r repl 0 (prev_after p w) tail.
Proof.
  induction w as [|c w IH]; intros tail p Hno; [reflexivity|].
  cbn [append sub_go prev_after].
  pose proof (Hno "" c w eq_refl) as H0. cbn [append prev_after] in H0.
  rewrite H0. f_equal. apply IH.
  intros b1 d b2 Hw. apply (Hno (String c b1) d b2). now rewrite Hw.
Qed.

(** With an empty template the result is never longer than the subject. *)
Lemma sub_go_delete_length :
  forall s skip p,
    String.length (sub_go r [] skip p s) <= String.length s.
Proof.
  induction s as [|c s IH]; intros skip p.
  - destruct skip; cbn [sub_go]; [destruct (match_at r p "")|]; cbn; lia.
  - destruct skip as [|k]; cbn [sub_go].
    + destruct (match_at r p (String c s)) as [st|].
      * cbn [expand append].
        destruct (String.length (String c s) - String.length (rest st)).
        -- cbn [String.length]. specialize (IH 0 (Some c)). lia.
        -- specialize (IH n (Some c)). cbn [String.length]. lia.
      * cbn [String.length]. specialize (IH 0 (Some c)). lia.
    + specialize (IH k (Some c)). cbn [String.length]. lia.
Qed.

End Scan.

End SubFacts.

(** ** Fenced code blocks *)

Module FenceFacts.
Import Chars Re ReLoops Normalizer LoopFacts SubFacts.

Lemma fenced_code_re_parts :
  fenced_code_re
  = Cat (Grp 1 (Alt Bol (Lit nl)))
        (Cat (Star (Cls is_space)) (Cat (lits "```") fence_tail_re)).
Proof. reflexivity. Qed.

Lemma exec_fence :
  forall A pv s g (k : mstate -> option A),
    exec (lits "```") (MState pv ("```" ++ s) g) k = k (MState (Some bt) s g).
Proof. reflexivity. Qed.

Lemma exec_fence_blocked :
  forall A pv d s g (k : mstate -> option A),
    not_backquote d = true ->
    exec (lits "```") (MState pv (String d s) g) k = None.
Proof.
  intros A pv d s g k Hd. cbn [lits exec rest].
  unfold not_backquote, bt in Hd. rewrite Ascii.eqb_sym.
  now destruct (Ascii.eqb d "`").
Qed.

Lemma not_backquote_not_space : forall c, is_space c = true -> not_backquote c = true.
Proof.
  intros c H. unfold not_backquote. destruct (Ascii.eqb c bt) eqn:E; [|reflexivity].
  apply Ascii.eqb_eq in E. subst c. discriminate H.
Qed.

(** From a position followed by backquote-free text and then a fence, the
    closing part of the pattern fails or stops right after that fence. *)
Lemma fence_close_outcome :
  forall t pv post g,
    Str.all_chars not_backquote t = true ->
    let o := exec fence_close_re (MState pv (t ++ "```" ++ post) g)
                  (fun st => Some st) in
    o = None \/ o = Some (MState (Some bt) post g).
Proof.
  intros t pv post g Ht o. subst o. unfold fence_close_re.
  rewrite exec_cat. destruct t as [|c t].
  - left. reflexivity.
  - cbn [append]. rewrite exec_lit. destruct (Ascii.eqb nl c); [|now left].
    rewrite exec_cat, exec_star. cbn [rest].
    cbn [Str.all_chars] in Ht. apply andb_true_iff in Ht. destruct Ht as [_ Ht].
    apply (star_cls_outcome _ is_space _
             (fun s => exists u, s = u ++ "```" ++ post
                                 /\ Str.all_chars not_backquote u = true)).
    + intros d s Hd [u [Hu Hn]]. destruct u as [|e u].
      * cbn [append] in Hu. injection Hu as He _. subst d. discriminate Hd.
      * cbn [append] in Hu. injection Hu as He Hs. exists u. split; [exact Hs|].
        cbn [Str.all_chars] in Hn. apply andb_true_iff in Hn. tauto.
    + intros pv' s [u [Hu Hn]]. subst s. destruct u as [|e u].
      * right. apply exec_fence.
      * left. cbn [append]. apply exec_fence_blocked.
        cbn [Str.all_chars] in Hn. apply andb_true_iff in Hn. tauto.
    + exists t. split; [reflexivity|exact Ht].
Qed.

Lemma fence_close_at :
  forall pv post g,
    exec fence_close_re (MState pv (NL ++ "```" ++ post) g) (fun st => Some st)
    = Some (MState (Some bt) post g).
Proof.
  intros pv post g. unfold fence_close_re.
  rewrite exec_cat. change (NL ++ "```" ++ post) with (String nl ("```" ++ post)).
  rewrite exec_lit. change (Ascii.eqb nl nl) with true. cbv iota.
  rewrite exec_cat, exec_star.
  apply (star_cls_full _ is_space _ _ "" ("```" ++ post)); try reflexivity.
  cbn [String.length]. lia.
Qed.

(** After the opening fence: the info string, the body and the closing
    fence are read, and nothing more. *)
Lemma fence_tail_match :
  forall info body post pv g,
    Str.all_chars not_newline info = true ->
    Str.all_chars not_backquote body = true ->
    exec fence_tail_re
         (MState pv (info ++ NL ++ body ++ NL ++ "```" ++ post) g)
         (fun st => Some st)
    = Some (MState (Some bt) post g).
Proof.
  intros info body post pv g Hi Hb. unfold fence_tail_re.
  rewrite exec_cat, exec_opt, exec_star. cbn [rest].
  assert (Hrest :
    exec (Cat (Lit nl) (Cat (LazyStar (Cls (fun _ => true))) fence_close_re))
         (MState (prev_after pv info) (NL ++ body ++ NL ++ "```" ++ post) g)
         (fun st => Some st)
    = Some (MState (Some bt) post g)).
  { rewrite exec_cat.
    change (NL ++ body ++ NL ++ "```" ++ post)
      with (String nl (body ++ NL ++ "```" ++ post)).
    rewrite exec_lit. change (Ascii.eqb nl nl) with true. cbv iota.
    rewrite exec_cat, exec_lazy_star. cbn [rest].
    apply lazy_any_first.
    - rewrite length_app. lia.
    - intros b1 c b2 Hbody. cbv zeta.
      rewrite <- app_assoc.
      apply fence_close_outcome.
      subst body. rewrite all_chars_app in Hb. apply andb_true_iff in Hb.
      rewrite all_chars_app. destruct Hb as [_ Hb]. rewrite Hb. reflexivity.
    - apply fence_close_at. }
  rewrite (star_cls_full _ (fun c => negb (is_nl c)) _
             (MState (Some bt) post g) info
             (NL ++ body ++ NL ++ "```" ++ post) g _ pv);
    [reflexivity | exact Hi | reflexivity | rewrite length_app; lia | exact Hrest].
Qed.

(** No fence opens in a text without a backquote. *)
Lemma fenced_code_no_match :
  forall p s,
    Str.all_chars not_backquote s = true -> match_at fenced_code_re p s = None.
Proof.
  intros p s Hs. unfold match_at. rewrite fenced_code_re_parts.
  rewrite exec_cat.
  assert (Htail : forall c t,
             Str.all_chars not_backquote (String c t) = true ->
             Str.all_chars not_backquote t = true).
  { intros c t H. cbn [Str.all_chars] in H. apply andb_true_iff in H. tauto. }
  apply (ReFacts.exec_blocked
           (fun s => Str.all_chars not_backquote s = true) Htail); [|exact Hs].
  intros st1 H1. rewrite exec_cat.
  apply (ReFacts.exec_blocked
           (fun s => Str.all_chars not_backquote s = true) Htail); [|exact H1].
  intros st2 H2. rewrite exec_cat.
  destruct st2 as [pv [|d s'] g]; [reflexivity|].
  apply exec_fence_blocked.
  cbn [rest Str.all_chars] in H2. apply andb_true_iff in H2. tauto.
Qed.

Lemma sub_fenced_backquote_free :
  forall s p,
    Str.all_chars not_backquote s = true ->
    sub_go fenced_code_re [Text NL] 0 p s = s.
Proof.
  intros s p Hs.
  apply (ReFacts.sub_go_no_match
           (fun s => Str.all_chars not_backquote s = true)); [| |exact Hs].
  - intros c t H. cbn [Str.all_chars] in H. apply andb_true_iff in H. tauto.
  - intros q t Ht. now apply fenced_code_no_match.
Qed.

(** The pattern at the opening fence of a block, after a newline or at the
    start of the document. *)
Lemma fenced_code_match_at_start :
  forall info body post,
    Str.all_chars not_newline info = true ->
    Str.all_chars not_backquote body = true ->
    match_at fenced_code_re None
             ("```" ++ info ++ NL ++ body ++ NL ++ "```" ++ post)
    = Some (MState (Some bt) post [(1, "")]).
Proof.
  intros info body post Hi Hb. unfold match_at. rewrite fenced_code_re_parts.
  rewrite exec_cat, exec_grp, exec_alt, exec_bol. unfold start_at. cbn [prev].
  unfold consumed, set_group. cbn [rest prev groups].
  rewrite Nat.sub_diag. cbn [Str.take].
  rewrite exec_cat, exec_star. cbn [rest].
  rewrite (star_cls_full _ is_space _ (MState (Some bt) post [(1, "")]) ""
             ("```" ++ info ++ NL ++ body ++ NL ++ "```" ++ post));
    [reflexivity | reflexivity | reflexivity | cbn; lia |].
  cbn [prev_after]. rewrite exec_cat, exec_fence.
  now apply fence_tail_match.
Qed.

Lemma fenced_code_match_after_line :
  forall c info body post,
    is_space c = false ->
    Str.all_chars not_newline info = true ->
    Str.all_chars not_backquote body = true ->
    match_at fenced_code_re (Some c)
             (String nl ("```" ++ info ++ NL ++ body ++ NL ++ "```" ++ post))
    = Some (MState (Some bt) post [(1, NL)]).
Proof.
  intros c info body post Hc Hi Hb. unfold match_at. rewrite fenced_code_re_parts.
  rewrite exec_cat, exec_grp, exec_alt, exec_bol. unfold start_at. cbn [prev].
  assert (Hnl : is_nl c = false).
  { unfold is_nl. destruct (Ascii.eqb c nl) eqn:E; [|reflexivity].
    apply Ascii.eqb_eq in E. subst c. discriminate Hc. }
  rewrite Hnl, exec_lit. change (Ascii.eqb nl nl) with true. cbv iota.
  unfold consumed, set_group. cbn [rest prev groups String.length].
  rewrite NormalizerFacts.sub_succ_same. cbn [Str.take].
  rewrite exec_cat, exec_star. cbn [rest].
  rewrite (star_cls_full _ is_space _ (MState (Some bt) post [(1, NL)]) ""
             ("```" ++ info ++ NL ++ body ++ NL ++ "```" ++ post));
    [reflexivity | reflexivity | reflexivity | cbn; lia |].
  cbn [prev_after]. rewrite exec_cat, exec_fence.
  now apply fence_tail_match.
Qed.

(** The pattern matches nowhere in a line of prose that holds no
    backquote and ends on a character that is not white space: the white
    space the pattern may read before a fence cannot cross that
    character. *)
Lemma fenced_code_no_match_in_prose :
  forall pv t c u,
    Str.all_chars not_backquote t = true ->
    is_space c = false -> not_backquote c = true ->
    match_at fenced_code_re pv (t ++ String c u) = None.
Proof.
  intros pv t c u Ht Hc Hbq. unfold match_at. rewrite fenced_code_re_parts.
  rewrite exec_cat.
  set (Q := fun s => exists t', s = t' ++ String c u
                                /\ Str.all_chars not_backquote t' = true).
  assert (Qtail : forall d s, is_space d = true -> Q (String d s) -> Q s).
  { intros d s Hd [t' [Hs Hn]]. destruct t' as [|e t'].
    - cbn [append] in Hs. injection Hs as He _. subst d. congruence.
    - cbn [append] in Hs. injection Hs as _ Hs. exists t'. split; [exact Hs|].
      cbn [Str.all_chars] in Hn. apply andb_true_iff in Hn. tauto. }
  apply (exec_blocked_reads is_space Q Qtail).
  - cbn. auto.
  - intros st1 H1. rewrite exec_cat.
    apply (exec_blocked_reads is_space Q Qtail); [cbn; auto| |exact H1].
    intros st2 [t' [Hs Hn]]. rewrite exec_cat.
    destruct st2 as [pv2 s2 g2]. cbn [rest] in Hs. subst s2.
    destruct t' as [|e t']; cbn [append]; apply exec_fence_blocked.
    + exact Hbq.
    + cbn [Str.all_chars] in Hn. apply andb_true_iff in Hn. tauto.
  - exists t. split; [reflexivity|exact Ht].
Qed.

Lemma suffix_of_line :
  forall (P : ascii -> bool) pre c b1 d b2,
    Str.all_chars P pre = true ->
    pre ++ String c "" = b1 ++ String d b2 ->
    exists t, String d b2 = t ++ String c "" /\ Str.all_chars P t = true.
Proof.
  intros P pre c. induction pre as [|x pre IH]; intros b1 d b2 Hp H.
  - destruct b1 as [|y b1]; cbn [append] in H.
    + exists "". now injection H as -> <-.
    + injection H as _ H. destruct b1; discriminate H.
  - cbn [Str.all_chars] in Hp. apply andb_true_iff in Hp. destruct Hp as [Hx Hp].
    destruct b1 as [|y b1]; cbn [append] in H.
    + injection H as -> <-. exists (String d pre). split; [reflexivity|].
      cbn [Str.all_chars]. now rewrite Hx, Hp.
    + injection H as _ H. now apply (IH b1 d b2).
Qed.

Lemma fenced_block_app :
  forall info body post,
    fenced_block info body ++ post
    = "```" ++ info ++ NL ++ body ++ NL ++ "```" ++ post.
Proof.
  intros. unfold fenced_block.
  change ("```" ++ ?x) with (String bt (String bt (String bt x))).
  cbn [append]. do 3 f_equal.
  rewrite app_assoc. f_equal. cbn [append NL]. f_equal.
  rewrite app_assoc. reflexivity.
Qed.

End FenceFacts.

(** ** The substitutions on the extracted text *)

Module TidyFacts.
Import Chars Re ReLoops Normalizer LoopFacts SubFacts.

(** A literal in a loop behaves as the class of that one character. *)
Lemma star_loop_lit :
  forall A a (k : mstate -> option A) n st,
    star_loop (Lit a) k n st = star_loop (Cls (Ascii.eqb a)) k n st.
Proof.
  intros A a k. induction n as [|n IH]; intros st; [reflexivity|].
  cbn [star_loop exec]. destruct (rest st) as [|d s']; [reflexivity|].
  destruct (Ascii.eqb a d); [|reflexivity].
  now rewrite IH.
Qed.

Lemma span_app : forall p s, fst (Html.span p s) ++ snd (Html.span p s) = s.
Proof.
  intros p. induction s as [|c s IH]; [reflexivity|].
  cbn [Html.span]. destruct (p c); [|reflexivity].
  destruct (Html.span p s) as [a b]. cbn [fst snd append] in *. now rewrite IH.
Qed.

Lemma span_all : forall p s, Str.all_chars p (fst (Html.span p s)) = true.
Proof.
  intros p. induction s as [|c s IH]; [reflexivity|].
  cbn [Html.span]. destruct (p c) eqn:E; [|reflexivity].
  destruct (Html.span p s) as [a b]. cbn [fst Str.all_chars] in *.
  now rewrite E, IH.
Qed.

Lemma span_stop :
  forall p s,
    match snd (Html.span p s) with
    | String d _ => p d = false
    | EmptyString => True
    end.
Proof.
  intros p. induction s as [|c s IH]; [exact I|].
  cbn [Html.span]. destruct (p c) eqn:E; [|exact E].
  destruct (Html.span p s) as [a b]. exact IH.
Qed.

Lemma span_length : forall p s,
    String.length (snd (Html.span p s)) <= String.length s.
Proof.
  intros p s. rewrite <- (span_app p s) at 2. rewrite length_app. lia.
Qed.

(** [\n+] at a newline reads the whole run of newlines. *)
Lemma match_newlines :
  forall pv w r,
    Str.all_chars (Ascii.eqb nl) w = true ->
    match r with String d _ => Ascii.eqb nl d = false | EmptyString => True end ->
    match_at newlines_re pv (String nl w ++ r)
    = Some (MState (prev_after (Some nl) w) r []).
Proof.
  intros pv w r Hw Hr. unfold match_at, newlines_re, Plus, start_at.
  cbn [append]. rewrite exec_cat, exec_lit. change (Ascii.eqb nl nl) with true.
  cbv iota. rewrite exec_star, star_loop_lit. cbn [rest].
  apply star_cls_full; [exact Hw|exact Hr| |reflexivity].
  rewrite length_app. lia.
Qed.

Lemma match_newlines_none :
  forall pv c s, Ascii.eqb nl c = false -> match_at newlines_re pv (String c s) = None.
Proof.
  intros pv c s Hc. unfold match_at, newlines_re, Plus, start_at.
  rewrite exec_cat, exec_lit, Hc. reflexivity.
Qed.

Lemma squeeze_run :
  forall w r,
    Str.all_chars (Ascii.eqb nl) w = true ->
    match r with String d _ => Ascii.eqb nl d = false | EmptyString => True end ->
    squeeze_newlines (String nl w ++ r) = String nl (squeeze_newlines r).
Proof.
  induction w as [|c w IH]; intros r Hw Hr.
  - cbn [append squeeze_newlines]. change (is_nl nl) with true. cbv iota.
    destruct r as [|d r]; [reflexivity|].
    unfold is_nl. rewrite Ascii.eqb_sym, Hr. reflexivity.
  - cbn [Str.all_chars] in Hw. apply andb_true_iff in Hw. destruct Hw as [Hc Hw].
    apply Ascii.eqb_eq in Hc. subst c.
    specialize (IH r Hw Hr). cbn [append] in *.
    cbn [squeeze_newlines]. change (is_nl nl) with true. cbv iota.
    exact IH.
Qed.

(** The second substitution is [squeeze_newlines]. *)
Lemma sub_newlines_go :
  forall n s p,
    String.length s <= n ->
    sub_go newlines_re [Text NL] 0 p s = squeeze_newlines s.
Proof.
  induction n as [|n IH]; intros s p Hn.
  - destruct s; [reflexivity|cbn in Hn; lia].
  - destruct s as [|c s]; [reflexivity|].
    destruct (Ascii.eqb nl c) eqn:Ec.
    + apply Ascii.eqb_eq in Ec. subst c.
      pose proof (span_app (Ascii.eqb nl) s) as Hs.
      pose proof (span_all (Ascii.eqb nl) s) as Hw.
      pose proof (span_stop (Ascii.eqb nl) s) as Hr.
      pose proof (span_length (Ascii.eqb nl) s) as Hl.
      destruct (Html.span (Ascii.eqb nl) s) as [w r]. cbn [fst snd] in *.
      subst s.
      change (String nl (w ++ r)) with (String nl w ++ r).
      rewrite (sub_go_match _ _ _ _ _ _ _ (match_newlines p w r Hw Hr) eq_refl).
      rewrite squeeze_run by assumption.
      cbn [groups expand append NL]. f_equal.
      apply IH. cbn [String.length] in Hn. lia.
    + cbn [sub_go]. rewrite match_newlines_none by assumption.
      cbn [squeeze_newlines]. unfold is_nl. rewrite Ascii.eqb_sym, Ec.
      f_equal. apply IH. cbn [String.length] in Hn. lia.
Qed.

Lemma sub_newlines :
  forall text, sub newlines_re [Text NL] text = squeeze_newlines text.
Proof. intros. unfold sub. now apply (sub_newlines_go (String.length text)). Qed.

Lemma squeeze_cons_other :
  forall c s, is_nl c = false -> squeeze_newlines (String c s) = String c (squeeze_newlines s).
Proof. intros c s H. cbn [squeeze_newlines]. now rewrite H. Qed.

Lemma has_blank_line_cons :
  forall c d s,
    has_blank_line (String c (String d s))
    = (is_nl c && is_nl d) || has_blank_line (String d s).
Proof. reflexivity. Qed.

Lemma squeeze_no_blank_line : forall s, has_blank_line (squeeze_newlines s) = false.
Proof.
  induction s as [|c s IH]; [reflexivity|].
  destruct (is_nl c) eqn:Ec.
  - cbn [squeeze_newlines]. rewrite Ec. destruct s as [|d s]; [reflexivity|].
    destruct (is_nl d) eqn:Ed; [exact IH|].
    rewrite squeeze_cons_other in * by assumption.
    rewrite has_blank_line_cons, IH, Ed, andb_false_r. reflexivity.
  - rewrite squeeze_cons_other by assumption.
    destruct (squeeze_newlines s) as [|d s']; [reflexivity|].
    rewrite has_blank_line_cons, IH, Ec. reflexivity.
Qed.

Lemma squeeze_length : forall s, String.length (squeeze_newlines s) <= String.length s.
Proof.
  induction s as [|c s IH]; [cbn; lia|].
  cbn [squeeze_newlines]. destruct (is_nl c); [destruct s as [|d s']|];
    try destruct (is_nl d); cbn [String.length] in *; lia.
Qed.

(** The last substitution changes newlines into spaces and nothing else:
    it creates no newline and keeps the length. *)
Lemma join_wrapped_no_blank_line :
  forall s p, has_blank_line s = false -> has_blank_line (join_wrapped_lines p s) = false.
Proof.
  induction s as [|c s IH]; intros p H; [reflexivity|].
  destruct s as [|d s]; [reflexivity|].
  rewrite has_blank_line_cons in H. apply orb_false_iff in H. destruct H as [H1 H2].
  specialize (IH (Some c) H2).
  cbn [join_wrapped_lines] in *. rewrite has_blank_line_cons, IH, orb_false_r.
  apply andb_false_iff in H1.
  destruct (is_ascii_alpha c && is_nl d) eqn:E.
  - apply andb_false_r.
  - destruct H1 as [H1|H1].
    + destruct p as [a|]; [|now rewrite H1].
      destruct (is_ascii_alpha a && is_nl c); [reflexivity|now rewrite H1].
    + rewrite H1. apply andb_false_r.
Qed.

Lemma join_wrapped_length :
  forall s p, String.length (join_wrapped_lines p s) = String.length s.
Proof. induction s as [|c s IH]; intros p; cbn; [reflexivity|now rewrite IH]. Qed.

(** [tidy], step by step. *)
Lemma tidy_steps :
  forall text,
    tidy text
    = join_wrapped_lines None (squeeze_newlines (sub template_tag_re [] text)).
Proof.
  intros. unfold tidy. now rewrite NormalizerFacts.sub_line_wrap, sub_newlines.
Qed.

Lemma tidy_no_blank_line : forall text, has_blank_line (tidy text) = false.
Proof.
  intros. rewrite tidy_steps. apply join_wrapped_no_blank_line, squeeze_no_blank_line.
Qed.

(** No template tag opens in a text without an opening brace. *)
Lemma template_tag_no_match :
  forall p s, Str.all_chars not_brace s = true -> match_at template_tag_re p s = None.
Proof.
  intros p s Hs. unfold match_at, template_tag_re, start_at.
  rewrite exec_cat. destruct s as [|c s]; [reflexivity|].
  cbn [lits]. rewrite exec_cat, exec_lit.
  cbn [Str.all_chars] in Hs. apply andb_true_iff in Hs. destruct Hs as [Hc _].
  unfold not_brace in Hc. rewrite Ascii.eqb_sym.
  now destruct (Ascii.eqb c "{").
Qed.

Lemma sub_template_without_brace :
  forall s, Str.all_chars not_brace s = true -> sub template_tag_re [] s = s.
Proof.
  intros s Hs. unfold sub.
  apply (ReFacts.sub_go_no_match (fun s => Str.all_chars not_brace s = true));
    [| |exact Hs].
  - intros c t H. cbn [Str.all_chars] in H. apply andb_true_iff in H. tauto.
  - intros q t Ht. now apply template_tag_no_match.
Qed.

End TidyFacts.

(** ** Parse trees *)

Module SoupFacts.
Import Chars Soup SoupProps Normalizer.

(** Induction on a node, with the property known of its children. *)
Lemma node_induction :
  forall P : node -> Prop,
    (forall nm a ch, Forall P ch -> P (Tag nm a ch)) ->
    (forall s, P (NavigableString s)) ->
    (forall s, P (Comment s)) ->
    forall n, P n.
Proof.
  intros P HT HS HC. fix IH 1. intros [nm a ch|s|s]; [|apply HS|apply HC].
  apply HT. induction ch as [|n ch IHch]; constructor; [apply IH|exact IHch].
Qed.

Lemma existsb_flat_map_false :
  forall (f : node -> list node) (q : node -> bool) l,
    Forall (fun n => existsb q (f n) = false) l ->
    existsb q (flat_map f l) = false.
Proof.
  intros f q l H. induction H as [|n l Hn _ IH]; [reflexivity|].
  cbn [flat_map]. now rewrite existsb_app, Hn, IH.
Qed.

(** After the removal no element with a removed name is left, at any
    depth. *)
Lemma decompose_node_clean :
  forall names n, existsb (has_tag names) (decompose_node names n) = false.
Proof.
  intros names. apply node_induction; [|reflexivity|reflexivity].
  intros nm a ch IH. cbn [decompose_node].
  destruct (name_in nm names) eqn:E; [reflexivity|].
  cbn [existsb has_tag]. rewrite E, orb_false_r. cbn [orb].
  now apply existsb_flat_map_false.
Qed.

Lemma decompose_all_clean :
  forall names f, existsb (has_tag names) (decompose_all names f) = false.
Proof.
  intros names f. unfold decompose_all. apply existsb_flat_map_false.
  apply Forall_forall. intros n _. apply decompose_node_clean.
Qed.

(** A tree that holds no such element is left as it is. *)
Lemma decompose_node_id :
  forall names n, has_tag names n = false -> decompose_node names n = [n].
Proof.
  intros names.
  apply (node_induction
           (fun n => has_tag names n = false -> decompose_node names n = [n]));
    [|intros; reflexivity|intros; reflexivity].
  intros nm a ch IH H. cbn [has_tag] in H. apply orb_false_iff in H.
  destruct H as [Hn Hch]. cbn [decompose_node]. rewrite Hn. do 2 f_equal.
  induction IH as [|n ch Hn' _ IHch]; [reflexivity|].
  cbn [existsb] in Hch. apply orb_false_iff in Hch. destruct Hch as [H1 H2].
  cbn [flat_map]. rewrite (Hn' H1), (IHch H2). reflexivity.
Qed.

Lemma decompose_all_id :
  forall names f, existsb (has_tag names) f = false -> decompose_all names f = f.
Proof.
  intros names. induction f as [|n f IH]; intros H; [reflexivity|].
  cbn [existsb] in H. apply orb_false_iff in H. destruct H as [H1 H2].
  unfold decompose_all in *. cbn [flat_map].
  rewrite (decompose_node_id _ _ H1), (IH H2). reflexivity.
Qed.

(** The replacement of the links leaves no link, and brings in no element
    that was not there. *)
Lemma replace_links_no_new_tag :
  forall names n, has_tag names n = false -> has_tag names (replace_links n) = false.
Proof.
  intros names.
  apply (node_induction
           (fun n => has_tag names n = false
                     -> has_tag names (replace_links n) = false));
    [|intros; reflexivity|intros; reflexivity].
  intros nm a ch IH H. cbn [has_tag] in H. apply orb_false_iff in H.
  destruct H as [Hn Hch]. cbn [replace_links].
  destruct (String.eqb nm "a"); [reflexivity|].
  cbn [has_tag]. rewrite Hn. cbn [orb].
  induction IH as [|n ch Hn' _ IHch]; [reflexivity|].
  cbn [existsb] in Hch. apply orb_false_iff in Hch. destruct Hch as [H1 H2].
  cbn [map existsb]. now rewrite (Hn' H1), (IHch H2).
Qed.

Lemma replace_links_no_link :
  forall n, has_tag ["a"] (replace_links n) = false.
Proof.
  apply node_induction; [|reflexivity|reflexivity].
  intros nm a ch IH. cbn [replace_links].
  destruct (String.eqb nm "a") eqn:E; [reflexivity|].
  cbn [has_tag name_in existsb]. rewrite E. cbn [orb].
  induction IH as [|n ch Hn _ IHch]; [reflexivity|].
  cbn [map existsb]. now rewrite Hn, IHch.
Qed.

Lemma join_app : forall a b, Str.join (a ++ b) = Str.join a ++ Str.join b.
Proof.
  unfold Str.join. induction a as [|x a IH]; intros b; [reflexivity|].
  destruct a as [|y a].
  - cbn [app String.concat]. destruct b as [|z b].
    + now rewrite SubFacts.app_empty_r.
    + reflexivity.
  - change ((x :: y :: a) ++ b)%list with (x :: (y :: a) ++ b)%list.
    cbn [String.concat] in *. cbn [app] in IH |- *.
    specialize (IH b). cbn [append].
    now rewrite IH, SubFacts.app_assoc.
Qed.

(** The replacement of the links keeps the text of the tree: the
    concatenation of all its strings. *)
Lemma replace_links_text :
  forall n, Str.join (strings (replace_links n)) = Str.join (strings n).
Proof.
  apply node_induction; [|reflexivity|reflexivity].
  intros nm a ch IH. cbn [replace_links].
  destruct (String.eqb nm "a").
  - cbn [strings]. unfold get_text. cbn [strings]. unfold Str.join at 1.
    cbn [String.concat]. reflexivity.
  - cbn [strings]. induction IH as [|n ch Hn _ IHch]; [reflexivity|].
    cbn [map flat_map]. now rewrite !join_app, Hn, IHch.
Qed.

(** *** Comments *)

Lemma strings_drop_comments :
  forall n, flat_map strings (drop_comments n) = strings n.
Proof.
  apply node_induction; [|reflexivity|reflexivity].
  intros nm a ch IH. cbn [drop_comments flat_map strings]. rewrite app_nil_r.
  induction IH as [|n ch Hn _ IHch]; [reflexivity|].
  cbn [flat_map]. now rewrite flat_map_app, Hn, IHch.
Qed.

Lemma decompose_strings_drop_comments :
  forall names n,
    flat_map strings (decompose_all names (drop_comments n))
    = flat_map strings (decompose_node names n).
Proof.
  intros names. apply node_induction; [|reflexivity|reflexivity].
  intros nm a ch IH. unfold decompose_all.
  cbn [drop_comments flat_map decompose_node]. rewrite app_nil_r.
  destruct (name_in nm names); [reflexivity|].
  cbn [flat_map strings]. rewrite !app_nil_r.
  induction IH as [|n ch Hn _ IHch]; [reflexivity|].
  cbn [flat_map]. rewrite !flat_map_app.
  unfold decompose_all in Hn. now rewrite Hn, IHch.
Qed.

Lemma pipeline_strings_drop_comments :
  forall names n,
    flat_map strings (map replace_links (decompose_all names (drop_comments n)))
    = flat_map strings (map replace_links (decompose_node names n)).
Proof.
  intros names. apply node_induction; [|reflexivity|reflexivity].
  intros nm a ch IH. unfold decompose_all.
  cbn [drop_comments flat_map decompose_node]. rewrite app_nil_r.
  destruct (name_in nm names); [reflexivity|].
  cbn [map flat_map replace_links]. rewrite !app_nil_r.
  destruct (String.eqb nm "a").
  - cbn [strings]. unfold get_text. cbn [strings]. do 2 f_equal.
    clear IH. induction ch as [|n ch IHch]; [reflexivity|].
    cbn [flat_map]. rewrite !flat_map_app.
    pose proof (decompose_strings_drop_comments names n) as Hn.
    unfold decompose_all in Hn. now rewrite Hn, IHch.
  - cbn [strings]. induction IH as [|n ch Hn _ IHch]; [reflexivity|].
    cbn [flat_map]. rewrite !flat_map_app, !map_app, !flat_map_app.
    unfold decompose_all in Hn. now rewrite Hn, IHch.
Qed.

(** *** Fragments *)

Lemma lstrip_start : forall s, starts_with_space (Str.lstrip s) = false.
Proof.
  induction s as [|c s IH]; [reflexivity|].
  cbn [Str.lstrip]. destruct (is_space c) eqn:E; [exact IH|].
  cbn [starts_with_space]. exact E.
Qed.

Lemma rstrip_start :
  forall s, starts_with_space s = false -> starts_with_space (Str.rstrip s) = false.
Proof.
  intros [|c s] H; [reflexivity|]. cbn [starts_with_space] in H.
  cbn [Str.rstrip]. destruct (Str.rstrip s); [rewrite H|]; cbn; auto.
Qed.

Lemma ends_with_space_cons :
  forall c d s, ends_with_space (String c (String d s)) = ends_with_space (String d s).
Proof. reflexivity. Qed.

Lemma rstrip_end : forall s, ends_with_space (Str.rstrip s) = false.
Proof.
  induction s as [|c s IH]; [reflexivity|].
  cbn [Str.rstrip]. destruct (Str.rstrip s) as [|d t].
  - destruct (is_space c) eqn:E; [reflexivity|].
    unfold ends_with_space. cbn. exact E.
  - rewrite ends_with_space_cons. exact IH.
Qed.

End SoupFacts.

(** ** Python strings *)

Module PyFacts.
Import Chars CallerProps SubFacts.

Lemma split_no_sep :
  forall sep s,
    Str.all_chars (fun c => negb (Ascii.eqb c sep)) s = true ->
    Py.split_char sep s = [s].
Proof.
  intros sep. induction s as [|c s IH]; intros H; [reflexivity|].
  cbn [Str.all_chars] in H. apply andb_true_iff in H. destruct H as [Hc Hs].
  apply negb_true_iff in Hc. cbn [Py.split_char]. rewrite Hc, (IH Hs). reflexivity.
Qed.

Lemma split_at_sep :
  forall sep h d,
    Str.all_chars (fun c => negb (Ascii.eqb c sep)) h = true ->
    Py.split_char sep (h ++ String sep d) = h :: Py.split_char sep d.
Proof.
  intros sep. induction h as [|c h IH]; intros d H.
  - cbn [append Py.split_char]. now rewrite Ascii.eqb_refl.
  - cbn [Str.all_chars] in H. apply andb_true_iff in H. destruct H as [Hc Hs].
    apply negb_true_iff in Hc. cbn [append Py.split_char].
    rewrite Hc, (IH d Hs). reflexivity.
Qed.

Lemma split_log_entry :
  forall c,
    Str.all_chars not_bar (fst c) = true ->
    Str.all_chars not_bar (snd c) = true ->
    Py.split_char "|" (log_entry c) = [fst c; snd c].
Proof.
  intros [h d] Hh Hd. unfold log_entry. cbn [fst snd append] in *.
  rewrite (split_at_sep "|" h d Hh). now rewrite (split_no_sep "|" d Hd).
Qed.

Lemma take_drop : forall n s, Str.take n s ++ Str.drop n s = s.
Proof.
  induction n as [|n IH]; intros [|c s]; cbn; try reflexivity. now rewrite IH.
Qed.

Lemma drop_app : forall p s, Str.drop (String.length p) (p ++ s) = s.
Proof. induction p as [|c p IH]; intros s; cbn; [now destruct s|apply IH]. Qed.

Lemma endswith_spec :
  forall s suffix,
    Py.endswith s suffix = true <-> exists p, s = p ++ suffix.
Proof.
  intros s suffix. unfold Py.endswith. split.
  - intros H. apply andb_true_iff in H. destruct H as [_ H].
    apply String.eqb_eq in H.
    exists (Str.take (String.length s - String.length suffix) s).
    rewrite <- H at 2. symmetry. apply take_drop.
  - intros [p ->]. rewrite length_app. apply andb_true_iff. split.
    + apply Nat.leb_le. lia.
    + replace (String.length p + String.length suffix - String.length suffix)
        with (String.length p) by lia.
      rewrite drop_app. apply String.eqb_refl.
Qed.

Lemma splitlines_line :
  forall l rest,
    Str.all_chars not_line_break l = true ->
    Py.splitlines (l ++ String nl rest) = l :: Py.splitlines rest.
Proof.
  induction l as [|c l IH]; intros rest H.
  - cbn [append Py.splitlines]. change (Py.is_line_break nl) with true. cbv iota.
    destruct rest as [|d rest]; [reflexivity|].
    change (Ascii.eqb nl cr) with false. reflexivity.
  - cbn [Str.all_chars] in H. apply andb_true_iff in H. destruct H as [Hc Hl].
    unfold not_line_break in Hc. apply negb_true_iff in Hc.
    cbn [append Py.splitlines]. rewrite Hc, (IH rest Hl). reflexivity.
Qed.

Lemma splitlines_unlines :
  forall lines,
    Forall (fun l => Str.all_chars not_line_break l = true) lines ->
    Py.splitlines (unlines lines) = lines.
Proof.
  intros lines H. induction H as [|l lines Hl _ IH]; [reflexivity|].
  cbn [unlines]. change (l ++ NL ++ unlines lines) with (l ++ String nl (unlines lines)).
  now rewrite splitlines_line, IH.
Qed.

End PyFacts.

(** ** The callers *)

Module CallerFacts.
Import Chars Sys CallerProps.

Lemma bind_ret_l : forall A B (a : A) (f : A -> M B), bind (ret a) f = f a.
Proof. intros. unfold bind, ret. now destruct (f a). Qed.

Lemma bind_ok :
  forall A B (m : M A) (f : A -> M B) o b,
    bind m f = (o, Ok b) ->
    exists o1 a o2, m = (o1, Ok a) /\ f a = (o2, Ok b) /\ o = (o1 ++ o2)%list.
Proof.
  intros A B [o1 [a|e]] f o b H; unfold bind in H; [|discriminate].
  destruct (f a) as [o2 r] eqn:E. injection H as Ho Hr. subst.
  exists o1, a, o2. auto.
Qed.

Lemma bind_print :
  forall B s text (k : M B),
    bind (print s text) (fun _ => k) = (Print s text :: fst k, snd k).
Proof. intros. unfold bind, print. now destruct k. Qed.

Section Env.

Variable git : list string -> option string.
Variable read_file : string -> option string.
Variable parse_date : string -> option string.
Variable now : string.
Variable markdown : string -> string.
Variable BeautifulSoup : string -> Soup.soup.
Variable textstat : FloatScorer.Textstat.

(** The handler of [get_file_content_at_commit] never runs:
    [run_git_command] turns the failure of git into [SystemExit]. *)
Lemma get_file_content_is_run_git :
  forall commit_hash file_path,
    History.get_file_content_at_commit git commit_hash file_path
    = History.run_git_command git ["git"; "show"; commit_hash ++ ":" ++ file_path].
Proof.
  intros h p. unfold History.get_file_content_at_commit, History.run_git_command.
  destruct (git _); reflexivity.
Qed.

Section Rows.

Variable content : string -> string.
Variable score : string -> Float.float.
Variable file_path : string.
Hypothesis scores :
  forall text,
    FloatScorer.calculate_readability markdown BeautifulSoup textstat text
    = Some (score text).

Lemma calculate_readability_ret :
  forall text,
    History.calculate_readability markdown BeautifulSoup textstat text
    = ret (score text).
Proof. intros. unfold History.calculate_readability. now rewrite scores. Qed.

Lemma analyze_commits_rows :
  forall commits acc,
    Forall (readable_commit git content file_path) commits ->
    History.analyze_commits git parse_date markdown BeautifulSoup textstat
      file_path (map log_entry commits) acc
    = (flat_map (commit_warnings parse_date) commits,
       Ok (acc ++ flat_map (commit_rows parse_date content score file_path) commits)%list).
Proof.
  intros commits acc H. revert acc.
  induction H as [|c commits [Hh [Hd Hshow]] _ IH]; intros acc.
  - cbn. now rewrite app_nil_r.
  - cbn [map History.analyze_commits flat_map].
    rewrite (PyFacts.split_log_entry c Hh Hd).
    unfold commit_warnings at 1, commit_rows at 1.
    destruct (parse_date (snd c)) as [d|].
    + rewrite get_file_content_is_run_git. unfold History.run_git_command.
      rewrite Hshow, bind_ret_l.
      destruct (Soup.nonempty (content (fst c))).
      * rewrite calculate_readability_ret, bind_ret_l, IH.
        now rewrite <- app_assoc.
      * rewrite IH. reflexivity.
    + rewrite bind_print, IH. reflexivity.
Qed.

(** An entry that does not split into two parts at the bar ends the loop
    with [ValueError]: the rows gathered so far are not returned. *)
Lemma analyze_commits_bad_entry :
  forall commits bad rest acc,
    Forall (readable_commit git content file_path) commits ->
    List.length (Py.split_char "|" bad) <> 2 ->
    History.analyze_commits git parse_date markdown BeautifulSoup textstat
      file_path (map log_entry commits ++ bad :: rest) acc
    = (flat_map (commit_warnings parse_date) commits, Raise ValueError).
Proof.
  intros commits bad rest acc H Hbad. revert acc.
  induction H as [|c commits [Hh [Hd Hshow]] _ IH]; intros acc.
  - cbn [map app History.analyze_commits flat_map].
    destruct (Py.split_char "|" bad) as [|a [|b [|x l]]]; try reflexivity.
    now contradiction Hbad.
  - cbn [map app History.analyze_commits flat_map].
    rewrite (PyFacts.split_log_entry c Hh Hd).
    unfold commit_warnings at 1.
    destruct (parse_date (snd c)) as [d|].
    + rewrite get_file_content_is_run_git. unfold History.run_git_command.
      rewrite Hshow, bind_ret_l.
      destruct (Soup.nonempty (content (fst c))).
      * rewrite calculate_readability_ret, bind_ret_l, IH. reflexivity.
      * rewrite IH. reflexivity.
    + rewrite bind_print, IH. reflexivity.
Qed.

End Rows.

(** The loop of [analyze_all_files] appends the rows of each file, in the
    order of the files. *)
Lemma analyze_files_concat :
  forall (out : string -> list event) (rows : string -> list row) files acc,
    Forall (fun f =>
              History.analyze_readability git read_file parse_date now
                markdown BeautifulSoup textstat f = (out f, Ok (rows f))) files ->
    History.analyze_files git read_file parse_date now
      markdown BeautifulSoup textstat files acc
    = (flat_map (fun f => Print Stdout ("Analyzing " ++ f ++ " across commits...")
                          :: out f) files,
       Ok (acc ++ flat_map rows files)%list).
Proof.
  intros out rows files acc H. revert acc.
  induction H as [|f files Hf _ IH]; intros acc.
  - cbn. now rewrite app_nil_r.
  - cbn [History.analyze_files flat_map].
    rewrite bind_print, Hf. unfold bind. rewrite IH.
    cbn [fst snd app]. now rewrite <- app_assoc.
Qed.

(** Whatever the outside world does, the loop only adds rows of the file,
    one per entry at most. *)
Lemma analyze_commits_adds :
  forall file_path commits acc o rows,
    History.analyze_commits git parse_date markdown BeautifulSoup textstat
      file_path commits acc = (o, Ok rows) ->
    exists new,
      rows = (acc ++ new)%list
      /\ Forall (fun r => file r = file_path) new
      /\ List.length new <= List.length commits.
Proof.
  intros file_path. induction commits as [|entry commits IH]; intros acc o rows H.
  - cbn in H. injection H as _ <-. exists []. rewrite app_nil_r. cbn. auto.
  - cbn [History.analyze_commits] in H.
    destruct (Py.split_char "|" entry) as [|h [|d [|x l]]]; try discriminate H.
    destruct (parse_date d) as [d'|].
    + apply bind_ok in H. destruct H as [o1 [content [o2 [_ [H _]]]]].
      destruct (Soup.nonempty content).
      * apply bind_ok in H. destruct H as [o3 [sc [o4 [_ [H _]]]]].
        apply IH in H. destruct H as [new [-> [Hf Hl]]].
        exists (Row file_path h d' sc :: new). rewrite <- app_assoc.
        split; [reflexivity|]. split; [constructor; auto|cbn; lia].
      * apply IH in H. destruct H as [new [-> [Hf Hl]]].
        exists new. repeat split; auto. cbn. lia.
    + apply bind_ok in H. destruct H as [o1 [u [o2 [_ [H _]]]]].
      apply IH in H. destruct H as [new [-> [Hf Hl]]].
      exists new. repeat split; auto. cbn. lia.
Qed.

End Env.

(** *** Grouping *)

Lemma group_snoc :
  forall l r,
    History.group_by_file (l ++ [r])
    = History.setdefault_append r (History.group_by_file l).
Proof. intros. unfold History.group_by_file. now rewrite fold_left_app. Qed.

Lemma total_entries_cons :
  forall k es g,
    total_entries ((k, es) :: g) = List.length es + total_entries g.
Proof. reflexivity. Qed.

Lemma setdefault_append_total :
  forall r g, total_entries (History.setdefault_append r g) = S (total_entries g).
Proof.
  intros r. induction g as [|[k es] g IH]; [reflexivity|].
  cbn [History.setdefault_append]. destruct (String.eqb k (file r)).
  - rewrite !total_entries_cons, length_app. cbn. lia.
  - rewrite !total_entries_cons, IH. lia.
Qed.

Lemma group_total : forall l, total_entries (History.group_by_file l) = List.length l.
Proof.
  induction l as [|r l IH] using rev_ind; [reflexivity|].
  now rewrite group_snoc, setdefault_append_total, IH, length_app, Nat.add_comm.
Qed.

Lemma flat_map_length_sum :
  forall (format2f : Float.float -> string) g,
    List.length (flat_map (History.group_lines format2f) g)
    = 3 * List.length g + total_entries g.
Proof.
  intros f. induction g as [|[k es] g IH]; [reflexivity|].
  cbn [flat_map]. rewrite length_app, IH, total_entries_cons.
  unfold History.group_lines. cbn [Datatypes.length snd]. rewrite length_map. lia.
Qed.

Lemma rows_of_snoc :
  forall f l r,
    rows_of f (l ++ [r])
    = (rows_of f l ++ if String.eqb (file r) f then [r] else [])%list.
Proof.
  intros. unfold rows_of. rewrite filter_app. cbn [filter].
  now destruct (String.eqb (file r) f).
Qed.

Lemma rows_of_absent :
  forall f l, existsb (String.eqb f) (map file l) = false -> rows_of f l = [].
Proof.
  intros f. induction l as [|r l IH]; intros H; [reflexivity|].
  cbn [map existsb] in H. apply orb_false_iff in H. destruct H as [H1 H2].
  unfold rows_of in *. cbn [filter]. rewrite String.eqb_sym, H1. now apply IH.
Qed.

Lemma existsb_filter_other :
  forall x a l,
    String.eqb x a = false ->
    existsb (String.eqb x) (filter (fun y => negb (String.eqb y a)) l)
    = existsb (String.eqb x) l.
Proof.
  intros x a l Hxa. induction l as [|y l IH]; [reflexivity|].
  cbn [filter existsb]. destruct (String.eqb y a) eqn:E; cbn [negb existsb].
  - apply String.eqb_eq in E. subst y. now rewrite Hxa, IH.
  - now rewrite IH.
Qed.

Lemma existsb_distinct :
  forall x l, existsb (String.eqb x) (distinct l) = existsb (String.eqb x) l.
Proof.
  intros x. induction l as [|a l IH]; [reflexivity|].
  cbn [distinct existsb]. destruct (String.eqb x a) eqn:E; [reflexivity|].
  cbn [orb]. now rewrite existsb_filter_other, IH.
Qed.

Lemma distinct_snoc :
  forall l x,
    distinct (l ++ [x])
    = if existsb (String.eqb x) l then distinct l else (distinct l ++ [x])%list.
Proof.
  induction l as [|a l IH]; intros x; [reflexivity|].
  cbn [app distinct existsb]. rewrite IH.
  destruct (String.eqb x a) eqn:E; cbn [orb].
  - destruct (existsb (String.eqb x) l); [reflexivity|].
    rewrite filter_app. cbn [filter]. rewrite E. cbn [negb]. now rewrite app_nil_r.
  - destruct (existsb (String.eqb x) l); [reflexivity|].
    rewrite filter_app. cbn [filter]. rewrite E. reflexivity.
Qed.

Lemma in_filter_other :
  forall a l x, In x (filter (fun y => negb (String.eqb y a)) l) -> x <> a.
Proof.
  intros a l x H. apply filter_In in H. destruct H as [_ H].
  apply negb_true_iff in H. now apply String.eqb_neq in H.
Qed.

Lemma distinct_nodup : forall l, NoDup (distinct l).
Proof.
  induction l as [|a l IH]; [constructor|]. cbn [distinct]. constructor.
  - intros H. now apply in_filter_other in H.
  - now apply NoDup_filter.
Qed.

Lemma map_rows_other :
  forall l r keys,
    ~ In (file r) keys ->
    map (fun f => (f, rows_of f (l ++ [r]))) keys
    = map (fun f => (f, rows_of f l)) keys.
Proof.
  intros l r. induction keys as [|k keys IH]; intros H; [reflexivity|].
  cbn [map]. rewrite IH by (intros Hin; apply H; now right).
  rewrite rows_of_snoc.
  destruct (String.eqb (file r) k) eqn:E.
  - apply String.eqb_eq in E. exfalso. apply H. now left.
  - now rewrite app_nil_r.
Qed.

Lemma setdefault_append_keys :
  forall l r keys,
    NoDup keys ->
    History.setdefault_append r (map (fun f => (f, rows_of f l)) keys)
    = if existsb (String.eqb (file r)) keys
      then map (fun f => (f, rows_of f (l ++ [r]))) keys
      else (map (fun f => (f, rows_of f l)) keys ++ [(file r, [r])])%list.
Proof.
  intros l r. induction keys as [|k keys IH]; intros Hnd; [reflexivity|].
  inversion Hnd as [|? ? Hk Hnd']; subst.
  cbn [map History.setdefault_append existsb].
  rewrite (String.eqb_sym (file r) k).
  destruct (String.eqb k (file r)) eqn:E; cbn [orb].
  - apply String.eqb_eq in E. subst k.
    rewrite map_rows_other by assumption.
    now rewrite rows_of_snoc, String.eqb_refl.
  - rewrite (IH Hnd'), rows_of_snoc, String.eqb_sym, E, app_nil_r.
    now destruct (existsb (String.eqb (file r)) keys).
Qed.

(** The groups are the distinct files in the order they first occur, each
    with its rows in their order. *)
Lemma group_by_file_spec :
  forall l,
    History.group_by_file l
    = map (fun f => (f, rows_of f l)) (distinct (map file l)).
Proof.
  induction l as [|r l IH] using rev_ind; [reflexivity|].
  rewrite group_snoc, IH, setdefault_append_keys by apply distinct_nodup.
  rewrite map_app. cbn [map]. rewrite distinct_snoc, existsb_distinct.
  destruct (existsb (String.eqb (file r)) (map file l)) eqn:E; [reflexivity|].
  rewrite map_app. cbn [map]. f_equal.
  - symmetry. apply map_rows_other. intros Hin.
    assert (Hex : existsb (String.eqb (file r)) (distinct (map file l)) = true).
    { apply existsb_exists. exists (file r). split; [exact Hin|apply String.eqb_refl]. }
    rewrite existsb_distinct in Hex. congruence.
  - rewrite rows_of_snoc, String.eqb_refl, (rows_of_absent _ _ E). reflexivity.
Qed.

(** *** Every row in one group *)





(** *** The files kept by their extension *)

Lemma filter_kept :
  forall suffix l,
    kept (has_suffix suffix) l (filter (fun f => Py.endswith f suffix) l).
Proof.
  intros suffix. induction l as [|x l IH]; [constructor|].
  cbn [filter]. destruct (Py.endswith x suffix) eqn:E.
  - apply kept_take; [|exact IH]. now apply PyFacts.endswith_spec.
  - apply kept_drop; [|exact IH]. intros H.
    apply PyFacts.endswith_spec in H. congruence.
Qed.

End CallerFacts.

(** ** The pre-commit hook *)

Module PreCommitFacts.
Import Chars Sys CallerProps CallerFacts.

Section Env.

Variable read_file : string -> option string.
Variable format2f : Float.float -> string.
Variable markdown : string -> string.
Variable BeautifulSoup : string -> Soup.soup.
Variable textstat : FloatScorer.Textstat.
Variable content : string -> string.
Variable score : string -> Float.float.
Hypothesis scores :
  forall text,
    FloatScorer.calculate_readability markdown BeautifulSoup textstat text
    = Some (score text).

(** With every file readable the loop runs to its end, and the flag it
    returns says whether some score was below the threshold. *)
Lemma check_files_flag :
  forall files failed,
    Forall (fun f => read_file f = Some (content f)) files ->
    snd (PreCommit.check_files read_file format2f markdown BeautifulSoup textstat
           files failed)
    = Ok (failed || some_below score (map content files)).
Proof.
  intros files failed H. revert failed.
  induction H as [|f files Hf _ IH]; intros failed.
  - cbn. now rewrite orb_false_r.
  - cbn [PreCommit.check_files map some_below existsb].
    rewrite bind_print, Hf. cbn [snd].
    rewrite (calculate_readability_ret markdown BeautifulSoup textstat score scores),
      bind_ret_l, bind_print. cbn [snd].
    destruct (Float.ltb (score (content f)) PreCommit.THRESHOLD).
    + rewrite bind_print. cbn [snd]. rewrite IH.
      cbn [orb]. now rewrite orb_true_r.
    + rewrite IH. reflexivity.
Qed.

(** At the first file that cannot be read the loop stops: the files after
    it play no part. *)
Lemma check_files_stops :
  forall pre f post failed,
    Forall (fun g => read_file g = Some (content g)) pre ->
    read_file f = None ->
    PreCommit.check_files read_file format2f markdown BeautifulSoup textstat
      (pre ++ f :: post) failed
    = (fst (PreCommit.check_files read_file format2f markdown BeautifulSoup
              textstat pre failed)
       ++ [Print Stdout ("Checking readability for: " ++ f);
           Print Stdout ("  [ERROR] File " ++ f ++ " not found.")],
       Raise (SystemExit 1))%list.
Proof.
  intros pre f post failed H Hf. revert failed.
  induction H as [|g pre Hg _ IH]; intros failed.
  - cbn [app PreCommit.check_files]. rewrite Hf. reflexivity.
  - cbn [app PreCommit.check_files]. rewrite Hg.
    rewrite (calculate_readability_ret markdown BeautifulSoup textstat score scores),
      !bind_ret_l.
    destruct (Float.ltb (score (content g)) PreCommit.THRESHOLD);
      rewrite !bind_print, IH; reflexivity.
Qed.

End Env.

End PreCommitFacts.

(** ** Properties beyond the claims *)

(** X1.  A text that holds no backquote goes through the removal of the
    fenced blocks unchanged. *)
Theorem strip_fenced_code_without_backquote :
  forall s,
    Str.all_chars ReLoops.not_backquote s = true -> strip_fenced_code s = s.
Proof.
  intros s Hs. unfold strip_fenced_code, Re.sub.
  now apply FenceFacts.sub_fenced_backquote_free.
Qed.

Lemma strip_fenced_code_without_backquote_witness :
  Str.all_chars ReLoops.not_backquote ("Some prose." ++ NL ++ "More.") = true
  /\ strip_fenced_code ("Some prose." ++ NL ++ "More.")
     = "Some prose." ++ NL ++ "More.".
Proof.
  split; [reflexivity|].
  apply (strip_fenced_code_without_backquote ("Some prose." ++ NL ++ "More.")).
  reflexivity.
Defined.

(** X2.  A fenced block that opens the document is replaced by one
    newline: whatever its info string (a line), when neither its body nor
    the text after it holds a backquote. *)
Theorem strip_fenced_code_at_start :
  forall info body post,
    Str.all_chars ReLoops.not_newline info = true ->
    Str.all_chars ReLoops.not_backquote body = true ->
    Str.all_chars ReLoops.not_backquote post = true ->
    strip_fenced_code (ReLoops.fenced_block info body ++ post) = NL ++ post.
Proof.
  intros info body post Hi Hb Hp. unfold strip_fenced_code, Re.sub.
  rewrite FenceFacts.fenced_block_app.
  pose proof (FenceFacts.fenced_code_match_at_start info body post Hi Hb) as Hm.
  assert (E : "```" ++ info ++ NL ++ body ++ NL ++ "```" ++ post
              = String bt (String bt (String bt
                  (info ++ NL ++ body ++ NL ++ "```"))) ++ post).
  { cbn [append]. do 3 f_equal.
    rewrite SubFacts.app_assoc. f_equal. cbn [append NL]. f_equal.
    now rewrite SubFacts.app_assoc. }
  rewrite E in Hm |- *.
  rewrite (SubFacts.sub_go_match _ _ _ _ _ _ _ Hm eq_refl).
  cbn [Re.groups Re.expand]. rewrite SubFacts.app_empty_r. f_equal.
  now apply FenceFacts.sub_fenced_backquote_free.
Qed.

Lemma strip_fenced_code_at_start_witness :
  Str.all_chars ReLoops.not_newline "python" = true
  /\ Str.all_chars ReLoops.not_backquote ("x = 1" ++ NL ++ NL ++ "y = 2") = true
  /\ Str.all_chars ReLoops.not_backquote (NL ++ "After.") = true
  /\ strip_fenced_code
       (ReLoops.fenced_block "python" ("x = 1" ++ NL ++ NL ++ "y = 2")
        ++ NL ++ "After.")
     = NL ++ NL ++ "After.".
Proof.
  repeat (split; [reflexivity|]).
  apply (strip_fenced_code_at_start
           "python" ("x = 1" ++ NL ++ NL ++ "y = 2") (NL ++ "After."));
    reflexivity.
Defined.

(** X3.  A fenced block on the line after a line of prose, in the middle
    or at the end of the document, is replaced, with the newline before
    it, by one newline: when the prose ends on a character that is not
    white space and the prose, the body and the text after the block hold
    no backquote. *)
Theorem strip_fenced_code_after_prose :
  forall pre c info body post,
    Str.all_chars ReLoops.not_backquote pre = true ->
    is_space c = false -> ReLoops.not_backquote c = true ->
    Str.all_chars ReLoops.not_newline info = true ->
    Str.all_chars ReLoops.not_backquote body = true ->
    Str.all_chars ReLoops.not_backquote post = true ->
    strip_fenced_code
      (pre ++ String c (NL ++ ReLoops.fenced_block info body ++ post))
    = pre ++ String c (NL ++ post).
Proof.
  intros pre c info body post Hpre Hc Hbq Hi Hb Hp.
  unfold strip_fenced_code, Re.sub.
  set (tail := NL ++ ReLoops.fenced_block info body ++ post).
  replace (pre ++ String c tail) with ((pre ++ String c "") ++ tail)
    by (now rewrite SubFacts.app_assoc).
  rewrite SubFacts.sub_go_copy.
  - rewrite SubFacts.prev_after_app. cbn [ReLoops.prev_after].
    rewrite SubFacts.app_assoc. cbn [append]. do 2 f_equal.
    unfold tail. rewrite FenceFacts.fenced_block_app.
    pose proof (FenceFacts.fenced_code_match_after_line c info body post Hc Hi Hb)
      as Hm.
    assert (E : NL ++ "```" ++ info ++ NL ++ body ++ NL ++ "```" ++ post
                = String nl (String bt (String bt (String bt
                    (info ++ NL ++ body ++ NL ++ "```")))) ++ post).
    { cbn [append NL]. do 4 f_equal.
      rewrite SubFacts.app_assoc. f_equal. cbn [append NL]. f_equal.
      now rewrite SubFacts.app_assoc. }
    change (String nl ("```" ++ info ++ NL ++ body ++ NL ++ "```" ++ post))
      with (NL ++ "```" ++ info ++ NL ++ body ++ NL ++ "```" ++ post) in Hm.
    rewrite E in Hm |- *.
    rewrite (SubFacts.sub_go_match _ _ _ _ _ _ _ Hm eq_refl).
    cbn [Re.groups Re.expand]. rewrite SubFacts.app_empty_r.
    cbn [append NL]. f_equal.
    now apply FenceFacts.sub_fenced_backquote_free.
  - intros b1 d b2 Hw.
    destruct (FenceFacts.suffix_of_line _ _ _ _ _ _ Hpre Hw) as [t [Et Ht]].
    rewrite Et, SubFacts.app_assoc. cbn [append].
    now apply FenceFacts.fenced_code_no_match_in_prose.
Qed.

Lemma strip_fenced_code_after_prose_witness :
  Str.all_chars ReLoops.not_backquote "Before" = true
  /\ is_space "." = false /\ ReLoops.not_backquote "." = true
  /\ Str.all_chars ReLoops.not_newline "" = true
  /\ Str.all_chars ReLoops.not_backquote "x = 1" = true
  /\ Str.all_chars ReLoops.not_backquote "" = true
  /\ strip_fenced_code
       ("Before" ++ String "." (NL ++ ReLoops.fenced_block "" "x = 1" ++ ""))
     = "Before" ++ String "." (NL ++ "").
Proof.
  repeat (split; [reflexivity|]).
  apply (strip_fenced_code_after_prose "Before" "."%char "" "x = 1" "");
    reflexivity.
Defined.

(** X4.  Whatever the libraries return, the text returned by
    [markdown_to_text] holds no two newlines in a row; the same goes for
    the variant of [readability.py]. *)
Theorem normalized_text_has_no_blank_line :
  (forall markdown BeautifulSoup input,
      ReLoops.has_blank_line (markdown_to_text markdown BeautifulSoup input) = false)
  /\ (forall markdown BeautifulSoup input,
         ReLoops.has_blank_line
           (Standalone.markdown_to_text markdown BeautifulSoup input) = false).
Proof.
  split; intros md bs input.
  - unfold markdown_to_text, soup_to_text. apply TidyFacts.tidy_no_blank_line.
  - unfold Standalone.markdown_to_text. apply TidyFacts.tidy_no_blank_line.
Qed.

(** X5.  On a text without an opening brace the three substitutions do
    this and nothing else: each run of newlines becomes one newline, and
    then each newline that follows an ASCII letter becomes a space.  A
    text that holds neither brace nor newline is returned as it is. *)
Theorem tidy_without_brace :
  forall text,
    Str.all_chars ReLoops.not_brace text = true ->
    tidy text = join_wrapped_lines None (ReLoops.squeeze_newlines text)
    /\ (Str.all_chars ReLoops.not_newline text = true -> tidy text = text).
Proof.
  intros text Hb.
  assert (E : tidy text = join_wrapped_lines None (ReLoops.squeeze_newlines text)).
  { rewrite TidyFacts.tidy_steps. now rewrite TidyFacts.sub_template_without_brace. }
  split; [exact E|]. intros Hn. rewrite E. clear E Hb.
  assert (Hs : forall s, Str.all_chars ReLoops.not_newline s = true ->
                         ReLoops.squeeze_newlines s = s).
  { induction s as [|c s IH]; intros H; [reflexivity|].
    cbn [Str.all_chars] in H. apply andb_true_iff in H. destruct H as [Hc Hs].
    unfold ReLoops.not_newline in Hc. apply negb_true_iff in Hc.
    rewrite TidyFacts.squeeze_cons_other by assumption. now rewrite IH. }
  rewrite (Hs text Hn). generalize (@None ascii).
  induction text as [|c s IH]; intros p; [reflexivity|].
  cbn [Str.all_chars] in Hn. apply andb_true_iff in Hn. destruct Hn as [Hc Hn].
  unfold ReLoops.not_newline in Hc. apply negb_true_iff in Hc.
  cbn [join_wrapped_lines]. rewrite (IH Hn).
  destruct p; [rewrite Hc, andb_false_r|]; reflexivity.
Qed.

Lemma tidy_without_brace_witness :
  Str.all_chars ReLoops.not_brace ("one" ++ NL ++ NL ++ "two 2" ++ NL ++ "x") = true
  /\ tidy ("one" ++ NL ++ NL ++ "two 2" ++ NL ++ "x") = "one two 2" ++ NL ++ "x".
Proof.
  split; [reflexivity|].
  apply (tidy_without_brace ("one" ++ NL ++ NL ++ "two 2" ++ NL ++ "x")).
  reflexivity.
Defined.

(** X6.  The three substitutions never make the text longer. *)
Theorem tidy_never_longer :
  forall text, String.length (tidy text) <= String.length text.
Proof.
  intros text. rewrite TidyFacts.tidy_steps, TidyFacts.join_wrapped_length.
  etransitivity; [apply TidyFacts.squeeze_length|].
  apply SubFacts.sub_go_delete_length.
Qed.

(** X7.  The tree the text is read from holds, at any depth, none of the
    fourteen removed elements and no link. *)
Theorem text_tree_has_no_removed_element :
  forall soup,
    existsb (SoupProps.has_tag unwanted)
            (map replace_links (decompose_all unwanted soup)) = false
    /\ existsb (SoupProps.has_tag ["a"])
               (map replace_links (decompose_all unwanted soup)) = false.
Proof.
  intros soup. split.
  - pose proof (SoupFacts.decompose_all_clean unwanted soup) as H.
    induction (decompose_all unwanted soup) as [|n f IH]; [reflexivity|].
    cbn [existsb] in H. apply orb_false_iff in H. destruct H as [H1 H2].
    cbn [map existsb].
    now rewrite (SoupFacts.replace_links_no_new_tag _ _ H1), (IH H2).
  - induction (decompose_all unwanted soup) as [|n f IH]; [reflexivity|].
    cbn [map existsb]. now rewrite SoupFacts.replace_links_no_link, IH.
Qed.

(** X8.  A tree that holds none of the named elements is left as it is by
    their removal. *)
Theorem decompose_all_keeps_clean_tree :
  forall names soup,
    existsb (SoupProps.has_tag names) soup = false ->
    decompose_all names soup = soup.
Proof. exact SoupFacts.decompose_all_id. Qed.

Lemma decompose_all_keeps_clean_tree_witness :
  existsb (SoupProps.has_tag unwanted)
          [Tag "p" [] [NavigableString "Some "; Tag "em" [] [NavigableString "text"]]]
  = false
  /\ decompose_all unwanted
       [Tag "p" [] [NavigableString "Some "; Tag "em" [] [NavigableString "text"]]]
     = [Tag "p" [] [NavigableString "Some "; Tag "em" [] [NavigableString "text"]]].
Proof.
  split; [reflexivity|].
  apply (decompose_all_keeps_clean_tree unwanted
           [Tag "p" [] [NavigableString "Some ";
                        Tag "em" [] [NavigableString "text"]]]).
  reflexivity.
Defined.

(** X9.  The removal done twice is the removal done once. *)
Theorem decompose_all_idempotent :
  forall names soup,
    decompose_all names (decompose_all names soup) = decompose_all names soup.
Proof.
  intros. apply SoupFacts.decompose_all_id, SoupFacts.decompose_all_clean.
Qed.

(** X10.  The replacement of the links loses no text and adds none: the
    concatenation of all the strings of the tree is the same before and
    after. *)
Theorem replace_links_keeps_text :
  forall soup,
    Str.join (flat_map strings (map replace_links soup))
    = Str.join (flat_map strings soup).
Proof.
  intros soup. induction soup as [|n f IH]; [reflexivity|].
  cbn [map flat_map].
  now rewrite !SoupFacts.join_app, SoupFacts.replace_links_text, IH.
Qed.

(** X11.  Comments give nothing to the result: a tree and the same tree
    without its comments have the same text. *)
Theorem comments_give_no_text :
  forall soup,
    soup_to_text (flat_map SoupProps.drop_comments soup) = soup_to_text soup.
Proof.
  intros soup. unfold soup_to_text, stripped_strings. do 4 f_equal.
  induction soup as [|n f IH]; [reflexivity|].
  cbn [flat_map]. rewrite NormalizerFacts.decompose_all_app, map_app, flat_map_app.
  rewrite SoupFacts.pipeline_strings_drop_comments, IH.
  rewrite NormalizerFacts.decompose_all_cons, map_app, flat_map_app. reflexivity.
Qed.

(** X12.  Every fragment joined into the text is non-empty and neither
    starts nor ends with white space. *)
Theorem fragments_are_trimmed :
  forall soup,
    Forall (fun s => s <> ""
                     /\ SoupProps.starts_with_space s = false
                     /\ SoupProps.ends_with_space s = false)
           (stripped_strings soup).
Proof.
  intros soup. unfold stripped_strings. apply Forall_forall. intros s Hs.
  apply filter_In in Hs. destruct Hs as [Hin Hne].
  apply in_map_iff in Hin. destruct Hin as [t [Ht _]]. subst s.
  split; [intros E; rewrite E in Hne; discriminate|]. split.
  - apply SoupFacts.rstrip_start, SoupFacts.lstrip_start.
  - apply SoupFacts.rstrip_end.
Qed.

(** X13.  When [max_val] differs from [min_val], [normalize_score] sends
    [min_val] to 0 and [max_val] to 1. *)
Theorem normalize_score_endpoints :
  forall lo hi : Q,
    ~ (hi == lo)%Q ->
    exists v0 v1,
      normalize_score lo lo hi = Some v0 /\ (v0 == 0)%Q
      /\ normalize_score hi lo hi = Some v1 /\ (v1 == 1)%Q.
Proof.
  intros lo hi H. unfold normalize_score.
  assert (Hd : ~ (hi - lo == 0)%Q) by (intros E; apply H; lra).
  destruct (Qeq_bool (hi - lo) 0) eqn:E; [apply Qeq_bool_iff in E; contradiction|].
  do 2 eexists. repeat split; try reflexivity.
  - now field.
  - now field.
Qed.

Lemma normalize_score_endpoints_witness :
  ~ (6 == 19)%Q
  /\ exists v0 v1,
      normalize_score 19 19 6 = Some v0 /\ (v0 == 0)%Q
      /\ normalize_score 6 19 6 = Some v1 /\ (v1 == 1)%Q.
Proof.
  split; [discriminate|].
  apply (normalize_score_endpoints 19 6). discriminate.
Defined.

(** X15.  Raw values inside their calibration ranges give a composite
    score between 0 and 100. *)
Theorem composite_score_in_range :
  forall fre gf cli ari dc : Q,
    (0 <= fre <= 100)%Q -> (6 <= gf <= 19)%Q -> (6 <= cli <= 19)%Q ->
    (6 <= ari <= 22)%Q -> (4.9 <= dc <= 11)%Q ->
    exists v,
      composite_score (scores_dict fre gf cli ari dc) = Some v
      /\ (0 <= v <= 100)%Q.
Proof.
  intros fre gf cli ari dc H1 H2 H3 H4 H5.
  destruct (ScorerFacts.composite_score_formula fre gf cli ari dc) as [v [Hv Ev]].
  exists v. split; [exact Hv|]. rewrite Ev.
  now apply ScorerFacts.composite_formula_range.
Qed.

Lemma composite_score_in_range_witness :
  (0 <= 100 <= 100)%Q /\ (6 <= 6 <= 19)%Q /\ (6 <= 19 <= 19)%Q
  /\ (6 <= 10 <= 22)%Q /\ (4.9 <= 8 <= 11)%Q
  /\ exists v,
      composite_score (scores_dict 100 6 19 10 8) = Some v /\ (0 <= v <= 100)%Q.
Proof.
  repeat (split; [split; discriminate|]).
  apply (composite_score_in_range 100 6 19 10 8); split; discriminate.
Defined.

(** X29.  The loop has no guard against a NaN: when one of the five raw
    values is a NaN the composite score is a NaN, whatever the other four
    are, and it is returned as the score. *)
Theorem composite_score_nan_propagates :
  forall (raw : metric_id -> Float.float) (m : metric_id),
    raw m = Float.NaN ->
    FloatScorer.composite_score (FloatProps.raw_scores raw) = Some Float.NaN.
Proof.
  intros raw m H. unfold FloatScorer.composite_score.
  rewrite (FloatFacts.weighted_sum_nan FloatScorer.readability_metrics
             (FloatProps.raw_scores raw) FloatFacts.divisors_nonzero);
    [reflexivity|].
  unfold FloatScorer.readability_metrics, FloatProps.raw_scores,
    FloatScorer.scores_dict.
  destruct m;
    [ apply Exists_cons_hd
    | apply Exists_cons_tl, Exists_cons_hd
    | do 2 apply Exists_cons_tl; apply Exists_cons_hd
    | do 3 apply Exists_cons_tl; apply Exists_cons_hd
    | do 4 apply Exists_cons_tl; apply Exists_cons_hd ];
    exact H.
Qed.

Lemma composite_score_nan_propagates_witness :
  FloatScorer.composite_score
    (FloatScorer.scores_dict (Float.literal 60) (Float.literal 10) Float.NaN
       (Float.Inf false) (Float.literal 8))
  = Some Float.NaN.
Proof.
  apply (composite_score_nan_propagates
           (fun m => match m with
                     | FRE => Float.literal 60
                     | GF => Float.literal 10
                     | CLI => Float.NaN
                     | ARI => Float.Inf false
                     | DC => Float.literal 8
                     end)
           CLI).
  reflexivity.
Defined.


(** X18.  When [git ls-files] prints one name per line and no name holds
    a line boundary, [get_all_markdown_files] returns the names as they
    are, in their order, and prints nothing. *)
Theorem get_all_markdown_files_names :
  forall git names,
    Forall (fun l => Str.all_chars CallerProps.not_line_break l = true) names ->
    git ["git"; "ls-files"; "*.md"] = Some (CallerProps.unlines names) ->
    History.get_all_markdown_files git = ([], Sys.Ok names).
Proof.
  intros git names Hn Hg.
  unfold History.get_all_markdown_files, History.run_git_command.
  rewrite Hg, CallerFacts.bind_ret_l. unfold Sys.ret.
  now rewrite (PyFacts.splitlines_unlines names Hn).
Qed.

Lemma get_all_markdown_files_names_witness :
  History.get_all_markdown_files
    (fun _ => Some (CallerProps.unlines ["README.md"; "docs/a b.md"]))
  = ([], Sys.Ok ["README.md"; "docs/a b.md"]).
Proof.
  apply (get_all_markdown_files_names
           (fun _ => Some (CallerProps.unlines ["README.md"; "docs/a b.md"]))
           ["README.md"; "docs/a b.md"]).
  - repeat constructor.
  - reflexivity.
Defined.

(** X19.  The warning of [get_file_content_at_commit] is never printed and
    the empty string never returned for a failure: the function returns
    what git prints, or the process ends with status 1 after the error
    message. *)
Theorem get_file_content_returns_or_exits :
  forall git commit_hash file_path,
    let command := ["git"; "show"; commit_hash ++ ":" ++ file_path] in
    match git command with
    | Some stdout =>
        History.get_file_content_at_commit git commit_hash file_path
        = ([], Sys.Ok stdout)
    | None =>
        History.get_file_content_at_commit git commit_hash file_path
        = ([Sys.Print Sys.Stderr
              ("Error: Unable to run git command: " ++ Py.join " " command)],
           Sys.Raise (Sys.SystemExit 1))
    end.
Proof.
  intros git h p command. rewrite CallerFacts.get_file_content_is_run_git.
  unfold History.run_git_command. fold command.
  destruct (git command); reflexivity.
Qed.

(** X20.  With a log whose entries are [hash|date], contents that git
    shows and metrics that return, [analyze_readability] returns one row
    for each commit whose date parses and whose content is not empty, in
    the order of the log, then the row [STAGED] when the file exists; it
    prints one warning for each date that does not parse. *)
Theorem analyze_readability_rows :
  forall git read_file parse_date now markdown BeautifulSoup textstat
         file_path stdout commits content score,
    file_path <> "" ->
    git ["git"; "log"; "--format=%H|%cd"; "--date=iso-local"; file_path]
    = Some stdout ->
    Py.splitlines stdout = map CallerProps.log_entry commits ->
    Forall (CallerProps.readable_commit git content file_path) commits ->
    (forall text,
        FloatScorer.calculate_readability markdown BeautifulSoup textstat text
        = Some (score text)) ->
    History.analyze_readability git read_file parse_date now
      markdown BeautifulSoup textstat file_path
    = (flat_map (CallerProps.commit_warnings parse_date) commits,
       Sys.Ok
         (flat_map (CallerProps.commit_rows parse_date content score file_path)
                   commits
          ++ match read_file file_path with
             | Some c => [Sys.Row file_path "STAGED" now (score c)]
             | None => []
             end)%list).
Proof.
  intros git read_file parse_date now md bs ts file_path stdout commits content
         score Hp Hlog Hlines Hc Hs.
  unfold History.analyze_readability, History.get_commit_history.
  destruct file_path as [|c0 p0]; [contradiction|].
  cbn [Py.truthy app]. unfold History.run_git_command.
  rewrite Hlog, !CallerFacts.bind_ret_l, Hlines.
  rewrite (CallerFacts.analyze_commits_rows git parse_date md bs ts content score
             (String c0 p0) Hs commits [] Hc).
  cbn [app]. unfold Sys.bind at 1. cbn [app].
  destruct (read_file (String c0 p0)) as [c|].
  - rewrite CallerFacts.bind_ret_l, (CallerFacts.calculate_readability_ret md bs ts score Hs),
      CallerFacts.bind_ret_l.
    cbn. now rewrite app_nil_r.
  - cbn. now rewrite !app_nil_r.
Qed.

Lemma analyze_readability_rows_witness :
  "README.md" <> ""
  /\ Sample.git ["git"; "log"; "--format=%H|%cd"; "--date=iso-local"; "README.md"]
     = Some ("a1|2024-05-01" ++ NL ++ "b2|someday" ++ NL ++ "c3|2024-05-03" ++ NL)
  /\ Forall (CallerProps.readable_commit Sample.git Sample.content "README.md")
            Sample.commits
  /\ History.analyze_readability Sample.git Sample.read_file Sample.parse_date
       "now" Md.markdown Html.BeautifulSoup Sample.textstat "README.md"
     = ([Sys.Print Sys.Stderr "Warning: Invalid date format for commit b2"],
        Sys.Ok [Sys.Row "README.md" "a1" "2024-05-01T00:00:00+00:00"
                        (Sample.score Sample.document);
                Sys.Row "README.md" "STAGED" "now" (Sample.score Sample.document)]).
Proof.
  split; [discriminate|]. split; [reflexivity|].
  assert (Hc : Forall (CallerProps.readable_commit Sample.git Sample.content
                         "README.md") Sample.commits).
  { repeat constructor. }
  split; [exact Hc|].
  apply (analyze_readability_rows
           Sample.git Sample.read_file Sample.parse_date "now"
           Md.markdown Html.BeautifulSoup Sample.textstat "README.md"
           ("a1|2024-05-01" ++ NL ++ "b2|someday" ++ NL ++ "c3|2024-05-03" ++ NL)
           Sample.commits Sample.content Sample.score).
  - discriminate.
  - reflexivity.
  - reflexivity.
  - exact Hc.
  - intros text. reflexivity.
Defined.

(** X21.  Whatever git, the file system and the metrics do: when
    [analyze_readability] returns, every row it returns is a row of the
    file asked for, and there is at most one row per entry of the log,
    plus one. *)
Theorem analyze_readability_rows_are_of_the_file :
  forall git read_file parse_date now markdown BeautifulSoup textstat
         file_path out rows,
    History.analyze_readability git read_file parse_date now
      markdown BeautifulSoup textstat file_path = (out, Sys.Ok rows) ->
    Forall (fun r => Sys.file r = file_path) rows
    /\ exists stdout,
         History.run_git_command git
           (["git"; "log"; "--format=%H|%cd"; "--date=iso-local"]
            ++ if Py.truthy (Some file_path) then [file_path] else [])
         = ([], Sys.Ok stdout)
         /\ List.length rows <= S (List.length (Py.splitlines stdout)).
Proof.
  intros git read_file parse_date now md bs ts file_path out rows H.
  unfold History.analyze_readability in H.
  apply CallerFacts.bind_ok in H. destruct H as [o1 [commits [o2 [Hlog [H _]]]]].
  apply CallerFacts.bind_ok in H. destruct H as [o3 [results [o4 [Hloop [H _]]]]].
  apply CallerFacts.analyze_commits_adds in Hloop.
  destruct Hloop as [new [-> [Hf Hl]]]. cbn [app] in *.
  unfold History.get_commit_history in Hlog.
  apply CallerFacts.bind_ok in Hlog.
  destruct Hlog as [o5 [stdout [o6 [Hgit [Hret _]]]]].
  injection Hret as _ <-.
  assert (Hcmd : History.run_git_command git
                   (["git"; "log"; "--format=%H|%cd"; "--date=iso-local"]
                    ++ if Py.truthy (Some file_path) then [file_path] else [])
                 = ([], Sys.Ok stdout)).
  { destruct file_path as [|c p]; cbn [Py.truthy app] in *;
      unfold History.run_git_command in *;
      destruct (git _); [now injection Hgit as _ ->|discriminate
                        |now injection Hgit as _ ->|discriminate]. }
  assert (Hrows : rows = new
                  \/ exists sc, rows = (new ++ [Sys.Row file_path "STAGED" now sc])%list).
  { destruct (read_file file_path) as [c|].
    - rewrite CallerFacts.bind_ret_l in H.
      unfold History.calculate_readability in H.
      destruct (FloatScorer.calculate_readability md bs ts c) as [sc|].
      + rewrite CallerFacts.bind_ret_l in H. cbn in H. injection H as _ <-.
        right. now exists sc.
      + cbn in H. discriminate H.
    - cbn in H. injection H as _ <-. now left. }
  split.
  - destruct Hrows as [->|[sc ->]]; [exact Hf|].
    apply Forall_app. split; [exact Hf|]. now constructor.
  - exists stdout. split; [exact Hcmd|].
    destruct Hrows as [->|[sc ->]]; [lia|].
    rewrite length_app. cbn. lia.
Qed.

Lemma analyze_readability_rows_are_of_the_file_witness :
  Forall (fun r => Sys.file r = "README.md")
         [Sys.Row "README.md" "a1" "2024-05-01T00:00:00+00:00"
                  (Sample.score Sample.document);
          Sys.Row "README.md" "STAGED" "now" (Sample.score Sample.document)].
Proof.
  apply (analyze_readability_rows_are_of_the_file
           Sample.git Sample.read_file Sample.parse_date "now"
           Md.markdown Html.BeautifulSoup Sample.textstat "README.md"
           [Sys.Print Sys.Stderr "Warning: Invalid date format for commit b2"]
           [Sys.Row "README.md" "a1" "2024-05-01T00:00:00+00:00"
                    (Sample.score Sample.document);
            Sys.Row "README.md" "STAGED" "now" (Sample.score Sample.document)]).
  vm_compute. reflexivity.
Defined.

(** X22.  [display_results] groups the rows by file: the groups are the
    distinct files in the order of their first row, and each group holds
    the rows of its file in the order of the results. *)
Theorem group_by_file_groups :
  forall results,
    History.group_by_file results
    = map (fun f => (f, CallerProps.rows_of f results))
          (CallerProps.distinct (map Sys.file results)).
Proof. exact CallerFacts.group_by_file_spec. Qed.


(** X24.  With the staged files readable and the metrics returning, the
    hook ends with status 1 when the score of some staged Markdown file
    is below 50.0, and with status 0 otherwise; the scores are the doubles
    the scorer computes and the comparison is the one of floats, so that
    a score of exactly 50.0 passes, a NaN passes, and so does an empty
    list of files. *)
Theorem precommit_exit_status :
  forall git read_file format2f markdown BeautifulSoup textstat
         stdout content score,
    git ["git"; "diff"; "--cached"; "--name-only"; "--diff-filter=ACM"]
    = Some stdout ->
    Forall (fun f => read_file f = Some (content f))
           (filter (fun f => Py.endswith f ".md") (Py.splitlines stdout)) ->
    (forall text,
        FloatScorer.calculate_readability markdown BeautifulSoup textstat text
        = Some (score text)) ->
    snd (PreCommit.main git read_file format2f markdown BeautifulSoup textstat)
    = Sys.Raise
        (Sys.SystemExit
           (if CallerProps.some_below score
                 (map content
                      (filter (fun f => Py.endswith f ".md") (Py.splitlines stdout)))
            then 1 else 0)).
Proof.
  intros git read_file format2f md bs ts stdout content score Hg Hr Hs.
  unfold PreCommit.main, PreCommit.get_staged_files. rewrite Hg.
  rewrite CallerFacts.bind_ret_l.
  set (files := filter (fun f => Py.endswith f ".md") (Py.splitlines stdout)) in *.
  pose proof (PreCommitFacts.check_files_flag read_file format2f md bs ts
                content score Hs files false Hr) as Hflag.
  destruct files as [|f files]; [reflexivity|].
  destruct (PreCommit.check_files read_file format2f md bs ts (f :: files) false)
    as [o r]. cbn [snd] in Hflag. subst r. cbn [orb].
  unfold Sys.bind.
  destruct (CallerProps.some_below score (map content (f :: files))); reflexivity.
Qed.

Lemma precommit_exit_status_witness :
  Sample.git ["git"; "diff"; "--cached"; "--name-only"; "--diff-filter=ACM"]
  = Some ("README.md" ++ NL ++ "notes.txt" ++ NL ++ "docs/guide.md" ++ NL)
  /\ snd (PreCommit.main Sample.git Sample.read_file Sample.format2f
            Md.markdown Html.BeautifulSoup Sample.textstat)
     = Sys.Raise (Sys.SystemExit 1).
Proof.
  split; [reflexivity|].
  apply (precommit_exit_status
           Sample.git Sample.read_file Sample.format2f
           Md.markdown Html.BeautifulSoup Sample.textstat
           ("README.md" ++ NL ++ "notes.txt" ++ NL ++ "docs/guide.md" ++ NL)
           (fun f => match Sample.read_file f with Some c => c | None => "" end)
           Sample.score).
  - reflexivity.
  - repeat constructor.
  - intros text. reflexivity.
Defined.

(** X25.  At the first staged file that cannot be read the hook stops with
    status 1: the files after it are neither read nor scored, whatever
    they are. *)
Theorem precommit_stops_at_missing_file :
  forall read_file format2f markdown BeautifulSoup textstat
         content score pre f post failed,
    (forall text,
        FloatScorer.calculate_readability markdown BeautifulSoup textstat text
        = Some (score text)) ->
    Forall (fun g => read_file g = Some (content g)) pre ->
    read_file f = None ->
    PreCommit.check_files read_file format2f markdown BeautifulSoup textstat
      (pre ++ f :: post) failed
    = (fst (PreCommit.check_files read_file format2f markdown BeautifulSoup
              textstat pre failed)
       ++ [Sys.Print Sys.Stdout ("Checking readability for: " ++ f);
           Sys.Print Sys.Stdout ("  [ERROR] File " ++ f ++ " not found.")],
       Sys.Raise (Sys.SystemExit 1))%list.
Proof.
  intros read_file format2f md bs ts content score pre f post failed Hs Hp Hf.
  now apply (PreCommitFacts.check_files_stops read_file format2f md bs ts
               content score Hs).
Qed.

Lemma precommit_stops_at_missing_file_witness :
  Sample.read_file "gone.md" = None
  /\ snd (PreCommit.check_files Sample.read_file Sample.format2f
            Md.markdown Html.BeautifulSoup Sample.textstat
            (["README.md"] ++ "gone.md" :: ["docs/guide.md"]) false)
     = Sys.Raise (Sys.SystemExit 1).
Proof.
  split; [reflexivity|].
  rewrite (precommit_stops_at_missing_file
             Sample.read_file Sample.format2f
             Md.markdown Html.BeautifulSoup Sample.textstat
             (fun f => match Sample.read_file f with Some c => c | None => "" end)
             Sample.score ["README.md"] "gone.md" ["docs/guide.md"] false).
  - reflexivity.
  - intros text. reflexivity.
  - repeat constructor.
  - reflexivity.
Defined.

(** X26.  When git returns, [get_staged_files] returns, without printing,
    the lines of its output that end with the extension and no other: each
    as often as it occurs, in the order of the output. *)
Theorem get_staged_files_keeps_suffix :
  forall git extension stdout,
    git ["git"; "diff"; "--cached"; "--name-only"; "--diff-filter=ACM"]
    = Some stdout ->
    exists files,
      PreCommit.get_staged_files git extension = ([], Sys.Ok files)
      /\ CallerProps.kept (CallerProps.has_suffix extension)
                          (Py.splitlines stdout) files.
Proof.
  intros git ext stdout Hg. unfold PreCommit.get_staged_files. rewrite Hg.
  eexists. split; [reflexivity|]. apply CallerFacts.filter_kept.
Qed.

Lemma get_staged_files_keeps_suffix_witness :
  exists files,
    PreCommit.get_staged_files Sample.git ".md" = ([], Sys.Ok files)
    /\ CallerProps.kept (CallerProps.has_suffix ".md")
         (Py.splitlines
            ("README.md" ++ NL ++ "notes.txt" ++ NL ++ "docs/guide.md" ++ NL))
         files.
Proof.
  apply (get_staged_files_keeps_suffix Sample.git ".md"
           ("README.md" ++ NL ++ "notes.txt" ++ NL ++ "docs/guide.md" ++ NL)).
  reflexivity.
Defined.

(** X27.  An entry of the log that does not split into exactly two parts
    at the bar makes [analyze_readability] raise [ValueError]: the rows
    of the entries before it are lost and the staged file is not read. *)
Theorem analyze_readability_malformed_entry :
  forall git read_file parse_date now markdown BeautifulSoup textstat
         file_path stdout commits bad rest content score,
    file_path <> "" ->
    git ["git"; "log"; "--format=%H|%cd"; "--date=iso-local"; file_path]
    = Some stdout ->
    Py.splitlines stdout = (map CallerProps.log_entry commits ++ bad :: rest)%list ->
    List.length (Py.split_char "|" bad) <> 2 ->
    Forall (CallerProps.readable_commit git content file_path) commits ->
    (forall text,
        FloatScorer.calculate_readability markdown BeautifulSoup textstat text
        = Some (score text)) ->
    History.analyze_readability git read_file parse_date now
      markdown BeautifulSoup textstat file_path
    = (flat_map (CallerProps.commit_warnings parse_date) commits,
       Sys.Raise Sys.ValueError).
Proof.
  intros git read_file parse_date now md bs ts file_path stdout commits bad rest
         content score Hp Hlog Hlines Hbad Hc Hs.
  unfold History.analyze_readability, History.get_commit_history.
  destruct file_path as [|c0 p0]; [contradiction|].
  cbn [Py.truthy app]. unfold History.run_git_command.
  rewrite Hlog, !CallerFacts.bind_ret_l, Hlines.
  rewrite (CallerFacts.analyze_commits_bad_entry git parse_date md bs ts content
             score (String c0 p0) Hs commits bad rest [] Hc Hbad).
  reflexivity.
Qed.

Lemma analyze_readability_malformed_entry_witness :
  List.length (Py.split_char "|" "a1|Mon|2024") <> 2
  /\ History.analyze_readability
       (fun command =>
          if String.eqb (nth 1 command "") "log"
          then Some ("0f|2024-04-30" ++ NL ++ "a1|Mon|2024" ++ NL)
          else Some Sample.document)
       Sample.read_file Sample.parse_date "now"
       Md.markdown Html.BeautifulSoup Sample.textstat "README.md"
     = ([], Sys.Raise Sys.ValueError).
Proof.
  split; [discriminate|].
  apply (analyze_readability_malformed_entry
           (fun command =>
              if String.eqb (nth 1 command "") "log"
              then Some ("0f|2024-04-30" ++ NL ++ "a1|Mon|2024" ++ NL)
              else Some Sample.document)
           Sample.read_file Sample.parse_date "now"
           Md.markdown Html.BeautifulSoup Sample.textstat "README.md"
           ("0f|2024-04-30" ++ NL ++ "a1|Mon|2024" ++ NL)
           [("0f", "2024-04-30")] "a1|Mon|2024" []
           (fun _ => Sample.document) Sample.score).
  - discriminate.
  - reflexivity.
  - reflexivity.
  - discriminate.
  - repeat constructor.
  - intros text. reflexivity.
Defined.

(** X28.  The loop of [analyze_all_files] returns the rows of the files
    one file after the other, in the order of the list of files, and
    prints the line [Analyzing ...] of a file before what the analysis of
    that file prints. *)
Theorem analyze_files_rows_in_file_order :
  forall git read_file parse_date now markdown BeautifulSoup textstat
         (out : string -> list Sys.event) (rows : string -> list Sys.row) files,
    Forall (fun f =>
              History.analyze_readability git read_file parse_date now
                markdown BeautifulSoup textstat f = (out f, Sys.Ok (rows f)))
           files ->
    History.analyze_files git read_file parse_date now
      markdown BeautifulSoup textstat files []
    = (flat_map (fun f =>
                   Sys.Print Sys.Stdout ("Analyzing " ++ f ++ " across commits...")
                   :: out f) files,
       Sys.Ok (flat_map rows files)).
Proof.
  intros git read_file parse_date now md bs ts out rows files H.
  exact (CallerFacts.analyze_files_concat git read_file parse_date now md bs ts
           out rows files [] H).
Qed.

Lemma analyze_files_rows_in_file_order_witness :
  snd (History.analyze_files Sample.git Sample.read_file Sample.parse_date "now"
         Md.markdown Html.BeautifulSoup Sample.textstat
         ["README.md"; "gone.md"] [])
  = Sys.Ok [Sys.Row "README.md" "a1" "2024-05-01T00:00:00+00:00"
                    (Sample.score Sample.document);
            Sys.Row "README.md" "STAGED" "now" (Sample.score Sample.document);
            Sys.Row "gone.md" "a1" "2024-05-01T00:00:00+00:00"
                    (Sample.score Sample.document);
            Sys.Row "gone.md" "c3" "2024-05-03T00:00:00+00:00"
                    (Sample.score Sample.document)].
Proof.
  rewrite (analyze_files_rows_in_file_order
             Sample.git Sample.read_file Sample.parse_date "now"
             Md.markdown Html.BeautifulSoup Sample.textstat
             (fun f => fst (History.analyze_readability Sample.git Sample.read_file
                              Sample.parse_date "now" Md.markdown
                              Html.BeautifulSoup Sample.textstat f))
             (fun f =>
                match snd (History.analyze_readability Sample.git Sample.read_file
                             Sample.parse_date "now" Md.markdown
                             Html.BeautifulSoup Sample.textstat f) with
                | Sys.Ok r => r
                | Sys.Raise _ => []
                end)
             ["README.md"; "gone.md"]).
  - vm_compute. reflexivity.
  - repeat constructor.
Defined.
